(** * GBD benchmark database: the feature store (gbd_tool/db.py) and the
      degree-sequence fingerprint (gbd_tool/init.py)

    The development has these parts.

    - A small relational engine: the part of the embedded SQL engine that the
      statements written by [db.py] exercise (tables with NOT NULL, DEFAULT
      and UNIQUE, views as catalogue entries, AFTER INSERT triggers of the one
      shape the code creates, INSERT / REPLACE / INSERT OR IGNORE, DELETE
      ... WHERE col IN (...), ALTER TABLE ... ADD), and a connection of a
      main store with attached ones.
    - The class [Database] of [db.py], function by function, on top of it.
    - [compute_degree_sequence_hash] of [init.py].
    - The notions the properties are stated with, and sample data.
    - The properties, and the properties at the sample data.

    Statements are syntax trees.  The source builds statement texts with
    [str.format]; next to every constructor and every call the text it stands
    for is given.  A text is the tree shown for it when the interpolated
    table and column names are plain identifiers written in one case (the
    engine compares identifiers without regard to case, the embedding compares
    them exactly) and when the interpolated literals do not contain the quote
    character that encloses them.  The second condition is checked by the
    embedding: a call that interpolates such a literal has the outcome
    [Unmodelled].  Texts in double quotes after VALUES are literals, as the
    engine reads them by default. *)

From Stdlib Require Import ZArith String Ascii List Permutation Sorted Lia.
From stdpp Require Import base tactics option list gmap strings pretty sorting.

Local Open Scope Z_scope.

(** ** Outcomes of a call *)

Inductive sql_reason :=
| SyntaxError          (* near "...": syntax error / incomplete input *)
| NoSuchTable
| NoSuchColumn
| AlreadyExists
| DuplicateColumn
| NotModifiable        (* cannot modify ... because it is a view *)
| ArityMismatch        (* N values for M columns *)
| NotNullNoDefault     (* Cannot add a NOT NULL column with default value NULL *)
| UniqueFailed
| NotNullFailed.

Inductive exn :=
| OperationalError (why : sql_reason)   (* sqlite3.OperationalError *)
| IntegrityError (why : sql_reason)     (* sqlite3.IntegrityError *)
| DatabaseException (msg : string)      (* db.DatabaseException *)
| KeyError (key : string)
| TypeError
| ValueError
| OSError.

Inductive outcome (A : Type) :=
| Ok (a : A)
| Raise (e : exn)
| Unmodelled.
Arguments Ok {A} a.
Arguments Raise {A} e.
Arguments Unmodelled {A}.

Global Instance outcome_ret : MRet outcome := λ A a, Ok a.
Global Instance outcome_bind : MBind outcome := λ A B k c,
  match c with
  | Ok a => k a
  | Raise e => Raise e
  | Unmodelled => Unmodelled
  end.

(** ** The relational engine *)

(** A column as [PRAGMA table_info] shows it: its name, the NOT NULL flag and
    the text of the DEFAULT clause ([dflt_value], [None] without one). *)
Record column := {
  col_name : string;
  col_notnull : bool;
  col_default : option string
}.

(** A row maps column names to texts; a column without an entry is NULL. *)
Abbreviation row := (gmap string string).

Record table := {
  tbl_columns : list column;
  tbl_unique : list (list string);   (* one list of columns per UNIQUE *)
  tbl_rows : list row
}.

(** A view is a catalogue entry: its columns and the table it selects from. *)
Inductive object :=
| Table (t : table)
| View (cols : list string) (src : string).

(** [CREATE TRIGGER trg_name AFTER INSERT ON trg_on BEGIN
      INSERT OR IGNORE INTO trg_into (hash) VALUES (NEW.hash); END] *)
Record trigger := {
  trg_name : string;
  trg_on : string;
  trg_into : string
}.

(** One store file: the catalogue in creation order, and the triggers. *)
Record store := {
  objects : list (string * object);
  triggers : list trigger
}.

(** The conflict policy of an INSERT: none ([INSERT INTO], which aborts the
    statement), [REPLACE INTO], [INSERT OR IGNORE INTO]. *)
Inductive conflict := Abort | Replace | Ignore.

Inductive stmt :=
(* CREATE TABLE [IF NOT EXISTS] name (cols, UNIQUE(...), ...) *)
| CreateTable (if_not_exists : bool) (name : string)
    (cols : list column) (uniq : list (list string))
(* CREATE VIEW name (cols) AS SELECT ... FROM src *)
| CreateView (name : string) (cols : list string) (src : string)
(* CREATE TRIGGER name AFTER INSERT ON on BEGIN
     INSERT OR IGNORE INTO into (hash) VALUES (NEW.hash); END *)
| CreateTrigger (name on into : string)
(* ALTER TABLE tbl ADD col *)
| AlterTableAdd (tbl : string) (col : column)
(* INSERT INTO tbl [(cols)] VALUES (row), (row), ... under policy c *)
| InsertValues (c : conflict) (tbl : string) (cols : option (list string))
    (rows : list (list string))
(* INSERT OR IGNORE INTO into (hash) SELECT DISTINCT(hash) FROM from *)
| InsertDistinctHash (into from : string)
(* DELETE FROM tbl WHERE col IN (vals) *)
| DeleteWhereIn (tbl col : string) (vals : list string)
(* UPDATE TABLE tbl SET col = dflt WHERE value IN (vals) *)
| UpdateTable (tbl col dflt : string) (vals : list string).

Fixpoint assoc {A} (k : string) (l : list (string * A)) : option A :=
  match l with
  | [] => None
  | (k', a) :: l' => if String.eqb k' k then Some a else assoc k l'
  end.

(** Replaces the entry of [k] where it stands; a new entry goes last. *)
Fixpoint assoc_set {A} (k : string) (a : A) (l : list (string * A))
  : list (string * A) :=
  match l with
  | [] => [(k, a)]
  | (k', a') :: l' =>
      if String.eqb k' k then (k, a) :: l' else (k', a') :: assoc_set k a l'
  end.

Definition lookup_object (name : string) (s : store) : option object :=
  assoc name (objects s).

Definition set_object (name : string) (o : object) (s : store) : store :=
  {| objects := assoc_set name o (objects s); triggers := triggers s |}.

Definition get_table (name : string) (s : store) : outcome table :=
  match lookup_object name s with
  | None => Raise (OperationalError NoSuchTable)
  | Some (View _ _) => Raise (OperationalError NotModifiable)
  | Some (Table t) => Ok t
  end.

Definition column_names (t : table) : list string := map col_name (tbl_columns t).

Definition mem (x : string) (l : list string) : bool :=
  existsb (String.eqb x) l.

Fixpoint nodupb (l : list string) : bool :=
  match l with
  | [] => true
  | x :: l' => negb (mem x l') && nodupb l'
  end.

(** The files on disk, by path. *)
Abbreviation files := (gmap string (list Byte.byte)).

(** The dict [degrees]: the keys in the order of their first assignment. *)
Abbreviation degrees_dict := (list (Z * (Z * Z))).

(** ** What the code takes from outside

    [eval_default] is the engine's value of a DEFAULT clause, from the text
    of the clause (a bare word or a quoted text gives that text, a number
    its canonical form).  [prepend_context], [context_from_name] and
    [make_alnum_ul] are the helpers of [gbd_tool/util.py], [csv_reader] is
    the reader of Python's [csv] module on the contents of a file, and
    [md5_hexdigest] is [hashlib.md5]: the hex digest of everything fed to
    [update], in order.  [real_text] is the text of the REAL the engine
    keeps for an integer literal that does not fit 64 bits, and [file_repr]
    is what [format] makes of the object [open(path)] returns: the name of
    its class with the path, the mode and the encoding of the platform.
    None of them is part of the files at hand; the embedding takes them as
    they come. *)
Class Externals := {
  eval_default : string → string;
  prepend_context : string → string → string;
  context_from_name : string → string;
  make_alnum_ul : string → string;
  csv_reader : list Byte.byte → list (list string);
  md5_hexdigest : string → string;
  real_text : Z → string;
  file_repr : string → string
}.

Section Gbd.

Context {E : Externals}.

(** The cells a new row gets for the columns the statement does not list. *)
Definition defaults (t : table) : row :=
  list_to_map
    (omap (λ c, (λ d, (col_name c, eval_default d)) <$> col_default c)
          (tbl_columns t)).

(** The row of [INSERT INTO t (cols) VALUES (vals)]. *)
Definition build_row (t : table) (cols vals : list string) : row :=
  list_to_map (zip cols vals) ∪ defaults t.

Definition notnull_ok (t : table) (r : row) : bool :=
  forallb (λ c, implb (col_notnull c) (bool_decide (is_Some (r !! col_name c))))
          (tbl_columns t).

(** Two rows collide on a UNIQUE when they agree, with no NULL, on each of
    its columns. *)
Definition same_on (u : list string) (r r' : row) : bool :=
  forallb (λ c, match r !! c, r' !! c with
                | Some a, Some b => String.eqb a b
                | _, _ => false
                end) u.

Definition collides (t : table) (r r' : row) : bool :=
  existsb (λ u, same_on u r r') (tbl_unique t).

Inductive placed :=
| Placed (t : table)
| Skipped
| Failed (e : exn).

Definition with_rows (t : table) (rows : list row) : table :=
  {| tbl_columns := tbl_columns t; tbl_unique := tbl_unique t; tbl_rows := rows |}.

(** One row under a conflict policy: NOT NULL first, then UNIQUE. *)
Definition place_row (c : conflict) (t : table) (r : row) : placed :=
  if negb (notnull_ok t r) then
    match c with
    | Ignore => Skipped
    | _ => Failed (IntegrityError NotNullFailed)
    end
  else if existsb (collides t r) (tbl_rows t) then
    match c with
    | Abort => Failed (IntegrityError UniqueFailed)
    | Ignore => Skipped
    | Replace =>
        Placed (with_rows t
          (List.filter (λ r', negb (collides t r r')) (tbl_rows t) ++ [r]))
    end
  else Placed (with_rows t (tbl_rows t ++ [r])).

(** A trigger's INSERT OR IGNORE runs under the policy of the statement that
    fired it when that statement names one (REPLACE, OR IGNORE). *)
Definition trigger_policy (c : conflict) : conflict :=
  match c with
  | Abort => Ignore
  | c' => c'
  end.

(** [INSERT OR IGNORE INTO into (hash) VALUES (NEW.hash)] for the new row
    [new] of the table the trigger is on. *)
Definition fire (c : conflict) (new : row) (s : store) (trg : trigger)
  : outcome store :=
  t ← get_table (trg_into trg) s;
  if negb (mem "hash" (column_names t)) then Raise (OperationalError NoSuchColumn)
  else
    let r := match new !! "hash" with
             | Some h => <["hash" := h]> (defaults t)
             | None => delete "hash" (defaults t)
             end in
    match place_row c t r with
    | Placed t' => Ok (set_object (trg_into trg) (Table t') s)
    | Skipped => Ok s
    | Failed e => Raise e
    end.

Fixpoint fire_all (c : conflict) (new : row) (trgs : list trigger) (s : store)
  : outcome store :=
  match trgs with
  | [] => Ok s
  | trg :: rest => s' ← fire c new s trg; fire_all c new rest s'
  end.

Definition triggers_on (tbl : string) (s : store) : list trigger :=
  List.filter (λ trg, String.eqb (trg_on trg) tbl) (triggers s).

Definition insert_row (c : conflict) (tbl : string) (cols : option (list string))
    (vals : list string) (s : store) : outcome store :=
  t ← get_table tbl s;
  let cols' := default (column_names t) cols in
  if negb (forallb (λ x, mem x (column_names t)) cols') then
    Raise (OperationalError NoSuchColumn)
  else if negb (length cols' =? length vals)%nat then
    Raise (OperationalError ArityMismatch)
  else
    match place_row c t (build_row t cols' vals) with
    | Placed t' =>
        fire_all (trigger_policy c) (build_row t cols' vals)
                 (triggers_on tbl s) (set_object tbl (Table t') s)
    | Skipped => Ok s
    | Failed e => Raise e
    end.

(** What the engine checks of the triggers on [tbl] when it prepares an
    INSERT, before any row is looked at: [NEW.hash] needs a column [hash] of
    [tbl], and the trigger's INSERT a table with a column [hash]. *)
Definition check_trigger (s : store) (t : table) (trg : trigger) : outcome unit :=
  if negb (mem "hash" (column_names t)) then Raise (OperationalError NoSuchColumn)
  else
    t' ← get_table (trg_into trg) s;
    if mem "hash" (column_names t') then Ok tt
    else Raise (OperationalError NoSuchColumn).

Fixpoint check_triggers (s : store) (t : table) (trgs : list trigger) : outcome unit :=
  match trgs with
  | [] => Ok tt
  | trg :: rest => _ ← check_trigger s t trg; check_triggers s t rest
  end.

Fixpoint insert_rows (c : conflict) (tbl : string) (cols : option (list string))
    (rows : list (list string)) (s : store) : outcome store :=
  match rows with
  | [] => Ok s
  | vals :: rest =>
      s' ← insert_row c tbl cols vals s; insert_rows c tbl cols rest s'
  end.

(** [INSERT INTO tbl (cols) VALUES rows], once parsed. *)
Definition insert_values (c : conflict) (tbl : string) (cols : option (list string))
    (rows : list (list string)) (s : store) : outcome store :=
  t ← get_table tbl s;
  _ ← check_triggers s t (triggers_on tbl s);
  insert_rows c tbl cols rows s.

Definition hashes_of (t : table) : list string :=
  omap (λ r : row, r !! "hash") (tbl_rows t).

(** [col IN (vals)] on a row; NULL is in no list. *)
Definition cell_in (col : string) (vals : list string) (r : row) : bool :=
  match r !! col with
  | Some v => mem v vals
  | None => false
  end.

(** [SELECT DISTINCT]: first occurrences, in order. *)
Fixpoint distinct_from (seen l : list string) : list string :=
  match l with
  | [] => []
  | x :: l' =>
      if mem x seen then distinct_from seen l' else x :: distinct_from (x :: seen) l'
  end.

(** A statement either takes effect as a whole or raises and leaves the
    store as it was. *)
Definition exec (q : stmt) (s : store) : outcome store :=
  match q with
  | CreateTable ine name cols uniq =>
      match lookup_object name s with
      | Some _ => if ine then Ok s else Raise (OperationalError AlreadyExists)
      | None =>
          if nodupb (map col_name cols) then
            Ok (set_object name
                  (Table {| tbl_columns := cols; tbl_unique := uniq; tbl_rows := [] |}) s)
          else Raise (OperationalError DuplicateColumn)
      end
  | CreateView name cols src =>
      match lookup_object name s with
      | Some _ => Raise (OperationalError AlreadyExists)
      | None => Ok (set_object name (View cols src) s)
      end
  | CreateTrigger name on into =>
      if existsb (λ trg, String.eqb (trg_name trg) name) (triggers s) then
        Raise (OperationalError AlreadyExists)
      else
        match lookup_object on s with
        | None => Raise (OperationalError NoSuchTable)
        | Some (View _ _) => Raise (OperationalError NotModifiable)
        | Some (Table _) =>
            Ok {| objects := objects s;
                  triggers := triggers s ++
                    [{| trg_name := name; trg_on := on; trg_into := into |}] |}
        end
  | AlterTableAdd tbl col =>
      match lookup_object tbl s with
      | None => Raise (OperationalError NoSuchTable)
      | Some (View _ _) => Raise (OperationalError NotModifiable)
      | Some (Table t) =>
          if mem (col_name col) (column_names t) then
            Raise (OperationalError DuplicateColumn)
          else
            match col_default col with
            | None =>
                if col_notnull col then Raise (OperationalError NotNullNoDefault)
                else Ok (set_object tbl
                       (Table {| tbl_columns := tbl_columns t ++ [col];
                                 tbl_unique := tbl_unique t;
                                 tbl_rows := tbl_rows t |}) s)
            | Some d =>
                Ok (set_object tbl
                      (Table {| tbl_columns := tbl_columns t ++ [col];
                                tbl_unique := tbl_unique t;
                                tbl_rows := map (λ r : row, <[col_name col := eval_default d]> r)
                                                (tbl_rows t) |}) s)
            end
      end
  | InsertValues c tbl cols rows =>
      match rows with
      | [] => Raise (OperationalError SyntaxError)
      | _ => insert_values c tbl cols rows s
      end
  | InsertDistinctHash into from =>
      t ← get_table into s;
      match lookup_object from s with
      | None => Raise (OperationalError NoSuchTable)
      | Some (View _ _) => Unmodelled
      | Some (Table tf) =>
          if negb (mem "hash" (column_names tf)) then
            Raise (OperationalError NoSuchColumn)
          else
            (* a NULL hash of [from] is passed over: under OR IGNORE the
               NOT NULL of a registry table drops it *)
            insert_values Ignore into (Some ["hash"])
              (map (λ h, [h]) (distinct_from [] (hashes_of tf))) s
      end
  | DeleteWhereIn tbl col vals =>
      t ← get_table tbl s;
      if negb (mem col (column_names t)) then Raise (OperationalError NoSuchColumn)
      else
        Ok (set_object tbl
              (Table (with_rows t
                 (List.filter (λ r, negb (cell_in col vals r)) (tbl_rows t)))) s)
  | UpdateTable _ _ _ _ => Raise (OperationalError SyntaxError)
  end.

(** *** A connection: the main store and the stores attached to it *)

(** The texts that do not parse: [INSERT ... VALUES] with nothing after it,
    and [UPDATE TABLE ...] (the engine's UPDATE takes the table name right
    after the keyword, and TABLE is a reserved word). *)
Definition parses (q : stmt) : bool :=
  match q with
  | InsertValues _ _ _ [] => false
  | UpdateTable _ _ _ _ => false
  | _ => true
  end.

Definition target (q : stmt) : string :=
  match q with
  | CreateTable _ name _ _ => name
  | CreateView name _ _ => name
  | CreateTrigger _ on _ => on
  | AlterTableAdd tbl _ => tbl
  | InsertValues _ tbl _ _ => tbl
  | InsertDistinctHash into _ => into
  | DeleteWhereIn tbl _ _ => tbl
  | UpdateTable tbl _ _ _ => tbl
  end.

Definition creates (q : stmt) : bool :=
  match q with
  | CreateTable _ _ _ _ | CreateView _ _ _ => true
  | _ => false
  end.

(** An unqualified name is looked up in the main store first, then in the
    attached stores in the order of attachment. *)
Fixpoint exec_resolved (q : stmt) (conn : list store) : outcome (list store) :=
  match conn with
  | [] => Raise (OperationalError NoSuchTable)
  | s :: rest =>
      match lookup_object (target q) s with
      | Some _ => s' ← exec q s; Ok (s' :: rest)
      | None => rest' ← exec_resolved q rest; Ok (s :: rest')
      end
  end.

(** An unqualified CREATE goes to the main store. *)
Definition exec_conn (q : stmt) (conn : list store) : outcome (list store) :=
  if negb (parses q) then Raise (OperationalError SyntaxError)
  else if creates q then
    match conn with
    | [] => Raise (OperationalError NoSuchTable)
    | s :: rest => s' ← exec q s; Ok (s' :: rest)
    end
  else exec_resolved q conn.

(** The store an unqualified name is found in on a connection. *)
Fixpoint find_store (name : string) (conn : list store) : option store :=
  match conn with
  | [] => None
  | s :: rest =>
      match lookup_object name s with
      | Some _ => Some s
      | None => find_store name rest
      end
  end.

(** The connection after the store a name is found in has become [s']. *)
Fixpoint put_store (name : string) (s' : store) (conn : list store) : list store :=
  match conn with
  | [] => []
  | s :: rest =>
      match lookup_object name s with
      | Some _ => s' :: rest
      | None => s :: put_store name s' rest
      end
  end.

(** [sqlite3.connect(path).execute(q)] on a connection that is dropped right
    after: a schema statement is not inside a transaction and stays; before
    an INSERT the Python module opens a transaction, which nothing commits
    before the connection goes away, so its rows are lost. *)
Definition connect_execute (q : stmt) (s : store) : outcome store :=
  s' ← exec q s;
  match q with
  | InsertValues _ _ _ _ | InsertDistinctHash _ _ | DeleteWhereIn _ _ _ => Ok s
  | _ => Ok s'
  end.

(** ** [gbd_tool/db.py] *)

(** One entry of [feature_infos]. *)
Record finfo := {
  f_table : string;
  f_column : string;
  f_default : option string;
  f_virtual : bool;
  f_context : string;
  f_database : string
}.

(** One entry of [database_infos]. *)
Record dbinfo := {
  db_name : string;
  db_path : string;
  db_main : bool;
  db_contexts : list string;
  db_tables : list string;
  db_views : list string
}.

(** The object: [database_infos] (an OrderedDict), [feature_infos] (a dict)
    and the live connection [self.cursor] works on: the main store followed
    by the attached ones. *)
Record Database := {
  database_infos : list (string * dbinfo);
  feature_infos : gmap string finfo;
  connection : list store
}.

Fixpoint has_char (c : ascii) (s : string) : bool :=
  match s with
  | EmptyString => false
  | String c' s' => Ascii.eqb c c' || has_char c s'
  end.

(** Free of the double quote (code 34), of the single quote (code 39). *)
Definition dq_free (s : string) : bool := negb (has_char (ascii_of_nat 34) s).
Definition sq_free (s : string) : bool := negb (has_char (ascii_of_nat 39) s).

(** [os.path.basename]: what follows the last slash. *)
Fixpoint basename (path : string) : string :=
  match path with
  | EmptyString => EmptyString
  | String c rest =>
      if has_char "/" rest then basename rest
      else if Ascii.eqb c "/" then rest else path
  end.

Global Instance byte_eq_dec : EqDecision Byte.byte := Byte.byte_eq_dec.

(** [b'SQLite format 3\x00'] *)
Definition signature : list Byte.byte :=
  String.list_byte_of_string "SQLite format 3" ++ [Byte.x00].

Definition is_database (fs : files) (db : string) : bool :=
  match fs !! db with
  | None => false                               (* not os.path.isfile(db) *)
  | Some content =>
      let sz := length content in
      if (sz =? 0)%nat then true
      else if (sz <? 100)%nat then false
      else
        let header := take 100 content in
        bool_decide (take 16 header = signature)
  end.

(** The branch [__init__] takes for one path of [path_list]. *)
Inductive startup := CreateStore | OpenStore | ImportCsv.

Definition startup_action (fs : files) (path : string) : startup :=
  if negb (bool_decide (is_Some (fs !! path))) then CreateStore
  else if is_database fs path then OpenStore
  else ImportCsv.

(** *** Names in the text of a statement

    The code formats the names of tables and columns, and the text of a
    default, into the statement as they are, and the engine reads what it
    gets: a blank ends a name, a reserved word is no name, a literal that
    starts with a digit is a number, and two names that differ only in the
    case of their letters are one name.  The embedding follows a statement
    only where such a text stands for itself: a name of lower-case letters,
    digits and underscores that does not start with a digit and is none of
    the engine's reserved words, in a store that holds no other spelling of
    it.  Every other text is [Unmodelled]. *)

Definition lower (c : ascii) : ascii :=
  let n := nat_of_ascii c in
  if (65 <=? n)%nat && (n <=? 90)%nat then ascii_of_nat (n + 32) else c.

Fixpoint lower_string (s : string) : string :=
  match s with
  | EmptyString => EmptyString
  | String c s' => String (lower c) (lower_string s')
  end.

(** [s LIKE 'p%'] for a pattern text [p] in lower case without wildcards:
    LIKE does not tell the case of ASCII letters apart. *)
Fixpoint like_prefix (p s : string) : bool :=
  match p, s with
  | EmptyString, _ => true
  | String a p', String b s' => Ascii.eqb a (lower b) && like_prefix p' s'
  | _, _ => false
  end.

Fixpoint all_chars (p : ascii → bool) (s : string) : bool :=
  match s with
  | EmptyString => true
  | String c s' => p c && all_chars p s'
  end.

Definition is_digit (c : ascii) : bool :=
  let n := nat_of_ascii c in ((48 <=? n) && (n <=? 57))%nat.

Definition is_word_char (c : ascii) : bool :=
  let n := nat_of_ascii c in
  is_digit c || ((97 <=? n) && (n <=? 122))%nat || (n =? 95)%nat.

(** The keywords of the engine, in lower case, and the two words it reads
    as the numbers 1 and 0.  The engine takes some of them for names where
    nothing else fits; the embedding follows none of them. *)
Definition reserved_words : list string :=
  ["abort"; "action"; "add"; "after"; "all"; "alter"; "always"; "analyze";
   "and"; "as"; "asc"; "attach"; "autoincrement"; "before"; "begin";
   "between"; "by"; "cascade"; "case"; "cast"; "check"; "collate"; "column";
   "commit"; "conflict"; "constraint"; "create"; "cross"; "current";
   "current_date"; "current_time"; "current_timestamp"; "database";
   "default"; "deferrable"; "deferred"; "delete"; "desc"; "detach";
   "distinct"; "do"; "drop"; "each"; "else"; "end"; "escape"; "except";
   "exclude"; "exclusive"; "exists"; "explain"; "fail"; "filter"; "first";
   "following"; "for"; "foreign"; "from"; "full"; "generated"; "glob";
   "group"; "groups"; "having"; "if"; "ignore"; "immediate"; "in"; "index";
   "indexed"; "initially"; "inner"; "insert"; "instead"; "intersect"; "into";
   "is"; "isnull"; "join"; "key"; "last"; "left"; "like"; "limit"; "match";
   "materialized"; "natural"; "no"; "not"; "nothing"; "notnull"; "null";
   "nulls"; "of"; "offset"; "on"; "or"; "order"; "others"; "outer"; "over";
   "partition"; "plan"; "pragma"; "preceding"; "primary"; "query"; "raise";
   "range"; "recursive"; "references"; "regexp"; "reindex"; "release";
   "rename"; "replace"; "restrict"; "returning"; "right"; "rollback"; "row";
   "rows"; "savepoint"; "select"; "set"; "table"; "temp"; "temporary";
   "then"; "ties"; "to"; "transaction"; "trigger"; "unbounded"; "union";
   "unique"; "update"; "using"; "vacuum"; "values"; "view"; "virtual";
   "when"; "where"; "window"; "with"; "without"; "true"; "false"].

Definition plain_name (s : string) : bool :=
  match s with
  | EmptyString => false
  | String c _ =>
      negb (is_digit c) && all_chars is_word_char s && negb (mem s reserved_words)
  end.

(** The text of a default that [PRAGMA table_info] shows as it was
    written: a plain word, or a number written with digits alone. *)
Definition plain_default (dv : string) : bool :=
  plain_name dv || (negb (String.eqb dv EmptyString) && all_chars is_digit dv).

(** A plain name the engine does not keep for itself. *)
Definition table_name (s : string) : bool :=
  plain_name s && negb (like_prefix "sqlite_" s).

(** Two spellings of one name. *)
Definition case_variant (a b : string) : bool :=
  String.eqb (lower_string a) (lower_string b) && negb (String.eqb a b).

(** The store has an object under another spelling of [name]. *)
Definition store_clash (name : string) (s : store) : bool :=
  existsb (λ o : string * object, case_variant name o.1) (objects s).

(** An unqualified CREATE looks at the main store. *)
Definition main_clash (name : string) (conn : list store) : bool :=
  match conn with
  | s :: _ => store_clash name s
  | [] => false
  end.

(** The table [table], where the connection finds it, has a column under
    another spelling of [name]. *)
Definition column_clash (name table : string) (conn : list store) : bool :=
  match find_store table conn with
  | Some s =>
      match lookup_object table s with
      | Some (Table t) => existsb (case_variant name) (column_names t)
      | _ => false
      end
  | None => false
  end.

(** What fits the 64 bits of an INTEGER of the engine. *)
Definition int64 (n : Z) : bool := (- 2 ^ 63 <=? n) && (n <? 2 ^ 63).

(** A column declared by its name alone, and one declared NOT NULL; the
    declared type plays no part. *)
Definition plain_column (name : string) : column :=
  {| col_name := name; col_notnull := false; col_default := None |}.

Definition not_null (name : string) : column :=
  {| col_name := name; col_notnull := true; col_default := None |}.

(** The rows of a [csv.DictReader] after the header: an empty record is
    passed over; [row.values()] are the cells when there is one per field,
    otherwise the dict holds [None] or a list and the join raises. *)
Fixpoint import_rows (name : string) (fieldnames : list string)
    (records : list (list string)) (s : store) : outcome store :=
  match records with
  | [] => Ok s
  | [] :: rest => import_rows name fieldnames rest s
  | rec :: rest =>
      if negb (length rec =? length fieldnames)%nat then Raise TypeError
      else if negb (forallb sq_free rec) then Unmodelled
      else
        (* INSERT INTO name VALUES ('c1', 'c2', ...) *)
        s' ← exec (InsertValues Abort name None [rec]) s;
        import_rows name fieldnames rest s'
  end.

(** ["{}_{}".format(context_from_name(file), make_alnum_ul(file))] *)
Definition import_name (csvfile : string) : string :=
  let file := basename csvfile in
  context_from_name file +:+ "_" +:+ make_alnum_ul file.

Definition import_csv (fs : files) (csvfile : string) (inmemory : store)
  : outcome store :=
  let name := import_name csvfile in
  (* SELECT * FROM sqlite_master WHERE tbl_name='name' *)
  match lookup_object name inmemory with
  | Some _ => Ok inmemory
  | None =>
      match fs !! csvfile with
      | None => Raise OSError
      | Some content =>
          match csv_reader content with
          | [] => Raise TypeError               (* fieldnames is None *)
          | fieldnames :: records =>
              if negb (mem "hash" fieldnames) then
                (* "Column 'hash' not found in {}".format(csvfile), where
                   [csvfile] is by now the open file, not the path *)
                Raise (DatabaseException
                         ("Column 'hash' not found in " +:+ file_repr csvfile))
              else if negb (table_name name && forallb plain_name fieldnames) then
                Unmodelled
              else if store_clash name inmemory then Unmodelled
              else
                (* CREATE TABLE IF NOT EXISTS name (f1, f2, ...) *)
                s ← exec (CreateTable true name (map plain_column fieldnames) []) inmemory;
                import_rows name fieldnames records s
          end
      end
  end.

(** The in-memory store as the connection [self.inmemory] sees it when the
    call is over, whether it returned or raised: a statement that has run
    has taken effect, nothing is rolled back, and the step that raised has
    changed nothing.  [None] where the call is not followed. *)
Fixpoint import_rows_store (name : string) (fieldnames : list string)
    (records : list (list string)) (s : store) : option store :=
  match records with
  | [] => Some s
  | [] :: rest => import_rows_store name fieldnames rest s
  | rec :: rest =>
      if negb (length rec =? length fieldnames)%nat then Some s
      else if negb (forallb sq_free rec) then None
      else
        match exec (InsertValues Abort name None [rec]) s with
        | Ok s' => import_rows_store name fieldnames rest s'
        | Raise _ => Some s
        | Unmodelled => None
        end
  end.

Definition import_csv_store (fs : files) (csvfile : string) (inmemory : store)
  : option store :=
  let name := import_name csvfile in
  match lookup_object name inmemory with
  | Some _ => Some inmemory
  | None =>
      match fs !! csvfile with
      | None => Some inmemory
      | Some content =>
          match csv_reader content with
          | [] => Some inmemory
          | fieldnames :: records =>
              if negb (mem "hash" fieldnames) then Some inmemory
              else if negb (table_name name && forallb plain_name fieldnames) then None
              else if store_clash name inmemory then None
              else
                match exec (CreateTable true name (map plain_column fieldnames) [])
                           inmemory with
                | Ok s => import_rows_store name fieldnames records s
                | Raise _ => Some inmemory
                | Unmodelled => None
                end
          end
      end
  end.

(** A loop whose body may raise. *)
Fixpoint for_each {A S} (body : S → A → outcome S) (l : list A) (s : S)
  : outcome S :=
  match l with
  | [] => Ok s
  | a :: l' => s' ← body s a; for_each body l' s'
  end.

(** *** [extract_infos] *)

Inductive objtype := type_table | type_view.

(** [tbl_name LIKE 'sqlite$_%' ESCAPE '$' OR tbl_name LIKE '$_$_%' ESCAPE '$'] *)
Definition internal_name (name : string) : bool :=
  like_prefix "sqlite_" name || like_prefix "__" name.

(** [SELECT tbl_name, type FROM sqlite_master WHERE type IN ('table', 'view')
     AND NOT tbl_name LIKE 'sqlite$_%' ESCAPE '$'
     AND NOT tbl_name LIKE '$_$_%' ESCAPE '$'] *)
Definition sql_tables (s : store) : list (string * objtype) :=
  omap (λ '(name, o),
          if internal_name name then None
          else Some (name, match o with
                           | Table _ => type_table
                           | View _ _ => type_view
                           end))
       (objects s).

(** [PRAGMA table_info(name)]; for a view the engine has to resolve the
    table it selects from. *)
Definition table_info (name : string) (s : store) : outcome (list column) :=
  match lookup_object name s with
  | None => Ok []
  | Some (Table t) => Ok (tbl_columns t)
  | Some (View cols src) =>
      match lookup_object src s with
      | None => Raise (OperationalError NoSuchTable)
      | Some _ => Ok (map plain_column cols)
      end
  end.

Definition with_infos (self : Database) (infos : list (string * dbinfo)) : Database :=
  {| database_infos := infos;
     feature_infos := feature_infos self;
     connection := connection self |}.

Definition with_features (self : Database) (fi : gmap string finfo) : Database :=
  {| database_infos := database_infos self;
     feature_infos := fi;
     connection := connection self |}.

Definition with_connection (self : Database) (conn : list store) : Database :=
  {| database_infos := database_infos self;
     feature_infos := feature_infos self;
     connection := conn |}.

(** The two appends of the loop body on [database_infos[dbname]]. *)
Definition note_table (context table : string) (type : objtype) (i : dbinfo) : dbinfo :=
  {| db_name := db_name i; db_path := db_path i; db_main := db_main i;
     db_contexts := if mem context (db_contexts i) then db_contexts i
                    else db_contexts i ++ [context];
     db_tables := match type with
                  | type_table => db_tables i ++ [table]
                  | type_view => db_tables i
                  end;
     db_views := match type with
                 | type_table => db_views i
                 | type_view => db_views i ++ [table]
                 end |}.

Definition update_info (dbname : string) (f : dbinfo → dbinfo)
    (infos : list (string * dbinfo)) : list (string * dbinfo) :=
  match assoc dbname infos with
  | Some i => assoc_set dbname (f i) infos
  | None => infos
  end.

(** The inner loop body: one column of one table. *)
Definition note_column (table : string) (type : objtype) (all_virtual : bool)
    (context dbname : string) (fi : gmap string finfo) (col : column)
  : gmap string finfo :=
  if String.eqb (col_name col) "hash" then fi
  else
    let fname := if String.eqb (col_name col) "value" then table else col_name col in
    <[fname := {| f_table := table;
                  f_column := col_name col;
                  f_default := col_default col;
                  f_virtual := match type with type_view => true | type_table => all_virtual end;
                  f_context := context;
                  f_database := dbname |}]> fi.

Definition extract_table (at_path : store) (dbname : string) (all_virtual : bool)
    (self : Database) (entry : string * objtype) : outcome Database :=
  let '(table, type) := entry in
  let context := context_from_name table in
  let self1 :=
    with_infos self (update_info dbname (note_table context table type) (database_infos self)) in
  infos ← table_info table at_path;
  Ok (with_features self1
        (foldl (note_column table type all_virtual context dbname)
               (feature_infos self1) infos)).

(** [at_path] is the store [sqlite3.connect(path)] opens. *)
Definition extract_infos (path : string) (all_virtual : bool) (at_path : store)
    (self : Database) : outcome Database :=
  let dbname := make_alnum_ul (basename path) in
  let firstdb := (length (database_infos self) =? 0)%nat in
  let self0 :=
    with_infos self
      (assoc_set dbname
         {| db_name := dbname; db_path := path; db_main := firstdb;
            db_contexts := []; db_tables := []; db_views := [] |}
         (database_infos self)) in
  for_each (extract_table at_path dbname all_virtual) (sql_tables at_path) self0.

(** Discovery over the stores of a federation, one [extract_infos] each, in
    the order of [__init__]. *)
Definition discover (stores : list (string * bool * store)) (self : Database)
  : outcome Database :=
  for_each (λ self '(path, all_virtual, at_path),
              extract_infos path all_virtual at_path self) stores self.

(** *** [init_database] *)

Definition when (b : bool) (q : stmt) (s : store) : outcome store :=
  if b then connect_execute q s else Ok s.

Definition init_context (dbinfo : dbinfo) (s : store) (context : string)
  : outcome store :=
  let local := prepend_context "local" context in
  let filename := prepend_context "filename" context in
  let hashv := prepend_context "hash" context in
  let features := prepend_context "features" context in
  (* CREATE TABLE local (hash TEXT NOT NULL, value TEXT NOT NULL) *)
  s1 ← when (negb (mem local (db_tables dbinfo)))
         (CreateTable false local [not_null "hash"; not_null "value"] []) s;
  (* CREATE VIEW filename (hash, value) AS SELECT hash, REPLACE(...) FROM context *)
  s2 ← when (negb (mem filename (db_views dbinfo)))
         (CreateView filename ["hash"; "value"] context) s1;
  (* CREATE VIEW hashv (hash, value) AS SELECT DISTINCT hash, hash FROM local *)
  s3 ← when (negb (mem hashv (db_views dbinfo)))
         (CreateView hashv ["hash"; "value"] local) s2;
  if negb (mem features (db_tables dbinfo)) then
    (* CREATE TABLE features (hash UNIQUE NOT NULL) *)
    s4 ← connect_execute (CreateTable false features [not_null "hash"] [["hash"]]) s3;
    (* INSERT OR IGNORE INTO features (hash) SELECT DISTINCT(hash) FROM local *)
    s5 ← connect_execute (InsertDistinctHash features local) s4;
    (* CREATE TRIGGER features_dval AFTER INSERT ON local BEGIN
         INSERT OR IGNORE INTO features (hash) VALUES (NEW.hash); END *)
    connect_execute (CreateTrigger (features +:+ "_dval") local features) s5
  else Ok s3.

(** [itertools.permutations(l, 2)]: the ordered pairs of two positions. *)
Definition permutations2 {A} (l : list A) : list (A * A) :=
  flat_map (λ '(i, x),
              omap (λ '(j, y), if (i =? j)%nat then None else Some (x, y))
                   (imap pair l))
           (imap pair l).

Definition init_translator (dbinfo : dbinfo) (s : store) (c01 : string * string)
  : outcome store :=
  let translator := "translator_" +:+ fst c01 +:+ "_" +:+ snd c01 in
  (* CREATE TABLE translator (hash, value) *)
  when (negb (mem translator (db_tables dbinfo)))
    (CreateTable false translator [plain_column "hash"; plain_column "value"] []) s.

(** [s] is the store at [dbinfo['path']]. *)
Definition init_database (dbinfo : dbinfo) (s : store) : outcome store :=
  s' ← for_each (init_context dbinfo) (db_contexts dbinfo) s;
  for_each (init_translator dbinfo) (permutations2 (db_contexts dbinfo)) s'.

(** *** Features and their values *)

Definition execute (q : stmt) (self : Database) : outcome Database :=
  conn ← exec_conn q (connection self);
  Ok (with_connection self conn).

Definition create_feature (name : string) (default_value : option string)
    (self : Database) : outcome Database :=
  match default_value with
  | Some dv =>
      let features := prepend_context "features" (context_from_name name) in
      if negb (plain_name name && plain_default dv) then Unmodelled
      else if column_clash name features (connection self) then Unmodelled
      else
        (* ALTER TABLE features ADD name TEXT NOT NULL DEFAULT dv *)
        execute (AlterTableAdd features
                   {| col_name := name; col_notnull := true; col_default := Some dv |}) self
  | None =>
      if negb (table_name name) then Unmodelled
      else if main_clash name (connection self) then Unmodelled
      else
        (* CREATE TABLE IF NOT EXISTS name (hash TEXT NOT NULL, value TEXT NOT NULL,
             CONSTRAINT all_unique UNIQUE(hash, value)) *)
        execute (CreateTable true name [not_null "hash"; not_null "value"]
                   [["hash"; "value"]]) self
  end.

(** Python's truth value of [info['default']]: [None] and the empty text are
    false. *)
Definition truthy (d : option string) : bool :=
  match d with
  | None => false
  | Some EmptyString => false
  | Some _ => true
  end.

Definition info_of (feature : string) (self : Database) : outcome finfo :=
  match feature_infos self !! feature with
  | Some info => Ok info
  | None => Raise (KeyError feature)
  end.

(** ['REPLACE' if force and info['default'] else 'INSERT'] *)
Definition insert_method (force : bool) (info : finfo) : conflict :=
  if force && truthy (f_default info) then Replace else Abort.

Definition insert (feature value : string) (hashes : list string) (force : bool)
    (self : Database) : outcome Database :=
  info ← info_of feature self;
  let values := map (λ hash, [hash; value]) hashes in
  let method := insert_method force info in
  if negb (forallb (λ hash, dq_free hash && dq_free value) hashes) then Unmodelled
  else
    (* {method} INTO {table} (hash, {column}) VALUES ("h1", "value"), ... *)
    execute (InsertValues method (f_table info) (Some ["hash"; f_column info]) values) self.

(** ["('{}')".format("', '".join(l))]: no element still gives one literal,
    the empty text. *)
Definition in_list (l : list string) : list string :=
  match l with
  | [] => [EmptyString]
  | _ => l
  end.

Definition delete_hashes (feature : string) (hashes : list string)
    (self : Database) : outcome Database :=
  info ← info_of feature self;
  match f_default info with
  | None =>
      if negb (forallb sq_free hashes) then Unmodelled
      else
        (* DELETE FROM {feature} WHERE hash IN ('h1', 'h2', ...) *)
        execute (DeleteWhereIn feature "hash" (in_list hashes)) self
  | Some d => insert feature d hashes true self
  end.

Definition delete_values (feature : string) (values : list string)
    (self : Database) : outcome Database :=
  info ← info_of feature self;
  match f_default info with
  | None =>
      if negb (forallb sq_free values) then Unmodelled
      else
        (* DELETE FROM {feature} WHERE value IN ('v1', 'v2', ...) *)
        execute (DeleteWhereIn feature "value" (in_list values)) self
  | Some d =>
      (* UPDATE TABLE {table} SET {column} = {default} WHERE value IN ('v1', ...) *)
      execute (UpdateTable (f_table info) (f_column info) d (in_list values)) self
  end.

(** ** [gbd_tool/init.py]: the degree-sequence fingerprint *)

(** [str.isspace] on the characters below 256. *)
Definition is_space (c : ascii) : bool :=
  let n := nat_of_ascii c in
  ((9 <=? n) && (n <=? 13) || (28 <=? n) && (n <=? 32)
   || (n =? 133) || (n =? 160))%nat.

Fixpoint lstrip (l : list ascii) : list ascii :=
  match l with
  | c :: l' => if is_space c then lstrip l' else l
  | [] => []
  end.

(** [line.strip()] *)
Definition strip (l : list ascii) : list ascii := rev (lstrip (rev (lstrip l))).

(** [line.split()]: the maximal runs without white space; [cur] is the run
    being read, last character first. *)
Fixpoint split_run (cur : list ascii) (l : list ascii) : list (list ascii) :=
  match l with
  | [] => match cur with [] => [] | _ => [rev cur] end
  | c :: l' =>
      if is_space c then
        match cur with
        | [] => split_run [] l'
        | _ => rev cur :: split_run [] l'
        end
      else split_run (c :: cur) l'
  end.

Definition split (l : list ascii) : list (list ascii) := split_run [] l.

Definition digit_of (c : ascii) : option Z :=
  let n := nat_of_ascii c in
  if (48 <=? n)%nat && (n <=? 57)%nat then Some (Z.of_nat n - 48) else None.

(** The digits of an integer literal; a single underscore may stand between
    two digits. *)
Fixpoint int_digits (acc : Z) (after_digit : bool) (l : list ascii) : option Z :=
  match l with
  | [] => if after_digit then Some acc else None
  | c :: l' =>
      if Ascii.eqb c "_" then
        if after_digit then
          match l' with
          | [] => None
          | _ => int_digits acc false l'
          end
        else None
      else
        match digit_of c with
        | Some d => int_digits (10 * acc + d) true l'
        | None => None
        end
  end.

(** [int(lit)] on a token without white space. *)
Definition int (lit : list ascii) : outcome Z :=
  let parsed :=
    match lit with
    | c :: l' =>
        if Ascii.eqb c "-" then Z.opp <$> int_digits 0 false l'
        else if Ascii.eqb c "+" then int_digits 0 false l'
        else int_digits 0 false lit
    | [] => None
    end in
  match parsed with
  | Some n => Ok n
  | None => Raise ValueError
  end.

Fixpoint degrees_get (k : Z) (dflt : Z * Z) (d : degrees_dict) : Z * Z :=
  match d with
  | [] => dflt
  | (k', v) :: d' => if k' =? k then v else degrees_get k dflt d'
  end.

Fixpoint degrees_set (k : Z) (v : Z * Z) (d : degrees_dict) : degrees_dict :=
  match d with
  | [] => [(k, v)]
  | (k', v') :: d' =>
      if k' =? k then (k, v) :: d' else (k', v') :: degrees_set k v d'
  end.

(** The body of the loop over the literals, on a parsed literal. *)
Definition count_num (degrees : degrees_dict) (num : Z) : degrees_dict :=
  let tup := degrees_get (Z.abs num) (0, 0) degrees in
  degrees_set (Z.abs num)
    (if num <? 0 then (tup.1, tup.2 + 1) else (tup.1 + 1, tup.2)) degrees.

Definition count_literal (degrees : degrees_dict) (lit : list ascii)
  : outcome degrees_dict :=
  num ← int lit;
  Ok (count_num degrees num).

(** [line.split()[:-1]] *)
Definition clause_tokens (line : list ascii) : list (list ascii) :=
  removelast (split line).

(** Whether the stripped line is a clause line. *)
Definition is_clause_line (line : list ascii) : bool :=
  match line with
  | [] => false
  | c :: _ => negb (Ascii.eqb c "p" || Ascii.eqb c "c")
  end.

Definition count_line (degrees : degrees_dict) (line : string)
  : outcome degrees_dict :=
  let line := strip (String.list_ascii_of_string line) in
  if is_clause_line line then for_each count_literal (clause_tokens line) degrees
  else Ok degrees.

(** The sort key [(t[0]+t[1], abs(t[0]-t[1]))] and the order of tuples. *)
Definition sort_key (t : Z * Z) : Z * Z := (t.1 + t.2, Z.abs (t.1 - t.2)).

Definition key_le (a b : Z * Z) : bool :=
  (a.1 <? b.1) || ((a.1 =? b.1) && (a.2 <=? b.2)).

(** [list.sort(key=...)] is stable: an element goes before the first one
    whose key is not below its own. *)
Fixpoint sort_insert (t : Z * Z) (l : list (Z * Z)) : list (Z * Z) :=
  match l with
  | [] => [t]
  | t' :: l' =>
      if key_le (sort_key t) (sort_key t') then t :: t' :: l'
      else t' :: sort_insert t l'
  end.

Fixpoint sort_degrees (l : list (Z * Z)) : list (Z * Z) :=
  match l with
  | [] => []
  | t :: l' => sort_insert t (sort_degrees l')
  end.

(** What the loop over [degree_list] feeds to the digest. *)
Fixpoint digest_input (degree_list : list (Z * Z)) : string :=
  match degree_list with
  | [] => EmptyString
  | t :: rest =>
      pretty (t.1 + t.2) +:+ " " +:+ pretty (Z.abs (t.1 - t.2)) +:+ " "
      +:+ digest_input rest
  end.

Inductive mode := INSERT | REPLACE.

Record result_record := {
  hashvalue : string;
  attributes : list (mode * string * string)
}.

(** The dict [degrees] after the loop over the lines. *)
Definition degrees_of (lines : list string) : outcome degrees_dict :=
  for_each count_line lines [].

(** [lines] is what iterating over [open_cnf_file(filename, 'rt')] gives. *)
Definition compute_degree_sequence_hash (hashvalue : string) (lines : list string)
  : outcome result_record :=
  degrees ← degrees_of lines;
  let degree_list := sort_degrees (map snd degrees) in
  Ok {| hashvalue := hashvalue;
        attributes :=
          [(REPLACE, "degree_sequence_hash", md5_hexdigest (digest_input degree_list))] |}.

(** ** Notions the properties are stated with *)

(** *** The tables of features *)

(** Modelled from the spec: the query compiler is not among the files at
    hand.  A filter [feature = v] on a feature kept in column [col] of table
    [t] is taken to be [SELECT hash FROM t WHERE col = v]. *)
Definition select_hash (col v : string) (t : table) : list string :=
  omap (λ r : row, r !! "hash")
       (List.filter (λ r : row, bool_decide (r !! col = Some v)) (tbl_rows t)).

(** Whether the query for [feature = v] on the table of a feature returns
    the identity [h]. *)
Definition holds_pair (h v : string) (t : table) : bool :=
  mem h (select_hash "value" v t).

(** The shape of the table [create_feature] makes for a feature without a
    default value. *)
Definition multivalued (t : table) : Prop :=
  tbl_columns t = [not_null "hash"; not_null "value"] ∧
  tbl_unique t = [["hash"; "value"]].

(** What [extract_infos] records for such a table: the feature is named
    after the table, its column is [value] and it has no default. *)
Definition dedicated (feature : string) (info : finfo) : Prop :=
  f_table info = feature ∧ f_column info = "value" ∧ f_default info = None.

(** The shape of a registry table: [init_database] creates it with the one
    column [hash UNIQUE NOT NULL], and [create_feature] adds columns that are
    NOT NULL with a default. *)
Definition registry (t : table) : Prop :=
  mem "hash" (column_names t) = true ∧
  tbl_unique t = [["hash"]] ∧
  forallb (λ c, implb (col_notnull c)
                  (String.eqb (col_name c) "hash" || bool_decide (is_Some (col_default c))))
          (tbl_columns t) = true.

Definition registryb (t : table) : bool :=
  mem "hash" (column_names t)
  && bool_decide (tbl_unique t = [["hash"]])
  && forallb (λ c, implb (col_notnull c)
                     (String.eqb (col_name c) "hash" || bool_decide (is_Some (col_default c))))
             (tbl_columns t).

(** The table after [REPLACE INTO t (hash, c) VALUES ("h", "d")]. *)
Definition overwrite_row (c d h : string) (t : table) : table :=
  let r := build_row t ["hash"; c] [h; d] in
  with_rows t (List.filter (λ r', negb (collides t r r')) (tbl_rows t) ++ [r]).

(** Every row of the identity [h] holds [d] in column [c]. *)
Definition holds_default (c d h : string) (t : table) : Prop :=
  ∀ r : row, r ∈ tbl_rows t → r !! "hash" = Some h → r !! c = Some d.

(** *** The identity registry *)

(** The scaffold of a context in a store, as far as the registry goes: the
    table [local], the registry table [features], whose rows respect its
    UNIQUE, and a trigger from the one to the other. *)
Definition scaffold (local features : string) (s : store) : bool :=
  negb (String.eqb local features)
  && existsb (λ trg, String.eqb (trg_on trg) local && String.eqb (trg_into trg) features)
             (triggers s)
  && match lookup_object local s, lookup_object features s with
     | Some (Table _), Some (Table tf) => registryb tf && nodupb (hashes_of tf)
     | _, _ => false
     end.

Definition occurrences (h : string) (l : list string) : nat :=
  length (List.filter (String.eqb h) l).

(** The identity-registry invariant of a context: every hash of [local] is
    the hash of exactly one row of [features]. *)
Definition registered (local features : string) (s : store) : bool :=
  match lookup_object local s, lookup_object features s with
  | Some (Table tl), Some (Table tf) =>
      forallb (λ h, (occurrences h (hashes_of tf) =? 1)%nat) (hashes_of tl)
  | _, _ => false
  end.

(** Scaffold and invariant together, spelled out. *)
Definition registry_state (local features : string) (s : store) : Prop :=
  local ≠ features ∧
  (∃ trg, trg ∈ triggers s ∧ trg_on trg = local ∧ trg_into trg = features) ∧
  ∃ tl tf,
    lookup_object local s = Some (Table tl) ∧
    lookup_object features s = Some (Table tf) ∧
    registry tf ∧ NoDup (hashes_of tf) ∧
    ∀ h, h ∈ hashes_of tl → h ∈ hashes_of tf.

(** While the triggers of one new row [new] of [local] run: the registry is
    sound, and every hash of [local] is registered, save perhaps that of the
    new row. *)
Definition running (local features : string) (new : row) (s : store) : Prop :=
  ∃ tl tf,
    lookup_object local s = Some (Table tl) ∧
    lookup_object features s = Some (Table tf) ∧
    registry tf ∧ NoDup (hashes_of tf) ∧
    ∀ h, h ∈ hashes_of tl → h ∈ hashes_of tf ∨ new !! "hash" = Some h.

(** The hash of the new row has reached the registry. *)
Definition reached (features : string) (new : row) (s : store) : Prop :=
  ∀ h, new !! "hash" = Some h →
       ∃ tf, lookup_object features s = Some (Table tf) ∧ h ∈ hashes_of tf.

(** [s'] has every object and every trigger of [s]. *)
Definition extends (s s' : store) : Prop :=
  (∀ name o, lookup_object name s = Some o → lookup_object name s' = Some o) ∧
  (∀ trg, trg ∈ triggers s → trg ∈ triggers s').

(** The statements [init_database] issues. *)
Definition scaffolding (q : stmt) : bool :=
  match q with
  | CreateTable false _ _ _ | CreateView _ _ _ | CreateTrigger _ _ _
  | InsertDistinctHash _ _ => true
  | _ => false
  end.

(** The store after a statement: one that raises leaves it as it was. *)
Definition after (q : stmt) (s : store) : store :=
  match exec q s with
  | Ok s' => s'
  | _ => s
  end.

(** A sequence of INSERT statements into one table, each with its conflict
    policy, its column list and its rows. *)
Definition insertions (tbl : string)
    (steps : list (conflict * option (list string) * list (list string)))
    (s : store) : store :=
  foldl (λ s step, after (InsertValues step.1.1 tbl step.1.2 step.2) s) s steps.

(** *** Discovery *)

(** The name a column gives its feature, and the entry [extract_infos]
    writes for it. *)
Definition feature_name (table : string) (col : column) : string :=
  if String.eqb (col_name col) "value" then table else col_name col.

Definition feature_entry (path : string) (all_virtual : bool) (table : string)
    (type : objtype) (col : column) : finfo :=
  {| f_table := table;
     f_column := col_name col;
     f_default := col_default col;
     f_virtual := match type with type_view => true | type_table => all_virtual end;
     f_context := context_from_name table;
     f_database := make_alnum_ul (basename path) |}.

(** Feature [fname] with entry [info] comes from a column, other than
    [hash], of a table or view of the store at [path]. *)
Definition produces (path : string) (all_virtual : bool) (s : store)
    (fname : string) (info : finfo) : Prop :=
  ∃ table type cols col,
    (table, type) ∈ sql_tables s ∧
    table_info table s = Ok cols ∧
    col ∈ cols ∧
    col_name col ≠ "hash" ∧
    fname = feature_name table col ∧
    info = feature_entry path all_virtual table type col.

Definition origin (stores : list (string * bool * store)) (fname : string)
    (info : finfo) : Prop :=
  ∃ path all_virtual s,
    (path, all_virtual, s) ∈ stores ∧ produces path all_virtual s fname info.

(** A store without its rows: what is left is its schema. *)
Definition forget_rows (s : store) : store :=
  {| objects := map (λ entry, (entry.1, match entry.2 with
                                         | Table t => Table (with_rows t [])
                                         | View cols src => View cols src
                                         end)) (objects s);
     triggers := triggers s |}.

Definition schemas (stores : list (string * bool * store))
  : list (string * bool * store) :=
  map (λ entry, (entry.1, forget_rows entry.2)) stores.

(** *** The fingerprint *)

(** The integers the loops read, in order: the parsed literals of all
    clause lines. *)
Fixpoint ints (tokens : list (list ascii)) : outcome (list Z) :=
  match tokens with
  | [] => Ok []
  | lit :: rest => num ← int lit; nums ← ints rest; Ok (num :: nums)
  end.

Definition literals_of_line (line : string) : outcome (list Z) :=
  let line := strip (String.list_ascii_of_string line) in
  if is_clause_line line then ints (clause_tokens line) else Ok [].

Fixpoint literals_of (lines : list string) : outcome (list Z) :=
  match lines with
  | [] => Ok []
  | line :: rest =>
      ls ← literals_of_line line; ls' ← literals_of rest; Ok (ls ++ ls')
  end.

(** A renaming of the variables that keeps the polarity of every literal. *)
Definition rename (sigma : Z → Z) (lit : Z) : Z :=
  if lit <? 0 then - sigma (Z.abs lit) else sigma (Z.abs lit).

(** The dict after the variables have been renamed. *)
Definition rename_keys (sigma : Z → Z) (d : degrees_dict) : degrees_dict :=
  map (λ kv, (sigma kv.1, kv.2)) d.

(** No key of the dict is negative (the keys are absolute values). *)
Definition nonneg_keys (d : degrees_dict) : Prop := Forall (λ kv, 0 ≤ kv.1) d.

(** The order of the sort keys, as a relation. *)
Definition key_order (a b : Z * Z) : Prop := key_le a b = true.

End Gbd.

(** ** Sample data *)

(** Letters and digits stay, every other character becomes an underscore. *)
Definition is_alnum (c : ascii) : bool :=
  let n := nat_of_ascii c in
  ((48 <=? n) && (n <=? 57) || (65 <=? n) && (n <=? 90) || (97 <=? n) && (n <=? 122))%nat.

Fixpoint alnum_ul (s : string) : string :=
  match s with
  | EmptyString => EmptyString
  | String c s' => String (if is_alnum c then c else "_"%char) (alnum_ul s')
  end.

(** Stand-ins for the outside functions, for the examples: every name lies
    in the context [cnf], whose tables carry no prefix; the value of a
    default is its text, and the digest is the text it is fed. *)
Definition sample_externals : Externals := {|
  eval_default := λ d, d;
  prepend_context := λ feature context,
    if String.eqb context "cnf" then feature else context +:+ "_" +:+ feature;
  context_from_name := λ _, "cnf";
  make_alnum_ul := alnum_ul;
  csv_reader := λ _, [["family"; "size"]; ["sat"; "12"]];
  md5_hexdigest := λ s, s;
  real_text := λ n, pretty n +:+ ".0";
  file_repr := λ path, "<_io.TextIOWrapper name='" +:+ path +:+ "' mode='r' encoding='utf-8'>"
|}.

Definition sample_empty : store := {| objects := []; triggers := [] |}.

(** What [extract_infos] has noted about a store in which only the context
    [cnf] has been seen. *)
Definition sample_dbinfo : dbinfo :=
  {| db_name := "test_db"; db_path := "test.db"; db_main := true;
     db_contexts := ["cnf"]; db_tables := []; db_views := [] |}.

Definition sample_local (rows : list row) : object :=
  Table {| tbl_columns := [not_null "hash"; not_null "value"];
           tbl_unique := [];
           tbl_rows := rows |}.

Definition sample_trigger : trigger :=
  {| trg_name := "features_dval"; trg_on := "local"; trg_into := "features" |}.

(** The store [init_database] makes of an empty one. *)
Definition sample_scaffold : store :=
  {| objects :=
       [("local", sample_local []);
        ("filename", View ["hash"; "value"] "cnf");
        ("hash", View ["hash"; "value"] "local");
        ("features",
         Table {| tbl_columns := [not_null "hash"];
                  tbl_unique := [["hash"]];
                  tbl_rows := [] |})];
     triggers := [sample_trigger] |}.

Definition sample_info (table column : string) (dflt : option string) : finfo :=
  {| f_table := table; f_column := column; f_default := dflt;
     f_virtual := false; f_context := "cnf"; f_database := "test_db" |}.

Definition sample_features : gmap string finfo :=
  {[ "local" := sample_info "local" "value" None;
     "tag" := sample_info "tag" "value" None;
     "family" := sample_info "features" "family" (Some "empty") ]}.

(** The table of the feature [tag], which has no default, and the registry
    table with the column of the feature [family], whose default is
    [empty]. *)
Definition sample_tag : table :=
  {| tbl_columns := [not_null "hash"; not_null "value"];
     tbl_unique := [["hash"; "value"]];
     tbl_rows := [{["hash" := "a"; "value" := "value1"]}] |}.

Definition sample_registry : table :=
  {| tbl_columns :=
       [not_null "hash";
        {| col_name := "family"; col_notnull := true; col_default := Some "empty" |}];
     tbl_unique := [["hash"]];
     tbl_rows := [{["hash" := "b"; "family" := "empty"]};
                  {["hash" := "a"; "family" := "sat"]}] |}.

Definition sample_main : store :=
  {| objects :=
       [("local", sample_local [{["hash" := "a"; "value" := "/bench/a.cnf"]};
                                {["hash" := "b"; "value" := "/bench/b.cnf"]}]);
        ("filename", View ["hash"; "value"] "cnf");
        ("hash", View ["hash"; "value"] "local");
        ("features", Table sample_registry);
        ("tag", Table sample_tag)];
     triggers := [sample_trigger] |}.

(** A federation of one store with two instances, the feature [tag] and the
    feature [family]. *)
Definition sample_db : Database :=
  {| database_infos := [("test_db", sample_dbinfo)];
     feature_infos := sample_features;
     connection := [sample_main] |}.

Definition table_of (name : string) (s : store) : table :=
  match lookup_object name s with
  | Some (Table t) => t
  | _ => {| tbl_columns := []; tbl_unique := []; tbl_rows := [] |}
  end.

(** Calls in a row; one that raises leaves the object as it was. *)
Definition calls (steps : list (Database → outcome Database)) (self : Database)
  : Database :=
  foldl (λ self step, match step self with Ok self' => self' | _ => self end) self steps.

(** The renaming that swaps the variables 1 and 2. *)
Definition sample_sigma (x : Z) : Z :=
  if x =? 1 then 2 else if x =? 2 then 1 else x.

(** A store file with a header and nothing else, an empty file and a table
    in text form. *)
Definition sample_files : gmap string (list Byte.byte) :=
  {[ "good.db" := signature ++ replicate 84 Byte.x00;
     "new.db" := [];
     "data.csv" := String.list_byte_of_string "family,size" ]}.

(** The shared in-memory store after a file [data.csv] has been imported. *)
Definition sample_inmemory : store :=
  {| objects :=
       [("cnf_data_csv",
         Table {| tbl_columns := [plain_column "hash"; plain_column "family"];
                  tbl_unique := [];
                  tbl_rows := [{["hash" := "a"; "family" := "sat"]}] |})];
     triggers := [] |}.

(** The stores of a federation as discovery sees them: a store file with
    the tables of two features, and the in-memory store. *)
Definition sample_stores : list (string * bool * store) :=
  [("bench/test.db", false,
    {| objects := [("features", Table sample_registry); ("tag", Table sample_tag)];
       triggers := [] |});
   ("file::memory:?cache=shared", true, sample_inmemory)].

Definition sample_start : Database :=
  {| database_infos := []; feature_infos := ∅; connection := [] |}.

(** An instance and the same instance with the variables 1 and 2 swapped. *)
Definition sample_lines : list string :=
  ["c an instance"; "p cnf 2 2"; "1 -2 0"; "2 0"].

Definition sample_lines_renamed : list string :=
  ["p cnf 2 2"; "  2 -1 0"; "1 0"].

(** ** Further notions for the fingerprint *)

(** Whether the loop over the lines reads literals from a line. *)
Definition clause_line (line : string) : bool :=
  is_clause_line (strip (String.list_ascii_of_string line)).

(** The tokens [int] is called on for a line. *)
Definition tokens_read (line : string) : list (list ascii) :=
  if clause_line line then clause_tokens (strip (String.list_ascii_of_string line))
  else [].

(** The literal with its polarity turned round when its variable is in [S]. *)
Definition flip (S : Z → bool) (lit : Z) : Z :=
  if S (Z.abs lit) then - lit else lit.

(** The dict with the two counts exchanged for the variables in [S]; the
    key 0 has no negative occurrence to exchange. *)
Definition flip_counts (S : Z → bool) (d : degrees_dict) : degrees_dict :=
  map (λ kv, (kv.1, if S kv.1 && negb (kv.1 =? 0) then (kv.2.2, kv.2.1) else kv.2)) d.

(** The loop body on the dict as a finite map. *)
Definition count_map (m : gmap Z (Z * Z)) (num : Z) : gmap Z (Z * Z) :=
  let tup := default (0, 0) (m !! Z.abs num) in
  <[Z.abs num := if num <? 0 then (tup.1, tup.2 + 1) else (tup.1 + 1, tup.2)]> m.

(** The literals a line contributes; none when a token is no integer. *)
Definition line_literals (line : string) : list Z :=
  match literals_of_line line with
  | Ok nums => nums
  | _ => []
  end.

(** ** [gbd_tool/db.py]: the other functions *)

(** What [check] writes with [eprint]: the cell found and the number the
    tool expects. *)
Inductive warning :=
| VersionWarning (found : option string) (expected : Z)
| HashVersionWarning (found : option string) (expected : Z).

(** How a call of [check] ends: it returns after some warnings, the SELECT
    raises, or [__version[0]] raises IndexError on an empty list. *)
Inductive checked :=
| Warned (warnings : list warning)
| CheckRaise (e : exn)
| CheckIndexError
| CheckUnmodelled.

(** [DROP TABLE IF EXISTS name] and [DROP TRIGGER IF EXISTS name]. *)
Inductive drop :=
| DropTableIfExists (name : string)
| DropTriggerIfExists (name : string).

(** A store without the table [name]: the engine drops the triggers on a
    table with it; a view that selects from it, and a trigger that inserts
    into it, stay. *)
Definition drop_object (name : string) (s : store) : store :=
  {| objects := List.filter (λ entry, negb (String.eqb entry.1 name)) (objects s);
     triggers := List.filter (λ trg, negb (String.eqb (trg_on trg) name)) (triggers s) |}.

Definition has_trigger (name : string) (s : store) : bool :=
  existsb (λ trg, String.eqb (trg_name trg) name) (triggers s).

Definition drop_trigger (name : string) (s : store) : store :=
  {| objects := objects s;
     triggers := List.filter (λ trg, negb (String.eqb (trg_name trg) name)) (triggers s) |}.

(** The name is looked up in the main store first, then in the attached
    ones; with IF EXISTS a name found nowhere is no error.  For a view the
    engine refuses (use DROP VIEW to delete view ...), for which
    [NotModifiable] stands here. *)
Fixpoint drop_table_conn (name : string) (conn : list store) : outcome (list store) :=
  match conn with
  | [] => Ok []
  | s :: rest =>
      match lookup_object name s with
      | Some (Table _) => Ok (drop_object name s :: rest)
      | Some (View _ _) => Raise (OperationalError NotModifiable)
      | None => rest' ← drop_table_conn name rest; Ok (s :: rest')
      end
  end.

Fixpoint drop_trigger_conn (name : string) (conn : list store) : list store :=
  match conn with
  | [] => []
  | s :: rest =>
      if has_trigger name s then drop_trigger name s :: rest
      else s :: drop_trigger_conn name rest
  end.

(** The tables of the engine itself ([sqlite_master] and the like) are not
    part of a store here, so a name with their prefix is left alone. *)
Definition exec_drop (q : drop) (conn : list store) : outcome (list store) :=
  match q with
  | DropTableIfExists name =>
      if like_prefix "sqlite_" name then Unmodelled else drop_table_conn name conn
  | DropTriggerIfExists name => Ok (drop_trigger_conn name conn)
  end.

(** [SELECT value FROM __meta WHERE name = 'table'] on a connection: the
    cells of the rows, NULL as [None]. *)
Definition select_meta (table : string) (conn : list store)
  : outcome (list (option string)) :=
  match find_store "__meta" conn with
  | None => Raise (OperationalError NoSuchTable)
  | Some s =>
      match lookup_object "__meta" s with
      | Some (Table t) =>
          if mem "value" (column_names t) && mem "name" (column_names t) then
            Ok (map (λ r : row, r !! "value")
                  (List.filter (λ r : row, bool_decide (r !! "name" = Some table))
                     (tbl_rows t)))
          else Raise (OperationalError NoSuchColumn)
      | _ => Unmodelled
      end
  end.

(** The columns [PRAGMA table_info] shows for an object, and its type in
    the catalogue. *)
Definition object_columns (o : object) : list column :=
  match o with
  | Table t => tbl_columns t
  | View cols _ => map plain_column cols
  end.

Definition objtype_of (o : object) : objtype :=
  match o with
  | Table _ => type_table
  | View _ _ => type_view
  end.

(** No two objects of a store have the same name. *)
Definition names_unique (s : store) : Prop := NoDup (objects s).*1.

(** No object of the store has a column called [name]. *)
Definition no_column (name : string) (s : store) : Prop :=
  ∀ table o, lookup_object table s = Some o → name ∉ map col_name (object_columns o).

Definition no_columnb (name : string) (s : store) : bool :=
  forallb (λ entry : string * object,
             negb (mem name (map col_name (object_columns entry.2))))
          (objects s).

(** Every row of the table [name] of [s] is a row of the table [name] of
    [s']. *)
Definition keeps_rows (name : string) (s s' : store) : Prop :=
  ∀ t, lookup_object name s = Some (Table t) →
       ∃ t', lookup_object name s' = Some (Table t') ∧
             ∀ r : row, r ∈ tbl_rows t → r ∈ tbl_rows t'.

(** The names of one type in a result of [sql_tables], in its order. *)
Definition names_of_type (type : objtype) (l : list (string * objtype)) : list string :=
  omap (λ entry : string * objtype,
          match entry.2, type with
          | type_table, type_table | type_view, type_view => Some entry.1
          | _, _ => None
          end) l.

(** The rows of the records of a file in text form under its header: a
    record without a cell is no row. *)
Definition record_rows (fieldnames : list string) (records : list (list string))
  : list row :=
  map (λ rec, list_to_map (zip fieldnames rec))
      (List.filter (λ rec : list string, match rec with [] => false | _ => true end)
         records).

(** The objects of a store other than those called [name]. *)
Definition objects_but (name : string) (s : store) : list (string * object) :=
  List.filter (λ entry, negb (String.eqb entry.1 name)) (objects s).

Section GbdMore.

Context {E : Externals}.

(** The name [extract_infos] files a store under, and whether one of the
    stores of a list is filed under the name [k]. *)
Definition dbname_of (path : string) : string := make_alnum_ul (basename path).

Definition filed_under (k : string) (stores : list (string * bool * store)) : bool :=
  existsb (λ entry, String.eqb (dbname_of entry.1.1) k) stores.

(** The names [init_database] may create objects under: four for every
    context, and a translator for every ordered pair of contexts. *)
Definition context_names (context : string) : list string :=
  [prepend_context "local" context; prepend_context "filename" context;
   prepend_context "hash" context; prepend_context "features" context].

Definition translator_name (c01 : string * string) : string :=
  "translator_" +:+ fst c01 +:+ "_" +:+ snd c01.

Definition scaffold_names (dbinfo : dbinfo) : list string :=
  flat_map context_names (db_contexts dbinfo)
  ++ map translator_name (permutations2 (db_contexts dbinfo)).

(** [s'] has the objects of [s], unchanged, and beyond them only objects
    under names of the list. *)
Definition adds (names : list string) (s s' : store) : Prop :=
  extends s s' ∧
  ∀ name o, lookup_object name s' = Some o →
    lookup_object name s = Some o ∨ (lookup_object name s = None ∧ name ∈ names).

(** Whether [init_database] has a statement to run for a context, for a
    pair of contexts, for an entry: whether one of the tests on the lists
    of the entry comes out true. *)
Definition pending_context (dbinfo : dbinfo) (context : string) : bool :=
  negb (mem (prepend_context "local" context) (db_tables dbinfo))
  || negb (mem (prepend_context "filename" context) (db_views dbinfo))
  || negb (mem (prepend_context "hash" context) (db_views dbinfo))
  || negb (mem (prepend_context "features" context) (db_tables dbinfo)).

Definition pending_translator (dbinfo : dbinfo) (c01 : string * string) : bool :=
  negb (mem (translator_name c01) (db_tables dbinfo)).

Definition pending (dbinfo : dbinfo) : bool :=
  existsb (pending_context dbinfo) (db_contexts dbinfo)
  || existsb (pending_translator dbinfo) (permutations2 (db_contexts dbinfo)).

(** *** [create] and [check] *)

(** The cell the engine makes of an integer literal in a column declared
    INT: the integer, kept as its decimal text, when it fits 64 bits, and a
    REAL otherwise. *)
Definition version_cell (n : Z) : string :=
  if int64 n then pretty n else real_text n.

(** [s] is the store [sqlite3.connect(path)] opens, the empty one when
    there is no file at [path]; the three statements run on one connection,
    which is committed after them. *)
Definition create (version hash_version : Z) (s : store) : outcome store :=
  (* CREATE TABLE __version (version INT, hash_version INT) *)
  s1 ← exec (CreateTable false "__version"
               [plain_column "version"; plain_column "hash_version"] []) s;
  (* INSERT INTO __version (version, hash_version) VALUES ({version}, {hash_version}) *)
  s2 ← exec (InsertValues Abort "__version" (Some ["version"; "hash_version"])
               [[version_cell version; version_cell hash_version]]) s1;
  (* CREATE TABLE IF NOT EXISTS __meta (name TEXT UNIQUE, value BLOB) *)
  exec (CreateTable true "__meta" [plain_column "name"; plain_column "value"]
          [["name"]]) s2.

(** [SELECT version, hash_version FROM __version] *)
Definition select_version (s : store)
  : outcome (list (option string * option string)) :=
  match lookup_object "__version" s with
  | None => Raise (OperationalError NoSuchTable)
  | Some (View _ _) => Unmodelled
  | Some (Table t) =>
      if mem "version" (column_names t) && mem "hash_version" (column_names t) then
        Ok (map (λ r : row, (r !! "version", r !! "hash_version")) (tbl_rows t))
      else Raise (OperationalError NoSuchColumn)
  end.

(** A cell that Python reads as [None] or as an [int]: NULL, or the decimal
    text of an integer of 64 bits.  The comparison of any other cell (a
    text, a REAL, which Python reads as a float) with a number is not
    followed. *)
Definition integer_cell (c : option string) : bool :=
  match c with
  | None => true
  | Some t =>
      match int (String.list_ascii_of_string t) with
      | Ok n => int64 n && String.eqb (pretty n) t
      | _ => false
      end
  end.

Definition check (version hash_version : Z) (s : store) : checked :=
  match select_version s with
  | Raise e => CheckRaise e
  | Unmodelled => CheckUnmodelled
  | Ok [] => CheckIndexError
  | Ok (first :: _) =>
      if negb (integer_cell first.1 && integer_cell first.2) then CheckUnmodelled
      else
        Warned
          ((if bool_decide (first.1 = Some (pretty version)) then []
            else [VersionWarning first.1 version]) ++
           (if bool_decide (first.2 = Some (pretty hash_version)) then []
            else [HashVersionWarning first.2 hash_version]))
  end.

(** *** The accessors *)

Definition ftable (feature : string) (self : Database) : outcome string :=
  info ← info_of feature self; Ok (f_table info).

Definition fcolumn (feature : string) (self : Database) : outcome string :=
  info ← info_of feature self; Ok (f_column info).

Definition fdefault (feature : string) (self : Database) : outcome (option string) :=
  info ← info_of feature self; Ok (f_default info).

Definition fvirtual (feature : string) (self : Database) : outcome bool :=
  info ← info_of feature self; Ok (f_virtual info).

Definition fcontext (feature : string) (self : Database) : outcome string :=
  info ← info_of feature self; Ok (f_context info).

Definition fdatabase (feature : string) (self : Database) : outcome string :=
  info ← info_of feature self; Ok (f_database info).

Definition databases (self : Database) : list string :=
  map fst (database_infos self).

(** The loop of [features] on one item of [feature_infos]; [database] is
    tested for its truth value first. *)
Definition listed (tables views : bool) (database : option string) (info : finfo)
  : bool :=
  if negb views && f_virtual info then false
  else if negb tables && negb (f_virtual info) then false
  else if truthy database && negb (bool_decide (database = Some (f_database info)))
  then false
  else true.

(** [feature_infos] is kept as a finite map, which does not record the
    order of insertion: the result is the list of the source up to its
    order. *)
Definition features (tables views : bool) (database : option string)
    (self : Database) : list string :=
  omap (λ item : string * finfo,
          if listed tables views database item.2 then Some item.1 else None)
       (map_to_list (feature_infos self)).

(** *** [delete_feature] *)

Definition execute_drop (q : drop) (self : Database) : outcome Database :=
  conn ← exec_drop q (connection self);
  Ok (with_connection self conn).

Definition delete_feature (name : string) (self : Database) : outcome Database :=
  info ← info_of name self;
  if String.eqb (f_column info) "value" then
    (* DROP TABLE IF EXISTS {name} *)
    self1 ← execute_drop (DropTableIfExists name) self;
    (* DROP TRIGGER IF EXISTS {name}_dval *)
    execute_drop (DropTriggerIfExists (name +:+ "_dval")) self1
  else Raise (DatabaseException "Not Implemented").

(** *** The records of [__meta] *)

Section Meta.

(** The values a record holds and [json.dumps] on a dict, its items in the
    order of insertion. *)
Context {V : Type} (json_dumps : list (string * V) → string).

(** [query] returns a list of rows, and [json.loads] takes a text: of the
    empty list [blob or "{}"] makes the text of the empty dict, any other
    list is a TypeError. *)
Definition meta_record (table : string) (self : Database)
  : outcome (list (string * V)) :=
  if negb (sq_free table) then Unmodelled
  else
    (* SELECT value FROM __meta WHERE name = '{table}' *)
    blob ← select_meta table (connection self);
    match blob with
    | [] => Ok []
    | _ :: _ => Raise TypeError
    end.

(** [REPLACE INTO __meta (name, value) VALUES ('{table}', '{value}')] *)
Definition replace_meta (table value : string) (self : Database) : outcome Database :=
  if negb (sq_free table && sq_free value) then Unmodelled
  else execute (InsertValues Replace "__meta" (Some ["name"; "value"])
                  [[table; value]]) self.

(** [values.pop(meta_feature)] *)
Definition pop (key : string) (values : list (string * V)) : list (string * V) :=
  List.filter (λ item, negb (String.eqb item.1 key)) values.

Definition meta_clear (table : string) (meta_feature : option string)
    (self : Database) : outcome Database :=
  match meta_feature with
  | Some key =>
      if truthy meta_feature then
        values ← meta_record table self;
        let values := if mem key (map fst values) then pop key values else values in
        replace_meta table (json_dumps values) self
      else replace_meta table EmptyString self
  | None => replace_meta table EmptyString self
  end.

Definition meta_set (table meta_feature : string) (value : V) (self : Database)
  : outcome Database :=
  values ← meta_record table self;
  let values := assoc_set meta_feature value values in
  replace_meta table (json_dumps values) self.

End Meta.

End GbdMore.

(** ** Further sample data *)

(** The stand-ins of [sample_externals] with a reader that returns the
    given records, whatever the file holds. *)
Definition sample_with_reader (records : list (list string)) : Externals := {|
  eval_default := λ d, d;
  prepend_context := λ feature context,
    if String.eqb context "cnf" then feature else context +:+ "_" +:+ feature;
  context_from_name := λ _, "cnf";
  make_alnum_ul := alnum_ul;
  csv_reader := λ _, records;
  md5_hexdigest := λ s, s;
  real_text := λ n, pretty n +:+ ".0";
  file_repr := λ path, "<_io.TextIOWrapper name='" +:+ path +:+ "' mode='r' encoding='utf-8'>"
|}.

(** A header with the field [hash], two records and, between them, a record
    without a cell. *)
Definition sample_externals_csv : Externals :=
  sample_with_reader [["hash"; "family"]; ["a"; "sat"]; []; ["b"; "unsat"]].

(** A store with the tables of two features and no view. *)
Definition sample_plain : store :=
  {| objects := [("features", Table sample_registry); ("tag", Table sample_tag)];
     triggers := [] |}.

Definition sample_plain_db : Database :=
  {| database_infos := [("test_db", sample_dbinfo)];
     feature_infos := sample_features;
     connection := [sample_plain] |}.

(** A registry table that keeps two features, and a federation over it. *)
Definition sample_wide : table :=
  {| tbl_columns :=
       [not_null "hash";
        {| col_name := "family"; col_notnull := true; col_default := Some "empty" |};
        {| col_name := "author"; col_notnull := true; col_default := Some "unknown" |}];
     tbl_unique := [["hash"]];
     tbl_rows := [{["hash" := "a"; "family" := "sat"; "author" := "biere"]}] |}.

Definition sample_wide_db : Database :=
  {| database_infos := [("test_db", sample_dbinfo)];
     feature_infos :=
       {[ "family" := sample_info "features" "family" (Some "empty");
          "author" := sample_info "features" "author" (Some "unknown") ]};
     connection := [{| objects := [("features", Table sample_wide)]; triggers := [] |}] |}.

(** The store [create] makes for version 0 and hash version 3. *)
Definition sample_created : store :=
  {| objects :=
       [("__version",
         Table {| tbl_columns := [plain_column "version"; plain_column "hash_version"];
                  tbl_unique := [];
                  tbl_rows := [{["version" := "0"; "hash_version" := "3"]}] |});
        ("__meta",
         Table {| tbl_columns := [plain_column "name"; plain_column "value"];
                  tbl_unique := [["name"]];
                  tbl_rows := [] |})];
     triggers := [] |}.

Definition sample_created_db : Database :=
  {| database_infos := []; feature_infos := ∅; connection := [sample_created] |}.

(** A stand-in for [json.dumps] on records of texts. *)
Definition sample_dumps (values : list (string * string)) : string :=
  "{" +:+ foldr (λ item rest, item.1 +:+ ": " +:+ item.2 +:+ "; " +:+ rest)
                EmptyString values +:+ "}".

(** What discovery notes about [sample_plain]. *)
Definition sample_dbinfo_plain : dbinfo :=
  {| db_name := "test_db"; db_path := "bench/test.db"; db_main := true;
     db_contexts := ["cnf"]; db_tables := ["features"; "tag"]; db_views := [] |}.

(** An entry with two contexts. *)
Definition sample_dbinfo2 : dbinfo :=
  {| db_name := "test_db"; db_path := "test.db"; db_main := true;
     db_contexts := ["cnf"; "opb"]; db_tables := []; db_views := [] |}.
(** ** Properties *)

Section Properties.

Context {E : Externals}.

(** *** Association lists and the catalogue *)

Lemma assoc_set_eq {A} k (a : A) l : assoc k (assoc_set k a l) = Some a.
Proof.
  induction l as [|[k' a'] l IH]; simpl.
  - by rewrite String.eqb_refl.
  - destruct (String.eqb_spec k' k); simpl.
    + by rewrite String.eqb_refl.
    + destruct (String.eqb_spec k' k); [done|]. exact IH.
Qed.

Lemma assoc_set_ne {A} k k' (a : A) l :
  k ≠ k' → assoc k' (assoc_set k a l) = assoc k' l.
Proof.
  intros Hne. induction l as [|[k0 a0] l IH]; simpl.
  - destruct (String.eqb_spec k k'); [done|done].
  - destruct (String.eqb_spec k0 k) as [->|Hk]; simpl.
    + destruct (String.eqb_spec k k'); [done|done].
    + destruct (String.eqb_spec k0 k'); [done|exact IH].
Qed.

Lemma lookup_set_object_eq name o s :
  lookup_object name (set_object name o s) = Some o.
Proof. apply assoc_set_eq. Qed.

Lemma lookup_set_object_ne name name' o s :
  name ≠ name' → lookup_object name' (set_object name o s) = lookup_object name' s.
Proof. apply assoc_set_ne. Qed.


Lemma mem_spec x l : mem x l = true ↔ x ∈ l.
Proof.
  unfold mem. rewrite existsb_exists. split.
  - intros (y & Hy & Heq). apply String.eqb_eq in Heq as ->.
    by apply list_elem_of_In.
  - intros Hx. exists x. split; [by apply list_elem_of_In|apply String.eqb_refl].
Qed.

Lemma mem_false x l : mem x l = false ↔ x ∉ l.
Proof.
  rewrite <- mem_spec. destruct (mem x l); split; congruence.
Qed.

(** *** Store-file validation *)

(** C8. [is_database] accepts exactly the structurally valid store files: a
    file of zero bytes, or a file of at least 100 bytes whose first 16 bytes
    are the format signature; anything else that exists on disk (among it
    every non-empty file below 100 bytes) is rejected, and [__init__] then
    imports it as a table instead of attaching it. *)
Theorem is_database_valid_store (fs : files) (db : string) :
  (is_database fs db = true ↔
     ∃ content, fs !! db = Some content ∧
       (length content = 0%nat ∨
        (100 ≤ length content)%nat ∧ take 16 content = signature)) ∧
  (∀ content, fs !! db = Some content →
     (0 < length content < 100)%nat → is_database fs db = false) ∧
  (startup_action fs db = ImportCsv ↔
     is_Some (fs !! db) ∧ is_database fs db = false) ∧
  (startup_action fs db = OpenStore ↔ is_database fs db = true).
Proof.
  assert (Hdb : ∀ content, fs !! db = Some content →
            is_database fs db = true ↔
            (length content = 0%nat ∨
             (100 ≤ length content)%nat ∧ take 16 content = signature)).
  { intros content Hc. unfold is_database. rewrite Hc. cbv zeta.
    destruct (Nat.eqb_spec (length content) 0) as [H0|H0].
    { split; [by left|done]. }
    destruct (Nat.ltb_spec (length content) 100) as [Hlt|Hge].
    { split; [done|]. intros [?|[? _]]; lia. }
    rewrite take_take, Nat.min_l by lia.
    rewrite bool_decide_eq_true. split; [by right|]. intros [?|[_ ?]]; [lia|done]. }
  repeat split.
  - intros Htrue. destruct (fs !! db) as [content|] eqn:Hc.
    + exists content. split; [done|]. by apply Hdb.
    + unfold is_database in Htrue. by rewrite Hc in Htrue.
  - intros (content & Hc & Hvalid). by apply (Hdb content).
  - intros content Hc Hlen. apply not_true_is_false. intros Hd.
    apply (Hdb content Hc) in Hd as [?|[? _]]; lia.
  - unfold startup_action in H. destruct (fs !! db); [eauto|].
    by rewrite bool_decide_eq_false_2 in H by (by intros [? ?]).
  - unfold startup_action in H. destruct (bool_decide _); [|done].
    simpl in H. by destruct (is_database fs db).
  - intros [Hfile Hd]. unfold startup_action.
    by rewrite bool_decide_eq_true_2, Hd.
  - unfold startup_action. destruct (bool_decide _); [|done].
    simpl. by destruct (is_database fs db).
  - intros Hd. unfold startup_action. rewrite Hd.
    rewrite bool_decide_eq_true_2; [done|].
    unfold is_database in Hd. destruct (fs !! db); [eauto|done].
Qed.

(** *** Statements on a connection *)

Lemma exec_resolved_found q conn s :
  find_store (target q) conn = Some s →
  exec_resolved q conn = s' ← exec q s; Ok (put_store (target q) s' conn).
Proof.
  induction conn as [|s0 rest IH]; simpl; [done|].
  destruct (lookup_object (target q) s0) eqn:Hl.
  - intros [= ->]. done.
  - intros Hf. rewrite (IH Hf). by destruct (exec q s).
Qed.

Lemma find_put_store name s' conn :
  is_Some (find_store name conn) →
  is_Some (lookup_object name s') →
  find_store name (put_store name s' conn) = Some s'.
Proof.
  intros Hf [o Ho]. induction conn as [|s0 rest IH]; simpl in *.
  - by destruct Hf.
  - destruct (lookup_object name s0) eqn:Hl; simpl.
    + by rewrite Ho.
    + rewrite Hl. by apply IH.
Qed.

Lemma execute_found q self s :
  parses q = true → creates q = false →
  find_store (target q) (connection self) = Some s →
  execute q self =
    s' ← exec q s; Ok (with_connection self (put_store (target q) s' (connection self))).
Proof.
  intros Hp Hc Hf. unfold execute, exec_conn. rewrite Hp, Hc. simpl.
  rewrite (exec_resolved_found _ _ _ Hf). by destruct (exec q s).
Qed.

Lemma insert_found feature value hashes force self info s :
  feature_infos self !! feature = Some info →
  forallb dq_free (value :: hashes) = true →
  hashes ≠ [] →
  find_store (f_table info) (connection self) = Some s →
  insert feature value hashes force self =
    s' ← insert_values (insert_method force info) (f_table info)
          (Some ["hash"; f_column info]) (map (λ hash, [hash; value]) hashes) s;
    Ok (with_connection self (put_store (f_table info) s' (connection self))).
Proof.
  intros Hi Hq Hne Hf. unfold insert, info_of. rewrite Hi. simpl.
  simpl in Hq. apply andb_true_iff in Hq as [Hv Hh].
  assert (Hguard : forallb (λ hash, dq_free hash && dq_free value) hashes = true).
  { rewrite forallb_forall in Hh. apply forallb_forall. intros h Hin.
    by rewrite (Hh h Hin), Hv. }
  rewrite Hguard. simpl.
  rewrite (execute_found _ _ s); [|by destruct hashes|done|done].
  simpl. by destruct hashes.
Qed.

Lemma insert_values_no_triggers c tbl cols rows s t :
  lookup_object tbl s = Some (Table t) →
  triggers_on tbl s = [] →
  insert_values c tbl cols rows s = insert_rows c tbl cols rows s.
Proof.
  intros Hl Htr. unfold insert_values, get_table. rewrite Hl, Htr. done.
Qed.

Lemma insert_values_Ok c tbl cols rows s s' :
  insert_values c tbl cols rows s = Ok s' → insert_rows c tbl cols rows s = Ok s'.
Proof.
  unfold insert_values. destruct (get_table tbl s) as [t| |]; simpl; [|done|done].
  by destruct (check_triggers s t (triggers_on tbl s)).
Qed.

(** *** Rows *)

Lemma defaults_no_default t :
  Forall (λ c, col_default c = None) (tbl_columns t) → defaults t = ∅.
Proof.
  unfold defaults. intros H. induction H as [|c l Hc _ IH]; [done|].
  simpl. by rewrite Hc.
Qed.

Lemma build_row_pair t h v :
  Forall (λ c, col_default c = None) (tbl_columns t) →
  build_row t ["hash"; "value"] [h; v] = {["hash" := h; "value" := v]}.
Proof.
  intros H. unfold build_row. rewrite (defaults_no_default _ H).
  simpl. rewrite (right_id ∅ (∪)). by rewrite insert_empty.
Qed.

Lemma elem_of_select_hash col v t h :
  h ∈ select_hash col v t ↔
  ∃ r : row, r ∈ tbl_rows t ∧ r !! col = Some v ∧ r !! "hash" = Some h.
Proof.
  unfold select_hash. rewrite list_elem_of_omap. split.
  - intros (r & Hr & Hh). apply list_elem_of_In, filter_In in Hr as [Hr Hv].
    apply bool_decide_eq_true in Hv. exists r. by rewrite list_elem_of_In.
  - intros (r & Hr & Hv & Hh). exists r. split; [|done].
    apply list_elem_of_In, filter_In. split; [by apply list_elem_of_In|].
    by apply bool_decide_eq_true.
Qed.

(** *** Tables of features without a default *)

Lemma pair_row_lookup h v :
  ({["hash" := h; "value" := v]} : row) !! "hash" = Some h ∧
  ({["hash" := h; "value" := v]} : row) !! "value" = Some v.
Proof.
  split.
  - apply lookup_insert_eq.
  - rewrite lookup_insert_ne by done. apply lookup_singleton_eq.
Qed.

Lemma collides_pair t h v (r' : row) :
  multivalued t →
  collides t {["hash" := h; "value" := v]} r' = true ↔
  r' !! "hash" = Some h ∧ r' !! "value" = Some v.
Proof.
  intros [_ Hu]. unfold collides. rewrite Hu. simpl.
  destruct (pair_row_lookup h v) as [-> ->].
  rewrite orb_false_r, andb_true_r, andb_true_iff.
  destruct (r' !! "hash") as [a|], (r' !! "value") as [b|];
    rewrite ?String.eqb_eq; split; intros [? ?]; simplify_eq; done.
Qed.

Lemma existsb_collides_pair t h v :
  multivalued t →
  existsb (collides t {["hash" := h; "value" := v]}) (tbl_rows t) = holds_pair h v t.
Proof.
  intros Hm. apply Bool.eq_iff_eq_true. unfold holds_pair.
  rewrite existsb_exists, mem_spec, elem_of_select_hash. split.
  - intros (r & Hr & Hc). apply (collides_pair _ _ _ _ Hm) in Hc as [? ?].
    exists r. by rewrite list_elem_of_In.
  - intros (r & Hr & Hv & Hh). exists r. split; [by apply list_elem_of_In|].
    by apply (collides_pair _ _ _ _ Hm).
Qed.

Lemma multivalued_no_default t :
  multivalued t → Forall (λ c, col_default c = None) (tbl_columns t).
Proof. intros [-> _]. repeat constructor. Qed.

(** A plain [INSERT INTO name (hash, value) VALUES ("h", "v")] on such a
    table, with no trigger on it. *)
Lemma insert_row_multivalued s name t h v :
  lookup_object name s = Some (Table t) →
  multivalued t →
  triggers_on name s = [] →
  insert_row Abort name (Some ["hash"; "value"]) [h; v] s =
    if holds_pair h v t then Raise (IntegrityError UniqueFailed)
    else Ok (set_object name
               (Table (with_rows t (tbl_rows t ++ [{["hash" := h; "value" := v]}]))) s).
Proof.
  intros Hl Hm Ht. unfold insert_row, get_table. rewrite Hl. simpl.
  rewrite (build_row_pair _ _ _ (multivalued_no_default _ Hm)).
  pose proof Hm as [Hc Hu]. unfold column_names. rewrite Hc. simpl.
  unfold place_row, notnull_ok. rewrite Hc. simpl.
  destruct (pair_row_lookup h v) as [-> ->]. simpl.
  rewrite (existsb_collides_pair _ _ _ Hm).
  destruct (holds_pair h v t); [done|]. by rewrite Ht.
Qed.

Lemma holds_pair_app t h v (r : row) :
  holds_pair h v (with_rows t (tbl_rows t ++ [r])) =
  holds_pair h v t
  || (bool_decide (r !! "value" = Some v) && bool_decide (r !! "hash" = Some h)).
Proof.
  apply Bool.eq_iff_eq_true. unfold holds_pair.
  rewrite orb_true_iff, andb_true_iff, !bool_decide_eq_true, !mem_spec,
    !elem_of_select_hash.
  simpl. split.
  - intros (r' & Hr & Hv & Hh). apply elem_of_app in Hr as [Hr|Hr]; [left; eauto|].
    apply list_elem_of_singleton in Hr as ->. by right.
  - intros [(r' & Hr & Hv & Hh)|[Hv Hh]].
    + exists r'. rewrite elem_of_app. eauto.
    + exists r. rewrite elem_of_app, list_elem_of_singleton. eauto.
Qed.

(** What a single plain insert does to the table of a feature without a
    default. *)
Lemma insert_dedicated self feature h v force info s t :
  feature_infos self !! feature = Some info →
  dedicated feature info →
  find_store feature (connection self) = Some s →
  lookup_object feature s = Some (Table t) →
  multivalued t →
  triggers_on feature s = [] →
  dq_free h = true → dq_free v = true →
  insert feature v [h] force self =
    if holds_pair h v t then Raise (IntegrityError UniqueFailed)
    else Ok (with_connection self
               (put_store feature
                  (set_object feature
                     (Table (with_rows t (tbl_rows t ++ [{["hash" := h; "value" := v]}]))) s)
                  (connection self))).
Proof.
  intros Hi (Ht & Hc & Hd) Hf Hl Hm Htr Hh Hv.
  rewrite (insert_found _ _ _ _ _ info s); [|done|simpl; by rewrite Hv, Hh|done|by rewrite Ht].
  unfold insert_method. rewrite Hd, andb_false_r, Ht, Hc.
  rewrite (insert_values_no_triggers _ _ _ _ _ t) by done. simpl.
  rewrite (insert_row_multivalued _ _ t) by done.
  by destruct (holds_pair h v t).
Qed.

(** C2. On a feature created without a default value (a two-column table
    with UNIQUE(hash, value)), a plain insert of a pair that is already in
    the table raises the constraint error, and the insert of another value
    for the same identity succeeds: the table then holds both pairs, and
    the query by either value returns the identity. *)
Theorem multivalued_insert (self : Database) (feature h v1 v2 : string)
    (info : finfo) (s : store) (t : table) :
  feature_infos self !! feature = Some info →
  dedicated feature info →
  find_store feature (connection self) = Some s →
  lookup_object feature s = Some (Table t) →
  multivalued t →
  triggers_on feature s = [] →
  dq_free h = true → dq_free v1 = true → dq_free v2 = true →
  holds_pair h v1 t = true →
  holds_pair h v2 t = false →
  insert feature v1 [h] false self = Raise (IntegrityError UniqueFailed) ∧
  ∃ self' s' t',
    insert feature v2 [h] false self = Ok self' ∧
    find_store feature (connection self') = Some s' ∧
    lookup_object feature s' = Some (Table t') ∧
    multivalued t' ∧
    tbl_rows t' = tbl_rows t ++ [{["hash" := h; "value" := v2]}] ∧
    holds_pair h v1 t' = true ∧
    holds_pair h v2 t' = true.
Proof.
  intros Hi Hd Hf Hl Hm Htr Hh Hv1 Hv2 H1 H2. split.
  - rewrite (insert_dedicated _ _ _ _ _ info s t) by done. by rewrite H1.
  - rewrite (insert_dedicated _ _ _ _ _ info s t) by done. rewrite H2.
    eexists _, _, _. split; [done|]. split.
    { simpl. apply find_put_store; [by rewrite Hf|].
      rewrite lookup_set_object_eq. eauto. }
    split; [apply lookup_set_object_eq|].
    split; [exact Hm|]. split; [done|].
    rewrite !holds_pair_app, H1, H2. simpl.
    destruct (pair_row_lookup h v2) as [-> ->].
    by rewrite !bool_decide_eq_true_2.
Qed.

(** C10. On a feature whose default is null, [insert] with [force=True] is
    [insert] with [force=False]: REPLACE is used only when force is asked
    for and the default is not null, and a forced insert of a pair that is
    already in the table of a feature without a default still raises the
    constraint error. *)
Theorem forced_insert_without_default (self : Database) (feature : string)
    (info : finfo) :
  feature_infos self !! feature = Some info →
  f_default info = None →
  (∀ value hashes force,
     insert feature value hashes force self = insert feature value hashes false self) ∧
  (∀ force info', insert_method force info' = Replace →
     force = true ∧ f_default info' ≠ None) ∧
  (∀ h v s t,
     dedicated feature info →
     find_store feature (connection self) = Some s →
     lookup_object feature s = Some (Table t) →
     multivalued t →
     triggers_on feature s = [] →
     dq_free h = true → dq_free v = true →
     holds_pair h v t = true →
     insert feature v [h] true self = Raise (IntegrityError UniqueFailed)).
Proof.
  intros Hi Hd. split; [|split].
  - intros value hashes force. unfold insert, info_of. rewrite Hi. simpl.
    unfold insert_method. by rewrite Hd, andb_false_r.
  - intros force info'. unfold insert_method.
    destruct force; [|done]. destruct (f_default info'); [done|]. done.
  - intros h v s t Hded Hf Hl Hm Htr Hh Hv Hp.
    rewrite (insert_dedicated _ _ _ _ _ info s t) by done. by rewrite Hp.
Qed.

(** *** [create_feature] *)

Lemma exec_resolved_Ok q conn conn' :
  exec_resolved q conn = Ok conn' →
  ∃ s s', find_store (target q) conn = Some s ∧ exec q s = Ok s' ∧
          conn' = put_store (target q) s' conn.
Proof.
  revert conn'. induction conn as [|s0 rest IH]; intros conn'; simpl; [done|].
  destruct (lookup_object (target q) s0) eqn:Hl.
  - destruct (exec q s0) as [s'| |] eqn:He; simpl; [|done|done].
    intros [= <-]. by exists s0, s'.
  - destruct (exec_resolved q rest) as [rest'| |]; simpl; [|done|done].
    intros [= <-]. destruct (IH rest' eq_refl) as (s & s' & Hf & He & ->).
    by exists s, s'.
Qed.

Lemma mem_app x l1 l2 : mem x (l1 ++ l2) = mem x l1 || mem x l2.
Proof. unfold mem. apply existsb_app. Qed.

Lemma case_variant_refl a : case_variant a a = false.
Proof. unfold case_variant. by rewrite (String.eqb_refl a), andb_false_r. Qed.

Lemma store_clash_set_object name o s :
  store_clash name s = false → store_clash name (set_object name o s) = false.
Proof.
  unfold store_clash, set_object. cbn [objects].
  induction (objects s) as [|[k a] l IH]; cbn [assoc_set existsb fst].
  - intros _. by rewrite case_variant_refl.
  - intros [Hk Hl]%orb_false_iff. destruct (String.eqb k name); cbn [existsb fst].
    + by rewrite case_variant_refl, Hl.
    + by rewrite Hk, IH.
Qed.

(** C3 (amended). [create_feature] is idempotent for the shape without a
    default value: a second call with the same name after a successful
    first one raises nothing and leaves the object as it is.  With a
    default value the second call raises the engine's duplicate-column
    error. *)
Theorem create_feature_again (self self1 : Database) (name : string)
    (default_value : option string) :
  create_feature name default_value self = Ok self1 →
  create_feature name default_value self1 =
    match default_value with
    | None => Ok self1
    | Some _ => Raise (OperationalError DuplicateColumn)
    end.
Proof.
  destruct default_value as [dv|]; unfold create_feature.
  - set (features := prepend_context "features" (context_from_name name)).
    destruct (negb (plain_name name && plain_default dv)); [done|].
    destruct (column_clash name features (connection self)) eqn:Hclash; [done|].
    unfold execute, exec_conn. cbn [parses creates negb].
    set (q := AlterTableAdd features _).
    destruct (exec_resolved q (connection self)) as [conn'| |] eqn:He;
      cbn [mbind outcome_bind]; [|done|done].
    intros [= <-]. cbn [connection with_connection].
    apply exec_resolved_Ok in He as (s & s' & Hf & He & ->).
    change (target q) with features in *.
    assert (Hs' : ∃ t, lookup_object features s' = Some (Table t) ∧
                       mem name (column_names t) = true ∧
                       existsb (case_variant name) (column_names t) = false).
    { unfold column_clash in Hclash. rewrite Hf in Hclash.
      subst q. cbn [exec col_name col_default] in He.
      destruct (lookup_object features s) as [[t|]|]; [|done|done].
      destruct (mem name (column_names t)); [done|]. injection He as <-.
      eexists. split; [apply lookup_set_object_eq|].
      unfold column_names. cbn [tbl_columns]. rewrite map_app.
      split.
      - rewrite mem_app. cbn [map col_name mem existsb].
        by rewrite String.eqb_refl, orb_true_r.
      - rewrite existsb_app. cbn [map col_name existsb].
        fold (column_names t). by rewrite Hclash, case_variant_refl. }
    destruct Hs' as (t' & Hl' & Hmem & Hfree).
    assert (Hf' : find_store features (put_store features s' (connection self)) = Some s').
    { apply find_put_store; [by rewrite Hf|]. by rewrite Hl'. }
    unfold column_clash. rewrite Hf', Hl', Hfree.
    rewrite (exec_resolved_found q _ s') by done.
    subst q. cbn [exec col_name]. by rewrite Hl', Hmem.
  - destruct (negb (table_name name)); [done|].
    destruct (main_clash name (connection self)) eqn:Hclash; [done|].
    unfold execute, exec_conn. cbn [parses creates negb].
    destruct (connection self) as [|s rest] eqn:Hc; [done|].
    cbn [main_clash] in Hclash. cbn [exec].
    destruct (lookup_object name s) as [o|] eqn:Hl; cbn [mbind outcome_bind].
    + intros [= <-]. cbn [connection with_connection main_clash exec].
      by rewrite Hclash, Hl.
    + intros [= <-]. cbn [connection with_connection main_clash exec].
      rewrite store_clash_set_object by done.
      by rewrite lookup_set_object_eq.
Qed.

(** *** Registry tables *)

Lemma defaults_is_Some t c :
  c ∈ tbl_columns t → is_Some (col_default c) → is_Some (defaults t !! col_name c).
Proof.
  intros Hc [d Hd]. unfold defaults.
  destruct (list_to_map _ !! col_name c) eqn:Hl; [eauto|].
  apply not_elem_of_list_to_map in Hl. exfalso. apply Hl.
  apply list_elem_of_fmap. exists (col_name c, eval_default d). split; [done|].
  apply list_elem_of_omap. exists c. split; [done|]. by rewrite Hd.
Qed.

Lemma registry_notnull_ok t (r : row) h :
  registry t → r !! "hash" = Some h →
  (∀ k, is_Some (defaults t !! k) → is_Some (r !! k)) →
  notnull_ok t r = true.
Proof.
  intros (_ & _ & Hcols) Hh Hsub. unfold notnull_ok.
  apply forallb_forall. intros c Hc.
  rewrite forallb_forall in Hcols. specialize (Hcols c Hc).
  destruct (col_notnull c); [|done]. simpl in *.
  apply bool_decide_eq_true.
  apply orb_true_iff in Hcols as [Hn|Hd].
  - apply String.eqb_eq in Hn. rewrite Hn. eauto.
  - apply bool_decide_eq_true in Hd. apply Hsub.
    apply defaults_is_Some; [by apply list_elem_of_In|done].
Qed.

Lemma registry_collides t (r r' : row) h :
  registry t → r !! "hash" = Some h →
  collides t r r' = bool_decide (r' !! "hash" = Some h).
Proof.
  intros (_ & Hu & _) Hh. unfold collides. rewrite Hu. simpl. rewrite Hh.
  rewrite orb_false_r, andb_true_r.
  destruct (r' !! "hash") as [a|].
  - destruct (String.eqb_spec h a) as [->|Hne].
    + by rewrite bool_decide_eq_true_2.
    + rewrite bool_decide_eq_false_2; [done|]. congruence.
  - by rewrite bool_decide_eq_false_2.
Qed.

Lemma existsb_collides_registry t (r : row) h :
  registry t → r !! "hash" = Some h →
  existsb (collides t r) (tbl_rows t) = mem h (hashes_of t).
Proof.
  intros Hreg Hh. apply Bool.eq_iff_eq_true.
  rewrite existsb_exists, mem_spec. unfold hashes_of. rewrite list_elem_of_omap.
  split.
  - intros (r' & Hr' & Hc). rewrite (registry_collides _ _ _ h) in Hc by done.
    apply bool_decide_eq_true in Hc. exists r'. by rewrite list_elem_of_In.
  - intros (r' & Hr' & Hc). exists r'. split; [by apply list_elem_of_In|].
    rewrite (registry_collides _ _ _ h) by done. by apply bool_decide_eq_true.
Qed.

Lemma filter_none {A} (f : A → bool) l :
  existsb f l = false → List.filter (λ x, negb (f x)) l = l.
Proof.
  induction l as [|x l IH]; simpl; [done|].
  intros [Hx Hl]%orb_false_iff. rewrite Hx. simpl. by rewrite IH.
Qed.

(** The rows after [REPLACE] of one row [r]. *)

Lemma place_row_Replace t r :
  notnull_ok t r = true →
  place_row Replace t r =
    Placed (with_rows t (List.filter (λ r', negb (collides t r r')) (tbl_rows t) ++ [r])).
Proof.
  intros Hn. unfold place_row. rewrite Hn. simpl.
  destruct (existsb (collides t r) (tbl_rows t)) eqn:He; [done|].
  by rewrite filter_none.
Qed.

Lemma assoc_set_twice {A} k (a b : A) l :
  assoc_set k a (assoc_set k b l) = assoc_set k a l.
Proof.
  induction l as [|[k' c] l IH]; simpl.
  - by rewrite String.eqb_refl.
  - destruct (String.eqb_spec k' k) as [->|Hne]; simpl.
    + by rewrite String.eqb_refl.
    + destruct (String.eqb_spec k' k); [done|]. by rewrite IH.
Qed.

Lemma set_object_twice name o o' s :
  set_object name o (set_object name o' s) = set_object name o s.
Proof. unfold set_object. simpl. by rewrite assoc_set_twice. Qed.

Lemma assoc_set_same {A} k (a : A) l : assoc k l = Some a → assoc_set k a l = l.
Proof.
  induction l as [|[k' c] l IH]; simpl; [done|].
  destruct (String.eqb_spec k' k) as [->|Hne].
  - by intros [= ->].
  - intros H. by rewrite IH.
Qed.

Lemma set_object_same name o s :
  lookup_object name s = Some o → set_object name o s = s.
Proof.
  intros H. unfold set_object. rewrite assoc_set_same by done. by destruct s.
Qed.

Lemma build_row_hash t c h d : build_row t ["hash"; c] [h; d] !! "hash" = Some h.
Proof.
  unfold build_row. apply lookup_union_Some_l. simpl. apply lookup_insert_eq.
Qed.

Lemma build_row_column t c h d :
  c ≠ "hash" → build_row t ["hash"; c] [h; d] !! c = Some d.
Proof.
  intros Hne. unfold build_row. apply lookup_union_Some_l. simpl.
  rewrite lookup_insert_ne by done. apply lookup_insert_eq.
Qed.

Lemma build_row_notnull_ok t c h d :
  registry t → notnull_ok t (build_row t ["hash"; c] [h; d]) = true.
Proof.
  intros Hreg. pose proof Hreg as (_ & _ & Hcols). unfold notnull_ok.
  apply forallb_forall. intros col Hc.
  rewrite forallb_forall in Hcols. specialize (Hcols col Hc).
  destruct (col_notnull col); [|done]. simpl in *.
  apply bool_decide_eq_true.
  apply orb_true_iff in Hcols as [Hn|Hd].
  - apply String.eqb_eq in Hn. rewrite Hn, build_row_hash. eauto.
  - apply bool_decide_eq_true in Hd.
    destruct (defaults_is_Some t col) as [x Hx]; [by apply list_elem_of_In|done|].
    unfold build_row.
    destruct ((list_to_map (zip ["hash"; c] [h; d]) : row) !! col_name col)
      as [y|] eqn:Hy.
    + exists y. by apply lookup_union_Some_l.
    + exists x. rewrite lookup_union_r; done.
Qed.

Lemma insert_row_Replace_registry s name t c d h :
  lookup_object name s = Some (Table t) →
  registry t →
  mem c (column_names t) = true →
  triggers_on name s = [] →
  insert_row Replace name (Some ["hash"; c]) [h; d] s =
    Ok (set_object name (Table (overwrite_row c d h t)) s).
Proof.
  intros Hl Hreg Hc Htr. unfold insert_row, get_table. rewrite Hl. simpl.
  destruct Hreg as (Hh & Hu & Hcols). rewrite Hh, Hc. simpl.
  rewrite place_row_Replace by (by apply build_row_notnull_ok).
  by rewrite Htr.
Qed.

Lemma insert_rows_Replace_registry hashes : ∀ s name t c d,
  lookup_object name s = Some (Table t) →
  registry t →
  mem c (column_names t) = true →
  triggers_on name s = [] →
  insert_rows Replace name (Some ["hash"; c]) (map (λ h, [h; d]) hashes) s =
    Ok (set_object name (Table (foldl (λ t h, overwrite_row c d h t) t hashes)) s).
Proof.
  induction hashes as [|h hashes IH]; intros s name t c d Hl Hreg Hc Htr; simpl.
  - by rewrite set_object_same.
  - rewrite (insert_row_Replace_registry _ _ t) by done. simpl.
    rewrite (IH _ _ (overwrite_row c d h t)); try done.
    + by rewrite set_object_twice.
    + apply lookup_set_object_eq.
Qed.

Lemma overwrite_row_rows c d h t :
  registry t →
  tbl_rows (overwrite_row c d h t) =
    List.filter (λ r' : row, negb (bool_decide (r' !! "hash" = Some h))) (tbl_rows t)
    ++ [build_row t ["hash"; c] [h; d]].
Proof.
  intros Hreg. unfold overwrite_row. simpl. f_equal.
  apply filter_ext. intros r'.
  by rewrite (registry_collides _ _ _ h) by (done || apply build_row_hash).
Qed.

Lemma elem_of_overwrite_row c d h t (r : row) :
  registry t →
  r ∈ tbl_rows (overwrite_row c d h t) ↔
  (r ∈ tbl_rows t ∧ r !! "hash" ≠ Some h) ∨ r = build_row t ["hash"; c] [h; d].
Proof.
  intros Hreg. rewrite overwrite_row_rows by done.
  rewrite elem_of_app, list_elem_of_singleton, list_elem_of_In, filter_In,
    negb_true_iff, bool_decide_eq_false, <- list_elem_of_In. done.
Qed.

Section Overwrite.

Variables c d : string.
Hypothesis c_not_hash : c ≠ "hash".

Lemma step_present h h' t :
  registry t → h' ∈ hashes_of t → h' ∈ hashes_of (overwrite_row c d h t).
Proof.
  intros Hreg. unfold hashes_of. rewrite !list_elem_of_omap.
  intros (r & Hr & Hh). destruct (decide (h' = h)) as [->|Hne].
  - exists (build_row t ["hash"; c] [h; d]). split; [|apply build_row_hash].
    apply elem_of_overwrite_row; auto.
  - exists r. split; [|done]. apply elem_of_overwrite_row; [done|].
    left. split; [done|]. congruence.
Qed.

Lemma step_present_new h t :
  registry t → h ∈ hashes_of (overwrite_row c d h t).
Proof.
  intros Hreg. unfold hashes_of. rewrite list_elem_of_omap.
  exists (build_row t ["hash"; c] [h; d]). split; [|apply build_row_hash].
  apply elem_of_overwrite_row; auto.
Qed.

Lemma step_good h h' t :
  registry t → holds_default c d h' t → holds_default c d h' (overwrite_row c d h t).
Proof.
  intros Hreg Hg r Hr Hh.
  apply (elem_of_overwrite_row _ _ _ _ _ Hreg) in Hr as [[Hr _]| ->].
  - by apply Hg.
  - by apply build_row_column.
Qed.

Lemma step_good_new h t : registry t → holds_default c d h (overwrite_row c d h t).
Proof.
  intros Hreg r Hr Hh.
  apply (elem_of_overwrite_row _ _ _ _ _ Hreg) in Hr as [[_ Hne]| ->].
  - done.
  - by apply build_row_column.
Qed.

Lemma fold_registry hashes : ∀ t,
  registry t → registry (foldl (λ t h, overwrite_row c d h t) t hashes).
Proof. induction hashes as [|h l IH]; intros t Hreg; simpl; [done|]. by apply IH. Qed.

Lemma fold_columns hashes : ∀ t,
  tbl_columns (foldl (λ t h, overwrite_row c d h t) t hashes) = tbl_columns t.
Proof. induction hashes as [|h l IH]; intros t; simpl; [done|]. by rewrite IH. Qed.

Lemma fold_present hashes : ∀ t h',
  registry t → h' ∈ hashes_of t →
  h' ∈ hashes_of (foldl (λ t h, overwrite_row c d h t) t hashes).
Proof.
  induction hashes as [|h l IH]; intros t h' Hreg Hp; simpl; [done|].
  apply IH; [done|]. by apply step_present.
Qed.

Lemma fold_good hashes : ∀ t h',
  registry t → holds_default c d h' t →
  holds_default c d h' (foldl (λ t h, overwrite_row c d h t) t hashes).
Proof.
  induction hashes as [|h l IH]; intros t h' Hreg Hg; simpl; [done|].
  apply IH; [done|]. by apply step_good.
Qed.

Lemma fold_overwritten hashes : ∀ t h,
  registry t → h ∈ hashes →
  h ∈ hashes_of (foldl (λ t h, overwrite_row c d h t) t hashes) ∧
  holds_default c d h (foldl (λ t h, overwrite_row c d h t) t hashes).
Proof.
  induction hashes as [|h0 l IH]; intros t h Hreg Hin; simpl.
  - by apply elem_of_nil in Hin.
  - apply elem_of_cons in Hin as [->|Hin].
    + split.
      * apply fold_present; [done|]. by apply step_present_new.
      * apply fold_good; [done|]. by apply step_good_new.
    + by apply IH.
Qed.

Lemma filter_hash_keeps (rows : list row) h :
  h ∉ omap (λ r : row, r !! "hash") rows →
  List.filter (λ r' : row, negb (bool_decide (r' !! "hash" = Some h))) rows = rows.
Proof.
  induction rows as [|r rows IH]; simpl; [done|].
  destruct (r !! "hash") as [a|] eqn:Ha.
  - intros Hn. apply not_elem_of_cons in Hn as [Hne Hn].
    rewrite bool_decide_eq_false_2 by congruence. simpl. by rewrite IH.
  - intros Hn. rewrite bool_decide_eq_false_2 by done. simpl. by rewrite IH.
Qed.

Lemma filter_hash_length (rows : list row) h :
  NoDup (omap (λ r : row, r !! "hash") rows) →
  (length rows ≤
   S (length (List.filter (λ r' : row, negb (bool_decide (r' !! "hash" = Some h))) rows)))%nat.
Proof.
  induction rows as [|r rows IH]; simpl; [lia|].
  destruct (r !! "hash") as [a|] eqn:Ha.
  - intros [Hn Hnd]%NoDup_cons. destruct (decide (a = h)) as [->|Hne].
    + rewrite bool_decide_eq_true_2 by done. simpl.
      rewrite filter_hash_keeps by done. lia.
    + rewrite bool_decide_eq_false_2 by congruence. simpl.
      specialize (IH Hnd). lia.
  - intros Hnd. rewrite bool_decide_eq_false_2 by done. simpl.
    specialize (IH Hnd). lia.
Qed.

Lemma omap_filter_hash (rows : list row) h :
  omap (λ r : row, r !! "hash")
       (List.filter (λ r' : row, negb (bool_decide (r' !! "hash" = Some h))) rows) =
  List.filter (λ a, negb (String.eqb a h)) (omap (λ r : row, r !! "hash") rows).
Proof.
  induction rows as [|r rows IH]; simpl; [done|].
  destruct (r !! "hash") as [a|] eqn:Ha; simpl.
  - destruct (String.eqb_spec a h) as [->|Hne]; simpl.
    + rewrite bool_decide_eq_true_2 by done. simpl. exact IH.
    + rewrite bool_decide_eq_false_2 by congruence. simpl. rewrite Ha.
      f_equal. exact IH.
  - rewrite Ha. exact IH.
Qed.

Lemma step_nodup h t :
  registry t → NoDup (hashes_of t) →
  NoDup (hashes_of (overwrite_row c d h t)) ∧
  (length (tbl_rows t) ≤ length (tbl_rows (overwrite_row c d h t)))%nat.
Proof.
  intros Hreg Hnd. unfold hashes_of in *. rewrite overwrite_row_rows by done.
  split.
  - rewrite omap_app, omap_filter_hash. simpl. rewrite build_row_hash.
    apply NoDup_app. split; [|split].
    + apply NoDup_ListNoDup, List.NoDup_filter, NoDup_ListNoDup, Hnd.
    + intros a Ha Hs. apply list_elem_of_singleton in Hs as ->.
      apply list_elem_of_In, filter_In in Ha as [_ Ha].
      by rewrite String.eqb_refl in Ha.
    + apply NoDup_singleton.
  - rewrite length_app. simpl. pose proof (filter_hash_length (tbl_rows t) h Hnd). lia.
Qed.

Lemma fold_nodup hashes : ∀ t,
  registry t → NoDup (hashes_of t) →
  NoDup (hashes_of (foldl (λ t h, overwrite_row c d h t) t hashes)) ∧
  (length (tbl_rows t) ≤
   length (tbl_rows (foldl (λ t h, overwrite_row c d h t) t hashes)))%nat.
Proof.
  induction hashes as [|h l IH]; intros t Hreg Hnd; simpl; [done|].
  destruct (step_nodup h t Hreg Hnd) as [Hnd1 Hlen1].
  destruct (IH (overwrite_row c d h t)) as [Hnd2 Hlen2]; [done|done|].
  split; [done|lia].
Qed.

End Overwrite.

(** *** Deletion *)

Lemma exec_delete s name t col vals :
  lookup_object name s = Some (Table t) →
  mem col (column_names t) = true →
  exec (DeleteWhereIn name col vals) s =
    Ok (set_object name
          (Table (with_rows t
             (List.filter (λ r, negb (cell_in col vals r)) (tbl_rows t)))) s).
Proof.
  intros Hl Hc. unfold exec, get_table. rewrite Hl. simpl. by rewrite Hc.
Qed.

Lemma in_list_nonempty l : l ≠ [] → in_list l = l.
Proof. by destruct l. Qed.

Lemma delete_found self feature col vals s t :
  find_store feature (connection self) = Some s →
  lookup_object feature s = Some (Table t) →
  mem col (column_names t) = true →
  ∃ self' s',
    execute (DeleteWhereIn feature col vals) self = Ok self' ∧
    find_store feature (connection self') = Some s' ∧
    lookup_object feature s' =
      Some (Table (with_rows t
              (List.filter (λ r, negb (cell_in col vals r)) (tbl_rows t)))).
Proof.
  intros Hf Hl Hc. rewrite (execute_found _ _ s) by done.
  rewrite (exec_delete _ _ t) by done. simpl.
  eexists _, _. split; [done|]. simpl. split.
  - apply find_put_store; [by rewrite Hf|]. rewrite lookup_set_object_eq. eauto.
  - apply lookup_set_object_eq.
Qed.

Lemma elem_of_deleted col vals (rows : list row) (r : row) :
  r ∈ List.filter (λ r, negb (cell_in col vals r)) rows ↔
  r ∈ rows ∧ ∀ v, r !! col = Some v → v ∉ vals.
Proof.
  rewrite list_elem_of_In, filter_In, <- list_elem_of_In, negb_true_iff.
  unfold cell_in. split; intros [Hr Hc]; (split; [done|]).
  - intros v Hv. rewrite Hv in Hc. by apply mem_false.
  - destruct (r !! col) as [v|]; [|done]. apply mem_false. by apply Hc.
Qed.

(** C4. Deletion scoped by identities.  On a feature with a default (a
    column of a registry table) the rows of the given identities are
    overwritten with the default: afterwards each given identity has a row,
    every row of it holds the default in the feature's column, and no
    identity has left the table (nor has the table become shorter); on a
    feature whose default is null every row whose hash is among the given
    identities is removed, whatever its value, and no other row is. *)
Theorem delete_hashes_scoped (self : Database) (feature : string)
    (hashes : list string) (info : finfo) (s : store) (t : table) :
  feature_infos self !! feature = Some info →
  hashes ≠ [] →
  (∀ d, f_default info = Some d → truthy (Some d) = true →
     f_column info ≠ "hash" →
     find_store (f_table info) (connection self) = Some s →
     lookup_object (f_table info) s = Some (Table t) →
     registry t →
     mem (f_column info) (column_names t) = true →
     triggers_on (f_table info) s = [] →
     forallb dq_free (d :: hashes) = true →
     ∃ self' s' t',
       delete_hashes feature hashes self = Ok self' ∧
       find_store (f_table info) (connection self') = Some s' ∧
       lookup_object (f_table info) s' = Some (Table t') ∧
       registry t' ∧ tbl_columns t' = tbl_columns t ∧
       (∀ h, h ∈ hashes →
          h ∈ hashes_of t' ∧ holds_default (f_column info) d h t') ∧
       (∀ h, h ∈ hashes_of t → h ∈ hashes_of t') ∧
       (NoDup (hashes_of t) →
          NoDup (hashes_of t') ∧ (length (tbl_rows t) ≤ length (tbl_rows t'))%nat)) ∧
  (f_default info = None →
     find_store feature (connection self) = Some s →
     lookup_object feature s = Some (Table t) →
     mem "hash" (column_names t) = true →
     forallb sq_free hashes = true →
     ∃ self' s' t',
       delete_hashes feature hashes self = Ok self' ∧
       find_store feature (connection self') = Some s' ∧
       lookup_object feature s' = Some (Table t') ∧
       tbl_columns t' = tbl_columns t ∧
       (∀ (r : row) h, r ∈ tbl_rows t' → h ∈ hashes → r !! "hash" ≠ Some h) ∧
       (∀ r : row, r ∈ tbl_rows t' ↔
          r ∈ tbl_rows t ∧ ∀ h, r !! "hash" = Some h → h ∉ hashes)).
Proof.
  intros Hi Hne. split.
  - intros d Hd Htruthy Hcol Hf Hl Hreg Hmem Htr Hq.
    unfold delete_hashes, info_of. rewrite Hi. simpl. rewrite Hd.
    rewrite (insert_found _ _ _ _ _ info s) by done.
    unfold insert_method. rewrite Hd, Htruthy. simpl.
    rewrite (insert_values_no_triggers _ _ _ _ _ t) by done.
    rewrite (insert_rows_Replace_registry _ _ _ t) by done. simpl.
    eexists _, _, _. split; [done|]. simpl. split.
    { apply find_put_store; [by rewrite Hf|]. rewrite lookup_set_object_eq. eauto. }
    split; [apply lookup_set_object_eq|].
    split; [by apply fold_registry|].
    split; [apply fold_columns|].
    split; [intros h Hh; by apply fold_overwritten|].
    split; [intros h Hh; by apply fold_present|].
    intros Hnd. by apply fold_nodup.
  - intros Hd Hf Hl Hmem Hq.
    unfold delete_hashes, info_of. rewrite Hi. simpl. rewrite Hd, Hq. simpl.
    rewrite in_list_nonempty by done.
    destruct (delete_found self feature "hash" hashes s t Hf Hl Hmem)
      as (self' & s' & He & Hf' & Hl').
    eexists self', s', _. split; [done|]. split; [done|]. split; [done|].
    split; [done|]. simpl. split.
    + intros r h Hr Hh Hrh. apply elem_of_deleted in Hr as [_ Hr].
      by apply (Hr h).
    + intros r. apply elem_of_deleted.
Qed.

(** C5, at the code.  Deletion scoped by values on a feature with a default
    builds the text [UPDATE TABLE ...], which the engine does not parse:
    the call raises and overwrites nothing.  On a feature whose default is
    null the rows whose value is among the given ones are removed and the
    others stay. *)
Theorem delete_values_scoped (self : Database) (feature : string)
    (values : list string) (info : finfo) :
  feature_infos self !! feature = Some info →
  (∀ d, f_default info = Some d →
     delete_values feature values self = Raise (OperationalError SyntaxError)) ∧
  (∀ s t,
     f_default info = None →
     values ≠ [] →
     find_store feature (connection self) = Some s →
     lookup_object feature s = Some (Table t) →
     mem "value" (column_names t) = true →
     forallb sq_free values = true →
     ∃ self' s' t',
       delete_values feature values self = Ok self' ∧
       find_store feature (connection self') = Some s' ∧
       lookup_object feature s' = Some (Table t') ∧
       (∀ r : row, r ∈ tbl_rows t' ↔
          r ∈ tbl_rows t ∧ ∀ v, r !! "value" = Some v → v ∉ values)).
Proof.
  intros Hi. split.
  - intros d Hd. unfold delete_values, info_of. rewrite Hi. simpl. by rewrite Hd.
  - intros s t Hd Hne Hf Hl Hmem Hq.
    unfold delete_values, info_of. rewrite Hi. simpl. rewrite Hd, Hq. simpl.
    rewrite in_list_nonempty by done.
    destruct (delete_found self feature "value" values s t Hf Hl Hmem)
      as (self' & s' & He & Hf' & Hl').
    eexists self', s', _. split; [done|]. split; [done|]. split; [done|].
    intros r. apply elem_of_deleted.
Qed.

(** *** The identity registry *)

Lemma nodupb_spec l : nodupb l = true ↔ NoDup l.
Proof.
  induction l as [|x l IH]; simpl.
  - split; [constructor|done].
  - rewrite andb_true_iff, negb_true_iff, mem_false, IH, NoDup_cons. done.
Qed.

Lemma registryb_spec t : registryb t = true ↔ registry t.
Proof.
  unfold registryb, registry. rewrite !andb_true_iff, bool_decide_eq_true. tauto.
Qed.

Lemma occurrences_NoDup h l : NoDup l → occurrences h l = 1%nat ↔ h ∈ l.
Proof.
  unfold occurrences. induction 1 as [|x l Hx Hnd IH]; simpl.
  - split; [done|]. by intros ?%elem_of_nil.
  - destruct (String.eqb_spec h x) as [->|Hne]; simpl.
    + split; [intros _; apply elem_of_cons; by left|]. intros _. f_equal.
      apply length_zero_iff_nil.
      destruct (List.filter (String.eqb x) l) as [|y l'] eqn:Hf; [done|].
      assert (Hy : In y (List.filter (String.eqb x) l)) by (rewrite Hf; by left).
      apply filter_In in Hy as [Hy Heq]. apply String.eqb_eq in Heq as <-.
      by apply list_elem_of_In in Hy.
    + rewrite IH, elem_of_cons. split; [by right|]. intros [?|?]; [congruence|done].
Qed.

Lemma registry_state_spec local features s :
  scaffold local features s = true ∧ registered local features s = true ↔
  registry_state local features s.
Proof.
  unfold scaffold, registered, registry_state.
  rewrite !andb_true_iff, negb_true_iff, String.eqb_neq, existsb_exists.
  split.
  - intros [[[Hne (trg & Htrg & Hon)] Hs] Hr].
    split; [done|]. split.
    { exists trg. apply andb_true_iff in Hon as [Ho Hi].
      apply String.eqb_eq in Ho, Hi. by rewrite list_elem_of_In. }
    destruct (lookup_object local s) as [[tl|]|]; [|done|done].
    destruct (lookup_object features s) as [[tf|]|]; [|done|done].
    apply andb_true_iff in Hs as [Hreg Hnd].
    apply registryb_spec in Hreg. apply nodupb_spec in Hnd.
    exists tl, tf. repeat (split; [done|]).
    intros h Hh. rewrite forallb_forall in Hr.
    apply list_elem_of_In, Hr, Nat.eqb_eq in Hh. by apply occurrences_NoDup in Hh.
  - intros (Hne & (trg & Htrg & Hon & Hinto) & tl & tf & -> & -> & Hreg & Hnd & Hsub).
    repeat split; try done.
    + exists trg. split; [by apply list_elem_of_In|].
      by rewrite Hon, Hinto, !String.eqb_refl.
    + apply andb_true_iff. by rewrite registryb_spec, nodupb_spec.
    + apply forallb_forall. intros h Hh. apply Nat.eqb_eq, occurrences_NoDup; [done|].
      by apply Hsub, list_elem_of_In.
Qed.

Lemma existsb_none {A} (f : A → bool) l :
  (∀ x, f x = false) → existsb f l = false.
Proof. intros Hf. induction l as [|x l IH]; simpl; [done|]. by rewrite Hf, IH. Qed.

Lemma collides_null t (r r' : row) :
  registry t → r !! "hash" = None → collides t r r' = false.
Proof.
  intros (_ & Hu & _) Hh. unfold collides. rewrite Hu. simpl. by rewrite Hh.
Qed.

Lemma place_row_shape c t r t' :
  place_row c t r = Placed t' →
  tbl_columns t' = tbl_columns t ∧ tbl_unique t' = tbl_unique t ∧
  ∀ h, h ∈ hashes_of t' → h ∈ hashes_of t ∨ r !! "hash" = Some h.
Proof.
  unfold place_row. intros Hp.
  assert (Hrows : ∃ rows, t' = with_rows t (rows ++ [r]) ∧ ∀ x, x ∈ rows → x ∈ tbl_rows t).
  { destruct (notnull_ok t r); simpl in Hp; [|by destruct c].
    destruct (existsb _ _); [destruct c; try done|]; injection Hp as <-.
    - eexists. split; [done|]. intros x Hx.
      by apply list_elem_of_In, filter_In in Hx as [Hx%list_elem_of_In _].
    - by eexists. }
  destruct Hrows as (rows & -> & Hsub). repeat split.
  intros h. unfold hashes_of. simpl. rewrite omap_app, elem_of_app, !list_elem_of_omap.
  intros [(x & Hx & Hh)|(x & Hx & Hh)].
  - left. exists x. auto.
  - apply list_elem_of_singleton in Hx as ->. by right.
Qed.

Lemma place_row_registry c t r t' :
  registry t → NoDup (hashes_of t) →
  place_row c t r = Placed t' →
  registry t' ∧ NoDup (hashes_of t') ∧
  (∀ h, h ∈ hashes_of t → h ∈ hashes_of t') ∧
  (∀ h, r !! "hash" = Some h → h ∈ hashes_of t').
Proof.
  intros Hreg Hnd Hp.
  destruct (r !! "hash") as [h|] eqn:Hh.
  - assert (Ht' : t' = with_rows t
        (List.filter (λ r' : row, negb (bool_decide (r' !! "hash" = Some h))) (tbl_rows t)
         ++ [r])).
    { unfold place_row in Hp.
      destruct (notnull_ok t r); simpl in Hp; [|by destruct c].
      rewrite (existsb_collides_registry _ _ h) in Hp by done.
      destruct (mem h (hashes_of t)) eqn:Hm.
      - destruct c; try done. injection Hp as <-. f_equal. f_equal.
        apply filter_ext. intros r'. by rewrite (registry_collides _ _ _ h).
      - injection Hp as <-. f_equal. f_equal. symmetry.
        apply filter_hash_keeps. by apply mem_false. }
    subst t'. split; [done|]. unfold hashes_of in *. simpl.
    rewrite omap_app, omap_filter_hash. simpl. rewrite Hh.
    split; [|split].
    + apply NoDup_app. split; [|split].
      * apply NoDup_ListNoDup, List.NoDup_filter, NoDup_ListNoDup, Hnd.
      * intros a Ha Hs. apply list_elem_of_singleton in Hs as ->.
        apply list_elem_of_In, filter_In in Ha as [_ Ha].
        by rewrite String.eqb_refl in Ha.
      * apply NoDup_singleton.
    + intros h' Hh'. rewrite elem_of_app, list_elem_of_singleton.
      destruct (decide (h' = h)) as [->|Hne]; [by right|left].
      apply list_elem_of_In, filter_In. split; [by apply list_elem_of_In|].
      by apply negb_true_iff, String.eqb_neq.
    + intros h' [= <-]. rewrite elem_of_app, list_elem_of_singleton. by right.
  - assert (Ht' : t' = with_rows t (tbl_rows t ++ [r])).
    { unfold place_row in Hp.
      destruct (notnull_ok t r); simpl in Hp; [|by destruct c].
      rewrite existsb_none in Hp by (intros r'; by apply collides_null).
      by injection Hp as <-. }
    subst t'. split; [done|]. unfold hashes_of in *. simpl.
    rewrite omap_app. simpl. rewrite Hh, app_nil_r. done.
Qed.

Lemma place_row_Skipped_registry c t h :
  registry t →
  place_row c t (<["hash" := h]> (defaults t)) = Skipped →
  h ∈ hashes_of t.
Proof.
  intros Hreg. unfold place_row.
  rewrite (registry_notnull_ok _ _ h); [|done|apply lookup_insert_eq|].
  - simpl. rewrite (existsb_collides_registry _ _ h) by (done || apply lookup_insert_eq).
    destruct (mem h (hashes_of t)) eqn:Hm; [|done]. intros _. by apply mem_spec.
  - intros k Hk. destruct (decide (k = "hash")) as [->|Hne].
    + rewrite lookup_insert_eq. eauto.
    + by rewrite lookup_insert_ne.
Qed.

Section Trigger.

Variables local features : string.
Hypothesis local_not_features : local ≠ features.
Variable new : row.

Lemma fire_running c s s' trg :
  running local features new s → fire c new s trg = Ok s' →
  running local features new s' ∧ triggers s' = triggers s ∧
  (reached features new s → reached features new s') ∧ (trg_into trg = features → reached features new s').
Proof.
  intros (tl & tf & Hl & Hf & Hreg & Hnd & Hsub). unfold fire, get_table.
  destruct (lookup_object (trg_into trg) s) as [[t|]|] eqn:Ht; simpl; [|done|done].
  destruct (mem "hash" (column_names t)); simpl; [|done].
  set (r := match new !! "hash" with
            | Some h => <["hash" := h]> (defaults t)
            | None => delete "hash" (defaults t)
            end).
  assert (Hr : r !! "hash" = new !! "hash").
  { subst r. destruct (new !! "hash"); [apply lookup_insert_eq|apply lookup_delete_eq]. }
  destruct (place_row c t r) as [t'| |e] eqn:Hp; [| |done].
  - intros [= <-]. split; [|split; [done|]].
    + destruct (decide (trg_into trg = features)) as [Hinto|Hinto].
      * rewrite Hinto in *. simplify_eq.
        destruct (place_row_registry _ _ _ _ Hreg Hnd Hp) as (Hreg' & Hnd' & Hmono & _).
        exists tl, t'. rewrite lookup_set_object_ne by done.
        rewrite lookup_set_object_eq. repeat (split; [done|]).
        intros h Hh. destruct (Hsub h Hh); auto.
      * destruct (decide (trg_into trg = local)) as [Hloc|Hloc].
        -- rewrite Hloc in *. simplify_eq.
           destruct (place_row_shape _ _ _ _ Hp) as (_ & _ & Hsub').
           exists t', tf. rewrite lookup_set_object_eq.
           rewrite lookup_set_object_ne by done. repeat (split; [done|]).
           intros h Hh. destruct (Hsub' h Hh) as [Hh'|Hh']; [by apply Hsub|].
           right. by rewrite <- Hr.
        -- exists tl, tf. rewrite !lookup_set_object_ne by done. done.
    + split.
      * intros Hreached h Hh. destruct (Hreached h Hh) as (tf0 & Hf0 & Hin).
        destruct (decide (trg_into trg = features)) as [Hinto|Hinto].
        -- rewrite Hinto in *. simplify_eq.
           destruct (place_row_registry _ _ _ _ Hreg Hnd Hp) as (_ & _ & Hmono & _).
           exists t'. rewrite lookup_set_object_eq. auto.
        -- exists tf0. by rewrite lookup_set_object_ne.
      * intros Hinto h Hh. rewrite Hinto in *. simplify_eq.
        destruct (place_row_registry _ _ _ _ Hreg Hnd Hp) as (_ & _ & _ & Hnew).
        exists t'. rewrite lookup_set_object_eq. split; [done|].
        apply Hnew. by rewrite Hr.
  - intros [= <-]. split; [by exists tl, tf|]. split; [done|]. split; [done|].
    intros Hinto h Hh. rewrite Hinto in *. simplify_eq.
    exists tf. split; [done|]. subst r. rewrite Hh in Hp.
    by apply (place_row_Skipped_registry c).
Qed.

Lemma fire_all_running c trgs : ∀ s s',
  running local features new s → fire_all c new trgs s = Ok s' →
  running local features new s' ∧ triggers s' = triggers s ∧
  (reached features new s → reached features new s') ∧
  ((∃ trg, trg ∈ trgs ∧ trg_into trg = features) → reached features new s').
Proof.
  induction trgs as [|trg trgs IH]; intros s s' Hrun; simpl.
  - intros [= <-]. repeat split; try done. by intros (? & ?%elem_of_nil & _).
  - destruct (fire c new s trg) as [s1| |] eqn:Hfire; simpl; [|done|done].
    intros Hall.
    destruct (fire_running _ _ _ _ Hrun Hfire) as (Hrun1 & Htr1 & Hkeep1 & Hnew1).
    destruct (IH _ _ Hrun1 Hall) as (Hrun' & Htr' & Hkeep' & Hnew').
    split; [done|]. split; [congruence|]. split; [auto|].
    intros (trg' & [->|Hin]%elem_of_cons & Hinto); [auto|].
    apply Hnew'. eauto.
Qed.

End Trigger.

Lemma insert_row_registry_state local features c cols vals s s' :
  registry_state local features s →
  insert_row c local cols vals s = Ok s' →
  registry_state local features s'.
Proof.
  intros (Hne & (trg & Htrg & Hon & Hinto) & tl & tf & Hl & Hf & Hreg & Hnd & Hsub).
  unfold insert_row, get_table. rewrite Hl. simpl.
  destruct (negb (forallb _ _)); [done|].
  destruct (negb (_ =? _)%nat); [done|].
  set (r := build_row tl _ vals).
  destruct (place_row c tl r) as [tl'| |e] eqn:Hp; [| |done].
  - intros Hall.
    destruct (place_row_shape _ _ _ _ Hp) as (_ & _ & Hsub').
    destruct (fire_all_running local features Hne r (trigger_policy c)
                (triggers_on local s) (set_object local (Table tl') s) s')
      as ((tl1 & tf1 & Hl1 & Hf1 & Hreg1 & Hnd1 & Hsub1) & Htr1 & _ & Hreached);
      [|done|].
    { exists tl', tf. rewrite lookup_set_object_eq.
      rewrite lookup_set_object_ne by done. repeat (split; [done|]).
      intros h Hh. destruct (Hsub' h Hh); auto. }
    split; [done|]. split.
    { exists trg. by rewrite Htr1. }
    exists tl1, tf1. repeat (split; [done|]).
    intros h Hh. destruct (Hsub1 h Hh) as [Hin|Hnew]; [done|].
    destruct Hreached with (h := h) as (tf2 & Hf2 & Hin2); [|done|by simplify_eq].
    exists trg. split; [|done]. unfold triggers_on.
    apply list_elem_of_In, filter_In. split; [by apply list_elem_of_In|].
    by rewrite Hon, String.eqb_refl.
  - intros [= <-]. split; [done|]. split; [by exists trg|]. by exists tl, tf.
Qed.

Lemma insert_rows_registry_state local features c cols rows : ∀ s s',
  registry_state local features s →
  insert_rows c local cols rows s = Ok s' →
  registry_state local features s'.
Proof.
  induction rows as [|vals rows IH]; intros s s' Hs; simpl.
  - by intros [= <-].
  - destruct (insert_row c local cols vals s) as [s1| |] eqn:H1; simpl; [|done|done].
    intros Hrest. apply (IH s1); [|done].
    by apply (insert_row_registry_state _ _ _ _ _ _ _ Hs H1).
Qed.

(** *** [init_database] sets the scaffold up *)

Lemma extends_refl s : extends s s.
Proof. by split. Qed.

Lemma extends_trans s1 s2 s3 : extends s1 s2 → extends s2 s3 → extends s1 s3.
Proof. intros [H1 H1'] [H2 H2']. split; auto. Qed.

Lemma extends_set_object name o s :
  lookup_object name s = None → extends s (set_object name o s).
Proof.
  intros Hnone. split; [|done]. intros name' o' Hl.
  rewrite lookup_set_object_ne; [done|]. intros ->. congruence.
Qed.

Lemma connect_execute_extends q s s' :
  scaffolding q = true → connect_execute q s = Ok s' → extends s s'.
Proof.
  unfold connect_execute. destruct q; try done; simpl.
  - destruct if_not_exists; [done|]. intros _.
    destruct (lookup_object name s) eqn:Hl; [done|].
    destruct (nodupb _); [|done]. intros [= <-]. by apply extends_set_object.
  - intros _. destruct (lookup_object name s) eqn:Hl; [done|].
    intros [= <-]. by apply extends_set_object.
  - intros _. destruct (existsb _ _); [done|].
    destruct (lookup_object on s) as [[t|]|]; [|done|done].
    intros [= <-]. split; [done|]. simpl. intros trg Htrg.
    apply elem_of_app. by left.
  - intros _. destruct (get_table into s); simpl; [|done|done].
    destruct (lookup_object from s) as [[tf|]|]; [|done|done].
    destruct (negb _); [done|].
    destruct (insert_values _ _ _ _ _); simpl; [|done|done].
    intros [= <-]. apply extends_refl.
Qed.

Lemma when_extends b q s s' :
  scaffolding q = true → when b q s = Ok s' → extends s s'.
Proof.
  unfold when. destruct b; [apply connect_execute_extends|].
  intros _ [= <-]. apply extends_refl.
Qed.

Lemma init_context_extends dbinfo s s' context :
  init_context dbinfo s context = Ok s' → extends s s'.
Proof.
  unfold init_context.
  destruct (when _ _ s) as [s1| |] eqn:H1; cbn [mbind outcome_bind]; [|done|done].
  destruct (when _ _ s1) as [s2| |] eqn:H2; cbn [mbind outcome_bind]; [|done|done].
  destruct (when _ _ s2) as [s3| |] eqn:H3; cbn [mbind outcome_bind]; [|done|done].
  apply when_extends in H1, H2, H3; try done.
  assert (H03 : extends s s3) by eauto using extends_trans.
  destruct (negb (mem _ (db_tables dbinfo))).
  - destruct (connect_execute _ s3) as [s4| |] eqn:H4; cbn [mbind outcome_bind];
      [|done|done].
    destruct (connect_execute _ s4) as [s5| |] eqn:H5; cbn [mbind outcome_bind];
      [|done|done].
    intros H6. apply connect_execute_extends in H4, H5, H6; try done.
    eauto using extends_trans.
  - by intros [= <-].
Qed.

Lemma init_translator_extends dbinfo s s' c01 :
  init_translator dbinfo s c01 = Ok s' → extends s s'.
Proof. unfold init_translator. by apply when_extends. Qed.

Lemma for_each_extends {A} (body : store → A → outcome store) l :
  (∀ s s' a, body s a = Ok s' → extends s s') →
  ∀ s s', for_each body l s = Ok s' → extends s s'.
Proof.
  intros Hbody. induction l as [|a l IH]; intros s s'; cbn [for_each].
  - intros [= <-]. apply extends_refl.
  - destruct (body s a) as [s1| |] eqn:H1; cbn [mbind outcome_bind]; [|done|done].
    intros Hrest. eapply extends_trans; eauto.
Qed.

Lemma registry_state_extends local features s s' :
  extends s s' → registry_state local features s → registry_state local features s'.
Proof.
  intros [Hobj Htrg] (Hne & (trg & Hin & Hon) & tl & tf & Hl & Hf & Hrest).
  split; [done|]. split; [exists trg; auto|].
  exists tl, tf. split; [auto|]. split; [auto|done].
Qed.

(** A context whose tables [local] and [features] were not there yet. *)
Lemma init_context_fresh dbinfo s s' context :
  mem (prepend_context "local" context) (db_tables dbinfo) = false →
  mem (prepend_context "features" context) (db_tables dbinfo) = false →
  prepend_context "local" context ≠ prepend_context "features" context →
  init_context dbinfo s context = Ok s' →
  registry_state (prepend_context "local" context)
                 (prepend_context "features" context) s'.
Proof.
  intros Hlocal Hfeatures Hne. unfold init_context.
  rewrite Hlocal, Hfeatures. cbn [negb when].
  set (local := prepend_context "local" context) in *.
  set (features := prepend_context "features" context) in *.
  destruct (connect_execute _ s) as [s1| |] eqn:H1; cbn [mbind outcome_bind]; [|done|done].
  destruct (when _ _ s1) as [s2| |] eqn:H2; cbn [mbind outcome_bind]; [|done|done].
  destruct (when _ _ s2) as [s3| |] eqn:H3; cbn [mbind outcome_bind]; [|done|done].
  destruct (connect_execute _ s3) as [s4| |] eqn:H4; cbn [mbind outcome_bind]; [|done|done].
  destruct (connect_execute _ s4) as [s5| |] eqn:H5; cbn [mbind outcome_bind]; [|done|done].
  intros H6.
  assert (Hl1 : lookup_object local s1 = Some (Table
            {| tbl_columns := [not_null "hash"; not_null "value"];
               tbl_unique := []; tbl_rows := [] |})).
  { unfold connect_execute in H1. simpl in H1.
    destruct (lookup_object local s); [done|]. injection H1 as <-.
    apply lookup_set_object_eq. }
  apply when_extends in H2, H3; try done.
  assert (Hl3 : lookup_object local s3 = Some (Table
            {| tbl_columns := [not_null "hash"; not_null "value"];
               tbl_unique := []; tbl_rows := [] |})).
  { by apply H3, H2. }
  assert (Hs4 : s4 = set_object features (Table
            {| tbl_columns := [not_null "hash"];
               tbl_unique := [["hash"]]; tbl_rows := [] |}) s3).
  { unfold connect_execute in H4. simpl in H4.
    destruct (lookup_object features s3); [done|]. by injection H4 as <-. }
  assert (Hs5 : s5 = s4).
  { unfold connect_execute in H5.
    destruct (exec _ s4); cbn [mbind outcome_bind] in H5; [|done|done].
    by injection H5. }
  subst s5.
  assert (Hs' : objects s' = objects s4 ∧
                {| trg_name := features +:+ "_dval"; trg_on := local;
                   trg_into := features |} ∈ triggers s').
  { unfold connect_execute in H6. simpl in H6.
    destruct (existsb _ _); [done|].
    destruct (lookup_object local s4) as [[t|]|]; [|done|done].
    injection H6 as <-. split; [done|]. simpl.
    apply elem_of_app. right. by apply list_elem_of_singleton. }
  destruct Hs' as [Hobj Htrg]. split; [done|]. split; [eauto|].
  eexists _, _. unfold lookup_object. rewrite Hobj. fold (lookup_object local s4).
  fold (lookup_object features s4). subst s4.
  rewrite lookup_set_object_ne by done. rewrite lookup_set_object_eq.
  split; [exact Hl3|]. split; [done|].
  split; [by repeat split|]. split; [constructor|].
  intros h Hh. by apply elem_of_nil in Hh.
Qed.

(** After [init_database], a context of [dbinfo] whose tables [local] and
    [features] were not there has its scaffold, and its invariant holds. *)
Lemma init_database_scaffold dbinfo s s' context :
  context ∈ db_contexts dbinfo →
  mem (prepend_context "local" context) (db_tables dbinfo) = false →
  mem (prepend_context "features" context) (db_tables dbinfo) = false →
  prepend_context "local" context ≠ prepend_context "features" context →
  init_database dbinfo s = Ok s' →
  scaffold (prepend_context "local" context) (prepend_context "features" context) s'
    = true ∧
  registered (prepend_context "local" context) (prepend_context "features" context) s'
    = true.
Proof.
  intros Hin Hlocal Hfeatures Hne. unfold init_database.
  destruct (for_each (init_context dbinfo) _ s) as [s1| |] eqn:H1;
    cbn [mbind outcome_bind]; [|done|done].
  intros H2. apply registry_state_spec.
  apply (registry_state_extends _ _ s1).
  { apply (for_each_extends _ _ (init_translator_extends dbinfo) _ _ H2). }
  clear H2. revert s s1 H1 Hin.
  induction (db_contexts dbinfo) as [|c l IH]; intros s s1; cbn [for_each].
  - by intros _ ?%elem_of_nil.
  - destruct (init_context dbinfo s c) as [s0| |] eqn:H0;
      cbn [mbind outcome_bind]; [|done|done].
    intros Hrest [->|Hin]%elem_of_cons.
    + apply (registry_state_extends _ _ s0).
      * apply (for_each_extends _ _ (init_context_extends dbinfo) _ _ Hrest).
      * by apply (init_context_fresh dbinfo s).
    + by apply (IH s0).
Qed.

(** C1. Once the scaffold of a context exists in a store (the table
    [local], the registry table [features] and the trigger from the one to
    the other), every sequence of insertions into [local] keeps the scaffold
    and the identity-registry invariant: every hash that occurs in [local]
    is the hash of exactly one row of [features]. *)
Theorem registry_invariant_preserved (local features : string) (s : store)
    (steps : list (conflict * option (list string) * list (list string))) :
  scaffold local features s = true →
  registered local features s = true →
  scaffold local features (insertions local steps s) = true ∧
  registered local features (insertions local steps s) = true.
Proof.
  intros Hsc Hreg. apply registry_state_spec.
  assert (Hs : registry_state local features s) by by apply registry_state_spec.
  clear Hsc Hreg. revert s Hs. unfold insertions.
  induction steps as [|[[c cols] rows] steps IH]; intros s Hs; simpl; [done|].
  apply IH. unfold after.
  destruct (exec (InsertValues c local cols rows) s) as [s'| |] eqn:He; [|done|done].
  cbn [exec] in He. destruct rows as [|vals rows]; [done|].
  apply insert_values_Ok in He.
  by apply (insert_rows_registry_state _ _ _ _ _ _ _ Hs He).
Qed.

(** *** Statements keep the objects of the catalogue *)






(** *** Tabular import *)














(** *** Discovery of the features *)

Lemma note_column_eq table type all_virtual path fi col :
  note_column table type all_virtual (context_from_name table)
    (make_alnum_ul (basename path)) fi col =
  if String.eqb (col_name col) "hash" then fi
  else <[feature_name table col := feature_entry path all_virtual table type col]> fi.
Proof. done. Qed.

Section Columns.

Variables (table : string) (type : objtype) (all_virtual : bool) (path : string).

Lemma note_columns_sound cols : ∀ (fi : gmap string finfo) f info,
  foldl (note_column table type all_virtual (context_from_name table)
           (make_alnum_ul (basename path))) fi cols !! f = Some info →
  fi !! f = Some info ∨
  ∃ col, col ∈ cols ∧ col_name col ≠ "hash" ∧ f = feature_name table col ∧
         info = feature_entry path all_virtual table type col.
Proof.
  induction cols as [|col cols IH]; intros fi f info; simpl; [by left|].
  intros [Hfi|(col' & Hin & Hrest)]%IH.
  - rewrite note_column_eq in Hfi.
    destruct (String.eqb_spec (col_name col) "hash") as [Hh|Hh]; [by left|].
    apply lookup_insert_Some in Hfi as [[<- <-]|[_ Hfi]]; [|by left].
    right. exists col. split; [apply elem_of_cons; by left|done].
  - right. exists col'. split; [apply elem_of_cons; by right|done].
Qed.

Lemma note_columns_complete cols : ∀ (fi : gmap string finfo) f,
  is_Some (fi !! f) ∨
  (∃ col, col ∈ cols ∧ col_name col ≠ "hash" ∧ f = feature_name table col) →
  is_Some (foldl (note_column table type all_virtual (context_from_name table)
           (make_alnum_ul (basename path))) fi cols !! f).
Proof.
  induction cols as [|col cols IH]; intros fi f; simpl.
  - intros [?|(? & ?%elem_of_nil & _)]; done.
  - intros Hf. apply IH. rewrite note_column_eq.
    destruct Hf as [Hf|(col' & [->|Hin]%elem_of_cons & Hne & ->)].
    + left. destruct (String.eqb (col_name col) "hash"); [done|].
      rewrite lookup_insert. case_decide; eauto.
    + left. rewrite (proj2 (String.eqb_neq _ _)) by done.
      rewrite lookup_insert_eq. eauto.
    + right. eauto.
Qed.

End Columns.

Lemma extract_table_features at_path path all_virtual self self' table type :
  extract_table at_path (make_alnum_ul (basename path)) all_virtual self (table, type)
    = Ok self' →
  ∃ cols, table_info table at_path = Ok cols ∧
    feature_infos self' =
      foldl (note_column table type all_virtual (context_from_name table)
               (make_alnum_ul (basename path))) (feature_infos self) cols.
Proof.
  unfold extract_table.
  destruct (table_info table at_path) as [cols| |]; simpl; [|done|done].
  intros [= <-]. by exists cols.
Qed.

Lemma extract_tables_sound at_path path all_virtual tables : ∀ self self' f info,
  for_each (extract_table at_path (make_alnum_ul (basename path)) all_virtual)
    tables self = Ok self' →
  feature_infos self' !! f = Some info →
  feature_infos self !! f = Some info ∨
  ∃ table type cols col,
    (table, type) ∈ tables ∧ table_info table at_path = Ok cols ∧ col ∈ cols ∧
    col_name col ≠ "hash" ∧ f = feature_name table col ∧
    info = feature_entry path all_virtual table type col.
Proof.
  induction tables as [|[table type] tables IH]; intros self self' f info;
    cbn [for_each].
  - intros [= <-]. by left.
  - destruct (extract_table _ _ _ self (table, type)) as [self1| |] eqn:H1;
      cbn [mbind outcome_bind]; [|done|done].
    intros Hrest Hf. destruct (IH _ _ _ _ Hrest Hf) as [Hf1|Hlater].
    + apply extract_table_features in H1 as (cols & Hcols & Hfi).
      rewrite Hfi in Hf1. apply note_columns_sound in Hf1 as [?|(col & ? & ? & ? & ?)];
        [by left|].
      right. exists table, type, cols, col. split; [apply elem_of_cons; by left|done].
    + destruct Hlater as (table' & type' & cols & col & Hin & Hrest').
      right. exists table', type', cols, col. split; [apply elem_of_cons; by right|done].
Qed.

Lemma extract_tables_complete at_path path all_virtual tables : ∀ self self' f,
  for_each (extract_table at_path (make_alnum_ul (basename path)) all_virtual)
    tables self = Ok self' →
  is_Some (feature_infos self !! f) ∨
  (∃ table type cols col,
     (table, type) ∈ tables ∧ table_info table at_path = Ok cols ∧ col ∈ cols ∧
     col_name col ≠ "hash" ∧ f = feature_name table col) →
  is_Some (feature_infos self' !! f).
Proof.
  induction tables as [|[table type] tables IH]; intros self self' f;
    cbn [for_each].
  - intros [= <-]. intros [?|(? & ? & ? & ? & ?%elem_of_nil & _)]; done.
  - destruct (extract_table _ _ _ self (table, type)) as [self1| |] eqn:H1;
      cbn [mbind outcome_bind]; [|done|done].
    intros Hrest Hf. apply (IH _ _ _ Hrest).
    apply extract_table_features in H1 as (cols & Hcols & Hfi).
    destruct Hf as [Hf|(table' & type' & cols' & col & [Heq|Hin]%elem_of_cons & Hc & Hrest')].
    + left. rewrite Hfi. apply note_columns_complete. by left.
    + simplify_eq. left. rewrite Hfi.
      rewrite Hcols in Hc. injection Hc as <-.
      apply note_columns_complete. right. by exists col.
    + right. by exists table', type', cols', col.
Qed.

Lemma extract_infos_sound path all_virtual at_path self self' f info :
  extract_infos path all_virtual at_path self = Ok self' →
  feature_infos self' !! f = Some info →
  feature_infos self !! f = Some info ∨ produces path all_virtual at_path f info.
Proof.
  unfold extract_infos. intros He Hf.
  by destruct (extract_tables_sound _ _ _ _ _ _ _ _ He Hf) as [?|?]; [left|right].
Qed.

Lemma extract_infos_complete path all_virtual at_path self self' f :
  extract_infos path all_virtual at_path self = Ok self' →
  is_Some (feature_infos self !! f) ∨ (∃ info, produces path all_virtual at_path f info) →
  is_Some (feature_infos self' !! f).
Proof.
  unfold extract_infos. intros He Hf.
  apply (extract_tables_complete _ _ _ _ _ _ _ He).
  destruct Hf as [?|(info & table & type & cols & col & ? & ? & ? & ? & ? & _)];
    [by left|right]. by exists table, type, cols, col.
Qed.

Lemma discover_sound stores : ∀ self0 self f info,
  discover stores self0 = Ok self →
  feature_infos self !! f = Some info →
  feature_infos self0 !! f = Some info ∨ origin stores f info.
Proof.
  unfold discover.
  induction stores as [|[[path all_virtual] at_path] stores IH];
    intros self0 self f info; cbn [for_each].
  - intros [= <-]. by left.
  - destruct (extract_infos path all_virtual at_path self0) as [self1| |] eqn:H1;
      cbn [mbind outcome_bind]; [|done|done].
    intros Hrest Hf. destruct (IH _ _ _ _ Hrest Hf) as [Hf1|(p & av & s & Hin & Hp)].
    + destruct (extract_infos_sound _ _ _ _ _ _ _ H1 Hf1) as [?|Hp]; [by left|].
      right. exists path, all_virtual, at_path. split; [apply elem_of_cons; by left|done].
    + right. exists p, av, s. split; [apply elem_of_cons; by right|done].
Qed.

Lemma discover_complete stores : ∀ self0 self f,
  discover stores self0 = Ok self →
  is_Some (feature_infos self0 !! f) ∨ (∃ info, origin stores f info) →
  is_Some (feature_infos self !! f).
Proof.
  unfold discover.
  induction stores as [|[[path all_virtual] at_path] stores IH];
    intros self0 self f; cbn [for_each].
  - intros [= <-]. intros [?|(? & ? & ? & ? & ?%elem_of_nil & _)]; done.
  - destruct (extract_infos path all_virtual at_path self0) as [self1| |] eqn:H1;
      cbn [mbind outcome_bind]; [|done|done].
    intros Hrest Hf. apply (IH _ _ _ Hrest).
    destruct Hf as [Hf|(info & p & av & s & [Heq|Hin]%elem_of_cons & Hp)].
    + left. apply (extract_infos_complete _ _ _ _ _ _ H1). by left.
    + simplify_eq. left. apply (extract_infos_complete _ _ _ _ _ _ H1). right. eauto.
    + right. exists info, p, av, s. done.
Qed.

Lemma for_each_ext {A S} (f g : S → A → outcome S) l :
  (∀ s a, f s a = g s a) → ∀ s, for_each f l s = for_each g l s.
Proof.
  intros Hfg. induction l as [|a l IH]; intros s; simpl; [done|].
  rewrite Hfg. destruct (g s a); simpl; auto.
Qed.

Lemma lookup_forget_rows name s :
  lookup_object name (forget_rows s) =
  (λ o, match o with
        | Table t => Table (with_rows t [])
        | View cols src => View cols src
        end) <$> lookup_object name s.
Proof.
  unfold lookup_object, forget_rows. simpl.
  induction (objects s) as [|[k o] l IH]; simpl; [done|].
  by destruct (String.eqb k name).
Qed.

Lemma sql_tables_forget_rows s : sql_tables (forget_rows s) = sql_tables s.
Proof.
  unfold sql_tables, forget_rows. simpl.
  induction (objects s) as [|[k o] l IH]; [done|].
  cbn -[internal_name] in *.
  destruct (internal_name k); [done|].
  rewrite IH. by destruct o.
Qed.

Lemma table_info_forget_rows name s :
  table_info name (forget_rows s) = table_info name s.
Proof.
  unfold table_info. rewrite lookup_forget_rows.
  destruct (lookup_object name s) as [[t|cols src]|]; simpl; [done| |done].
  rewrite lookup_forget_rows. by destruct (lookup_object src s).
Qed.

Lemma extract_infos_forget_rows path all_virtual s self :
  extract_infos path all_virtual (forget_rows s) self =
  extract_infos path all_virtual s self.
Proof.
  unfold extract_infos. rewrite sql_tables_forget_rows.
  apply for_each_ext. intros self' [table type]. unfold extract_table.
  by rewrite table_info_forget_rows.
Qed.

Lemma discover_schemas stores : ∀ self,
  discover (schemas stores) self = discover stores self.
Proof.
  unfold discover, schemas.
  induction stores as [|[[path all_virtual] s] stores IH]; intros self; simpl; [done|].
  rewrite extract_infos_forget_rows.
  destruct (extract_infos path all_virtual s self); simpl; auto.
Qed.

(** C7. After discovery has run over the stores of the federation, every
    feature name that some column of some store gives rise to resolves, and
    it resolves to exactly one entry, which names a store, a table and a
    column that give rise to it; and the map depends on nothing but the
    schemas of the stores (it starts empty and is the same for any other
    contents of the tables). *)
Theorem feature_names_resolve (stores : list (string * bool * store))
    (self0 self : Database) :
  feature_infos self0 = ∅ →
  discover stores self0 = Ok self →
  (∀ f, (∃ info, origin stores f info) ↔ is_Some (feature_infos self !! f)) ∧
  (∀ f info, feature_infos self !! f = Some info →
     origin stores f info ∧
     ∀ info', feature_infos self !! f = Some info' → info' = info) ∧
  (∀ stores', schemas stores' = schemas stores → discover stores' self0 = Ok self).
Proof.
  intros Hempty Hd. split; [|split].
  - intros f. split.
    + intros Horigin. apply (discover_complete _ _ _ _ Hd). by right.
    + intros [info Hf]. exists info.
      destruct (discover_sound _ _ _ _ _ Hd Hf) as [Hf0|?]; [|done].
      by rewrite Hempty, lookup_empty in Hf0.
  - intros f info Hf. split.
    + destruct (discover_sound _ _ _ _ _ Hd Hf) as [Hf0|?]; [|done].
      by rewrite Hempty, lookup_empty in Hf0.
    + intros info' Hf'. congruence.
  - intros stores' Hs. by rewrite <- (discover_schemas stores'), Hs, discover_schemas.
Qed.

(** *** The degree-sequence fingerprint *)

Lemma key_le_spec a b :
  key_le a b = true ↔ a.1 < b.1 ∨ (a.1 = b.1 ∧ a.2 ≤ b.2).
Proof.
  unfold key_le. rewrite orb_true_iff, andb_true_iff.
  rewrite Z.ltb_lt, Z.eqb_eq, Z.leb_le. done.
Qed.

Global Instance key_order_trans : Transitive key_order.
Proof. intros a b c. unfold key_order. rewrite !key_le_spec. lia. Qed.

Global Instance key_order_antisymm : AntiSymm (=) key_order.
Proof.
  intros [a1 a2] [b1 b2]. unfold key_order. rewrite !key_le_spec. simpl.
  intros H1 H2. f_equal; lia.
Qed.

Lemma key_order_total a b : key_order a b ∨ key_order b a.
Proof. unfold key_order. rewrite !key_le_spec. lia. Qed.

Lemma sort_insert_perm t l : sort_insert t l ≡ₚ t :: l.
Proof.
  induction l as [|t' l IH]; simpl; [done|].
  destruct (key_le _ _); [done|]. rewrite IH. apply Permutation_swap.
Qed.

Lemma sort_degrees_perm l : sort_degrees l ≡ₚ l.
Proof.
  induction l as [|t l IH]; simpl; [done|]. by rewrite sort_insert_perm, IH.
Qed.

Lemma sort_insert_sorted t l :
  StronglySorted key_order (map sort_key l) →
  StronglySorted key_order (map sort_key (sort_insert t l)).
Proof.
  induction l as [|t' l IH]; simpl.
  - intros _. repeat constructor.
  - intros Hs. apply StronglySorted_inv in Hs as [Hs Hall].
    destruct (key_le (sort_key t) (sort_key t')) eqn:Hle; simpl.
    + constructor; [by constructor|]. constructor; [done|].
      eapply Forall_impl; [exact Hall|]. intros k Hk. by transitivity (sort_key t').
    + constructor; [by apply IH|].
      rewrite sort_insert_perm. simpl. constructor; [|done].
      destruct (key_order_total (sort_key t) (sort_key t')) as [H|H]; [|done].
      unfold key_order in H. congruence.
Qed.

Lemma sort_degrees_sorted l :
  StronglySorted key_order (map sort_key (sort_degrees l)).
Proof.
  induction l as [|t l IH]; simpl; [constructor|]. by apply sort_insert_sorted.
Qed.

Lemma sorted_keys_perm l1 l2 :
  l1 ≡ₚ l2 →
  map sort_key (sort_degrees l1) = map sort_key (sort_degrees l2).
Proof.
  intros Hp. apply (StronglySorted_unique key_order); try apply sort_degrees_sorted.
  apply Permutation_map. by rewrite !sort_degrees_perm.
Qed.

Lemma digest_input_keys l1 : ∀ l2,
  map sort_key l1 = map sort_key l2 → digest_input l1 = digest_input l2.
Proof.
  induction l1 as [|t1 l1 IH]; intros [|t2 l2]; simpl; try done.
  intros [= H1 H2 Hrest]. by rewrite H1, H2, (IH l2).
Qed.

Lemma count_literals_ints tokens : ∀ d,
  for_each count_literal tokens d = nums ← ints tokens; Ok (foldl count_num d nums).
Proof.
  induction tokens as [|lit tokens IH]; intros d; cbn [for_each ints]; [done|].
  unfold count_literal in *.
  destruct (int lit) as [num| |]; cbn [mbind outcome_bind]; [|done|done].
  rewrite IH. by destruct (ints tokens).
Qed.

Lemma count_lines_literals lines : ∀ d,
  for_each count_line lines d = ls ← literals_of lines; Ok (foldl count_num d ls).
Proof.
  induction lines as [|line lines IH]; intros d; cbn [for_each literals_of]; [done|].
  unfold count_line, literals_of_line.
  destruct (is_clause_line _).
  - rewrite count_literals_ints.
    destruct (ints _) as [nums| |]; cbn [mbind outcome_bind]; [|done|done].
    rewrite IH. destruct (literals_of lines); cbn [mbind outcome_bind]; [|done|done].
    by rewrite foldl_app.
  - cbn [mbind outcome_bind]. rewrite IH. by destruct (literals_of lines).
Qed.

Lemma degrees_of_literals lines :
  degrees_of lines = ls ← literals_of lines; Ok (foldl count_num [] ls).
Proof. apply count_lines_literals. Qed.

Section Renaming.

Variable sigma : Z → Z.
Hypothesis sigma_inj : ∀ x y, 0 ≤ x → 0 ≤ y → sigma x = sigma y → x = y.
Hypothesis sigma_pos : ∀ x, 0 < x → 0 < sigma x.
Hypothesis sigma_zero : 0 ≤ sigma 0.

Lemma sigma_nonneg x : 0 ≤ x → 0 ≤ sigma x.
Proof.
  intros Hx. destruct (decide (x = 0)) as [->|Hne]; [done|].
  assert (0 < sigma x) by (apply sigma_pos; lia). lia.
Qed.

Lemma rename_abs lit : Z.abs (rename sigma lit) = sigma (Z.abs lit).
Proof.
  unfold rename. pose proof (sigma_nonneg (Z.abs lit) (Z.abs_nonneg lit)).
  destruct (Z.ltb_spec lit 0); lia.
Qed.

Lemma rename_sign lit : (rename sigma lit <? 0) = (lit <? 0).
Proof.
  unfold rename. destruct (Z.ltb_spec lit 0) as [Hneg|Hpos].
  - assert (0 < sigma (Z.abs lit)) by (apply sigma_pos; lia).
    apply Z.ltb_lt. lia.
  - pose proof (sigma_nonneg (Z.abs lit) (Z.abs_nonneg lit)).
    apply Z.ltb_ge. lia.
Qed.

Lemma degrees_get_rename k dflt d :
  0 ≤ k → nonneg_keys d →
  degrees_get (sigma k) dflt (rename_keys sigma d) = degrees_get k dflt d.
Proof.
  intros Hk. induction 1 as [|[k' v] d Hk' _ IH]; simpl; [done|].
  simpl in Hk'. destruct (Z.eqb_spec k' k) as [->|Hne].
  - by rewrite Z.eqb_refl.
  - destruct (Z.eqb_spec (sigma k') (sigma k)) as [Heq|_]; [|done].
    apply sigma_inj in Heq; done.
Qed.

Lemma degrees_set_rename k v d :
  0 ≤ k → nonneg_keys d →
  degrees_set (sigma k) v (rename_keys sigma d) = rename_keys sigma (degrees_set k v d).
Proof.
  intros Hk. induction 1 as [|[k' v'] d Hk' _ IH]; simpl; [done|].
  simpl in Hk'. destruct (Z.eqb_spec k' k) as [->|Hne].
  - by rewrite Z.eqb_refl.
  - destruct (Z.eqb_spec (sigma k') (sigma k)) as [Heq|_].
    + apply sigma_inj in Heq; done.
    + simpl. by rewrite IH.
Qed.

Lemma degrees_set_nonneg k v d :
  0 ≤ k → nonneg_keys d → nonneg_keys (degrees_set k v d).
Proof.
  intros Hk. induction 1 as [|[k' v'] d Hk' Hd IH]; simpl.
  - by repeat constructor.
  - destruct (k' =? k); constructor; done.
Qed.

Lemma count_num_rename d num :
  nonneg_keys d →
  count_num (rename_keys sigma d) (rename sigma num) =
    rename_keys sigma (count_num d num) ∧
  nonneg_keys (count_num d num).
Proof.
  intros Hd. unfold count_num. rewrite rename_abs, rename_sign.
  pose proof (Z.abs_nonneg num).
  rewrite degrees_get_rename, degrees_set_rename by done.
  split; [done|]. by apply degrees_set_nonneg.
Qed.

Lemma count_nums_rename nums : ∀ d,
  nonneg_keys d →
  foldl count_num (rename_keys sigma d) (map (rename sigma) nums) =
    rename_keys sigma (foldl count_num d nums).
Proof.
  induction nums as [|num nums IH]; intros d Hd; simpl; [done|].
  destruct (count_num_rename d num Hd) as [-> Hd']. by apply IH.
Qed.

Lemma rename_keys_values d : map snd (rename_keys sigma d) = map snd d.
Proof. unfold rename_keys. rewrite map_map. done. Qed.

Lemma renamed_degree_list nums :
  map snd (foldl count_num [] (map (rename sigma) nums)) =
  map snd (foldl count_num [] nums).
Proof.
  rewrite <- (rename_keys_values (foldl count_num [] nums)).
  rewrite <- count_nums_rename by constructor. done.
Qed.

End Renaming.

(** C6. The fingerprint of an instance is a function of the multiset of
    the per-variable pairs (positive occurrences, negative occurrences)
    alone: what is fed to the digest is the sequence of the keys (sum,
    absolute difference) of the pairs in ascending order, so two instances
    with the same multiset of pairs get the same digest; and two instances
    that differ by a renaming of the variables that keeps the polarity of
    every literal have the same pairs, hence the same digest. *)
Theorem degree_sequence_hash_invariant (hv : string) (lines1 lines2 : list string) :
  (∀ l, StronglySorted key_order (map sort_key (sort_degrees l)) ∧
        sort_degrees l ≡ₚ l) ∧
  (∀ d1 d2,
     degrees_of lines1 = Ok d1 → degrees_of lines2 = Ok d2 →
     map snd d1 ≡ₚ map snd d2 →
     compute_degree_sequence_hash hv lines1 = compute_degree_sequence_hash hv lines2) ∧
  (∀ sigma nums,
     (∀ x y, 0 ≤ x → 0 ≤ y → sigma x = sigma y → x = y) →
     (∀ x, 0 < x → 0 < sigma x) →
     0 ≤ sigma 0 →
     literals_of lines1 = Ok nums →
     literals_of lines2 = Ok (map (rename sigma) nums) →
     compute_degree_sequence_hash hv lines1 = compute_degree_sequence_hash hv lines2 ∧
     ∃ r, compute_degree_sequence_hash hv lines1 = Ok r).
Proof.
  assert (Hperm : ∀ d1 d2,
     degrees_of lines1 = Ok d1 → degrees_of lines2 = Ok d2 →
     map snd d1 ≡ₚ map snd d2 →
     compute_degree_sequence_hash hv lines1 = compute_degree_sequence_hash hv lines2).
  { intros d1 d2 H1 H2 Hp. unfold compute_degree_sequence_hash.
    rewrite H1, H2. simpl. do 5 f_equal.
    apply digest_input_keys. by apply sorted_keys_perm. }
  split; [|split; [exact Hperm|]].
  - intros l. split; [apply sort_degrees_sorted|apply sort_degrees_perm].
  - intros sigma nums Hinj Hpos H0 H1 H2. split.
    + eapply Hperm.
      * rewrite degrees_of_literals, H1. done.
      * rewrite degrees_of_literals, H2. done.
      * by rewrite renamed_degree_list.
    + unfold compute_degree_sequence_hash.
      rewrite degrees_of_literals, H1. simpl. eauto.
Qed.

End Properties.

(** ** The properties at the sample data *)

Example sample_scaffold_built :
  init_database (E := sample_externals) sample_dbinfo sample_empty = Ok sample_scaffold.
Proof. vm_compute. reflexivity. Qed.

Example sample_db_built :
  calls [create_feature (E := sample_externals) "tag" None;
         create_feature (E := sample_externals) "family" (Some "empty");
         insert (E := sample_externals) "local" "/bench/a.cnf" ["a"] false;
         insert (E := sample_externals) "local" "/bench/b.cnf" ["b"] false;
         insert (E := sample_externals) "tag" "value1" ["a"] false;
         insert (E := sample_externals) "family" "sat" ["a"] true]
    {| database_infos := [("test_db", sample_dbinfo)];
       feature_infos := sample_features;
       connection := [sample_scaffold] |} = sample_db.
Proof. vm_compute. reflexivity. Qed.

Lemma registry_invariant_preserved_witness :
  scaffold "local" "features" sample_scaffold = true ∧
  registered "local" "features" sample_scaffold = true ∧
  let s' := insertions (E := sample_externals) "local"
              [(Abort, Some ["hash"; "value"], [["a"; "/bench/a.cnf"]; ["a"; "/copy/a.cnf"]]);
               (Abort, Some ["hash"], [["b"]]);
               (Replace, Some ["hash"; "value"], [["c"; "/bench/c.cnf"]])]
              sample_scaffold in
  scaffold "local" "features" s' = true ∧
  registered "local" "features" s' = true ∧
  hashes_of (table_of "local" s') = ["a"; "a"; "c"] ∧
  hashes_of (table_of "features" s') = ["a"; "c"].
Proof.
  split; [reflexivity|]. split; [reflexivity|]. cbv zeta.
  split; [|split; [|split; vm_compute; reflexivity]];
    apply (registry_invariant_preserved (E := sample_externals)); reflexivity.
Defined.

Lemma multivalued_insert_witness :
  insert (E := sample_externals) "tag" "value1" ["a"] false sample_db
    = Raise (IntegrityError UniqueFailed) ∧
  ∃ self' s' t',
    insert (E := sample_externals) "tag" "value2" ["a"] false sample_db = Ok self' ∧
    find_store "tag" (connection self') = Some s' ∧
    lookup_object "tag" s' = Some (Table t') ∧
    multivalued t' ∧
    tbl_rows t' = tbl_rows sample_tag ++ [{["hash" := "a"; "value" := "value2"]}] ∧
    holds_pair "a" "value1" t' = true ∧
    holds_pair "a" "value2" t' = true.
Proof.
  apply (multivalued_insert (E := sample_externals) sample_db "tag" "a" "value1" "value2"
           (sample_info "tag" "value" None) sample_main sample_tag);
    try reflexivity.
  - repeat split.
  - repeat split.
Defined.

Lemma forced_insert_without_default_witness :
  (∀ value hashes force,
     insert (E := sample_externals) "tag" value hashes force sample_db =
     insert (E := sample_externals) "tag" value hashes false sample_db) ∧
  insert (E := sample_externals) "tag" "value1" ["a"] true sample_db
    = Raise (IntegrityError UniqueFailed).
Proof.
  destruct (forced_insert_without_default (E := sample_externals) sample_db "tag"
              (sample_info "tag" "value" None) eq_refl eq_refl) as (Hsame & _ & Hfail).
  split; [exact Hsame|].
  apply (Hfail "a" "value1" sample_main sample_tag); try reflexivity; repeat split.
Defined.

Lemma create_feature_again_witness :
  ∃ self1,
    create_feature (E := sample_externals) "solver" None sample_db = Ok self1 ∧
    create_feature (E := sample_externals) "solver" None self1 = Ok self1.
Proof.
  eexists. split; [vm_compute; reflexivity|].
  apply (create_feature_again (E := sample_externals) sample_db _ "solver" None).
  vm_compute. reflexivity.
Defined.

(** C3 as stated fails for the shape with a default value: the second call
    raises. *)
Lemma create_feature_default_twice :
  ∃ self1,
    create_feature (E := sample_externals) "result" (Some "unknown") sample_db = Ok self1 ∧
    create_feature (E := sample_externals) "result" (Some "unknown") self1
      = Raise (OperationalError DuplicateColumn).
Proof. eexists. split; vm_compute; reflexivity. Qed.

Lemma delete_hashes_scoped_witness :
  (∃ self' s' t',
     delete_hashes (E := sample_externals) "family" ["a"; "c"] sample_db = Ok self' ∧
     find_store "features" (connection self') = Some s' ∧
     lookup_object "features" s' = Some (Table t') ∧
     hashes_of t' = ["b"; "a"; "c"] ∧
     select_hash "family" "empty" t' = ["b"; "a"; "c"]) ∧
  (∃ self' s' t',
     delete_hashes (E := sample_externals) "tag" ["a"] sample_db = Ok self' ∧
     find_store "tag" (connection self') = Some s' ∧
     lookup_object "tag" s' = Some (Table t') ∧
     tbl_rows t' = []).
Proof.
  split.
  - destruct (delete_hashes_scoped (E := sample_externals) sample_db "family" ["a"; "c"]
                (sample_info "features" "family" (Some "empty")) sample_main sample_registry
                eq_refl) as [Hdefault _]; [done|].
    destruct (Hdefault "empty") as (self' & s' & t' & Hcall & Hfind & Hlook & _);
      try reflexivity; [done|repeat split|].
    exists self', s', t'. repeat (split; [assumption|]).
    vm_compute in Hcall. injection Hcall as <-.
    vm_compute in Hfind. injection Hfind as <-.
    vm_compute in Hlook. injection Hlook as <-.
    split; vm_compute; reflexivity.
  - destruct (delete_hashes_scoped (E := sample_externals) sample_db "tag" ["a"]
                (sample_info "tag" "value" None) sample_main sample_tag
                eq_refl) as [_ Hnull]; [done|].
    destruct Hnull as (self' & s' & t' & Hcall & Hfind & Hlook & _);
      try reflexivity.
    exists self', s', t'. repeat (split; [assumption|]).
    vm_compute in Hcall. injection Hcall as <-.
    vm_compute in Hfind. injection Hfind as <-.
    vm_compute in Hlook. injection Hlook as <-.
    reflexivity.
Defined.

Lemma delete_values_scoped_witness :
  delete_values (E := sample_externals) "family" ["sat"] sample_db
    = Raise (OperationalError SyntaxError) ∧
  ∃ self' s' t',
    delete_values (E := sample_externals) "tag" ["value1"] sample_db = Ok self' ∧
    find_store "tag" (connection self') = Some s' ∧
    lookup_object "tag" s' = Some (Table t') ∧
    tbl_rows t' = [].
Proof.
  split.
  - destruct (delete_values_scoped (E := sample_externals) sample_db "family" ["sat"]
                (sample_info "features" "family" (Some "empty")) eq_refl) as [Hraise _].
    by apply (Hraise "empty").
  - destruct (delete_values_scoped (E := sample_externals) sample_db "tag" ["value1"]
                (sample_info "tag" "value" None) eq_refl) as [_ Hnull].
    destruct (Hnull sample_main sample_tag) as (self' & s' & t' & Hcall & Hfind & Hlook & _);
      try reflexivity; [done|].
    exists self', s', t'. repeat (split; [assumption|]).
    vm_compute in Hcall. injection Hcall as <-.
    vm_compute in Hfind. injection Hfind as <-.
    vm_compute in Hlook. injection Hlook as <-.
    reflexivity.
Defined.

Lemma degree_sequence_hash_invariant_witness :
  literals_of sample_lines = Ok [1; -2; 2] ∧
  literals_of sample_lines_renamed = Ok (map (rename sample_sigma) [1; -2; 2]) ∧
  compute_degree_sequence_hash (E := sample_externals) "a" sample_lines =
  compute_degree_sequence_hash (E := sample_externals) "a" sample_lines_renamed ∧
  compute_degree_sequence_hash (E := sample_externals) "a" sample_lines =
    Ok {| hashvalue := "a";
          attributes := [(REPLACE, "degree_sequence_hash", "1 1 2 0 ")] |}.
Proof.
  split; [vm_compute; reflexivity|]. split; [vm_compute; reflexivity|].
  destruct (degree_sequence_hash_invariant (E := sample_externals) "a"
              sample_lines sample_lines_renamed) as (_ & _ & Hrename).
  destruct (Hrename sample_sigma [1; -2; 2]) as [Hsame _].
  - unfold sample_sigma. intros x y Hx Hy.
    destruct (Z.eqb_spec x 1), (Z.eqb_spec x 2), (Z.eqb_spec y 1), (Z.eqb_spec y 2); lia.
  - unfold sample_sigma. intros x Hx.
    destruct (Z.eqb_spec x 1), (Z.eqb_spec x 2); lia.
  - vm_compute. discriminate.
  - vm_compute. reflexivity.
  - vm_compute. reflexivity.
  - split; [exact Hsame|]. vm_compute. reflexivity.
Defined.

Lemma feature_names_resolve_witness :
  ∃ self,
    discover (E := sample_externals) sample_stores sample_start = Ok self ∧
    feature_infos self !! "family" =
      Some {| f_table := "cnf_data_csv"; f_column := "family"; f_default := None;
              f_virtual := true; f_context := "cnf";
              f_database := "file__memory__cache_shared" |} ∧
    origin (E := sample_externals) sample_stores "family"
      {| f_table := "cnf_data_csv"; f_column := "family"; f_default := None;
         f_virtual := true; f_context := "cnf";
         f_database := "file__memory__cache_shared" |} ∧
    feature_infos self !! "tag" =
      Some {| f_table := "tag"; f_column := "value"; f_default := None;
              f_virtual := false; f_context := "cnf"; f_database := "test_db" |}.
Proof.
  eexists. split; [vm_compute; reflexivity|].
  split; [vm_compute; reflexivity|]. split; [|vm_compute; reflexivity].
  eapply (feature_names_resolve (E := sample_externals) sample_stores sample_start);
    [reflexivity|vm_compute; reflexivity|vm_compute; reflexivity].
Defined.

Lemma is_database_valid_store_witness :
  is_database sample_files "good.db" = true ∧
  is_database sample_files "new.db" = true ∧
  is_database sample_files "data.csv" = false ∧
  startup_action sample_files "data.csv" = ImportCsv ∧
  startup_action sample_files "missing.db" = CreateStore.
Proof.
  split; [|split; [|split; [|split]]].
  - destruct (is_database_valid_store sample_files "good.db") as (Hvalid & _).
    apply Hvalid. eexists. split; [reflexivity|].
    right. split; [vm_compute; lia|reflexivity].
  - destruct (is_database_valid_store sample_files "new.db") as (Hvalid & _).
    apply Hvalid. eexists. split; [reflexivity|]. by left.
  - destruct (is_database_valid_store sample_files "data.csv") as (_ & Hsmall & _).
    eapply Hsmall; [reflexivity|]. vm_compute. lia.
  - destruct (is_database_valid_store sample_files "data.csv") as (_ & _ & Himport & _).
    apply Himport. split; [by eexists|reflexivity].
  - reflexivity.
Defined.



(** * Further properties *)

Section Further.

Context {E : Externals}.

(** ** The fingerprint *)

Lemma ints_outcome tokens :
  (∃ nums, ints tokens = Ok nums ∧
           Forall (λ tok, ∃ n, int tok = Ok n) tokens) ∨
  (ints tokens = Raise ValueError ∧
   Exists (λ tok, int tok = Raise ValueError) tokens).
Proof.
  induction tokens as [|tok tokens IH]; cbn [ints].
  - left. eexists. split; [done|constructor].
  - unfold int at 1 3 4. destruct (match tok with [] => _ | _ => _ end) as [n|] eqn:Hp.
    + cbn [mbind outcome_bind].
      assert (Htok : int tok = Ok n) by (unfold int; by rewrite Hp).
      destruct IH as [(nums & -> & Hall)|[-> Hex]]; cbn [mbind outcome_bind].
      * left. eexists. split; [done|]. constructor; eauto.
      * right. split; [done|]. by apply Exists_cons_tl.
    + right. split; [done|]. apply Exists_cons_hd. unfold int. by rewrite Hp.
Qed.

Lemma literals_of_line_outcome line :
  (literals_of_line line = Ok (line_literals line) ∧
   Forall (λ tok, ∃ n, int tok = Ok n) (tokens_read line)) ∨
  (literals_of_line line = Raise ValueError ∧
   Exists (λ tok, int tok = Raise ValueError) (tokens_read line)).
Proof.
  unfold line_literals, tokens_read, clause_line, literals_of_line.
  destruct (is_clause_line _).
  - destruct (ints_outcome (clause_tokens (strip (String.list_ascii_of_string line))))
      as [(nums & -> & Hall)|[-> Hex]]; [by left|by right].
  - left. split; [done|constructor].
Qed.

Lemma literals_of_outcome lines :
  (literals_of lines = Ok (flat_map line_literals lines) ∧
   Forall (λ line, Forall (λ tok, ∃ n, int tok = Ok n) (tokens_read line)) lines) ∨
  (literals_of lines = Raise ValueError ∧
   Exists (λ line, Exists (λ tok, int tok = Raise ValueError) (tokens_read line)) lines).
Proof.
  induction lines as [|line lines IH]; cbn [literals_of flat_map].
  - left. split; [done|constructor].
  - destruct (literals_of_line_outcome line) as [[-> Hall]|[-> Hex]];
      cbn [mbind outcome_bind].
    + destruct IH as [[-> Hall']|[-> Hex']]; cbn [mbind outcome_bind].
      * left. split; [done|by constructor].
      * right. split; [done|by apply Exists_cons_tl].
    + right. split; [done|by apply Exists_cons_hd].
Qed.

Lemma compute_of_literals hv lines :
  compute_degree_sequence_hash hv lines =
    nums ← literals_of lines;
    Ok {| hashvalue := hv;
          attributes :=
            [(REPLACE, "degree_sequence_hash",
              md5_hexdigest
                (digest_input (sort_degrees (map snd (foldl count_num [] nums)))))] |}.
Proof.
  unfold compute_degree_sequence_hash. rewrite degrees_of_literals.
  by destruct (literals_of lines).
Qed.

Lemma sorted_keys_of_keys l1 l2 :
  map sort_key l1 ≡ₚ map sort_key l2 →
  map sort_key (sort_degrees l1) = map sort_key (sort_degrees l2).
Proof.
  intros Hp. apply (StronglySorted_unique key_order); try apply sort_degrees_sorted.
  rewrite (Permutation_map sort_key (sort_degrees_perm l1)).
  by rewrite (Permutation_map sort_key (sort_degrees_perm l2)).
Qed.

Lemma digest_of_keys l1 l2 :
  map sort_key l1 ≡ₚ map sort_key l2 →
  digest_input (sort_degrees l1) = digest_input (sort_degrees l2).
Proof. intros Hp. apply digest_input_keys. by apply sorted_keys_of_keys. Qed.

(** *** The dict as a finite map *)

Lemma degrees_get_lookup k dflt (d : degrees_dict) :
  degrees_get k dflt d = default dflt ((list_to_map d : gmap Z (Z * Z)) !! k).
Proof.
  induction d as [|[k' v] d IH]; cbn [degrees_get list_to_map foldr]; [done|].
  destruct (Z.eqb_spec k' k) as [->|Hne].
  - by rewrite lookup_insert_eq.
  - by rewrite lookup_insert_ne.
Qed.

Lemma degrees_set_insert k v (d : degrees_dict) :
  (list_to_map (degrees_set k v d) : gmap Z (Z * Z)) = <[k := v]> (list_to_map d).
Proof.
  induction d as [|[k' v'] d IH]; cbn [degrees_set list_to_map foldr]; [done|].
  destruct (Z.eqb_spec k' k) as [->|Hne]; cbn [list_to_map foldr].
  - by rewrite insert_insert_eq.
  - rewrite IH. by apply insert_insert_ne.
Qed.

Lemma degrees_set_keys k v (d : degrees_dict) :
  NoDup d.*1 → NoDup (degrees_set k v d).*1 ∧
  ∀ k', k' ∈ (degrees_set k v d).*1 ↔ k' = k ∨ k' ∈ d.*1.
Proof.
  induction d as [|[k' v'] d IH]; cbn [degrees_set fmap list_fmap].
  - intros _. split.
    + cbn. apply NoDup_singleton.
    + intros k'. cbn. rewrite list_elem_of_singleton. split; [by left|].
      intros [?|Hin]; [done|]. by apply elem_of_nil in Hin.
  - intros Hnd. apply NoDup_cons in Hnd as [Hnotin Hnd]. simpl in Hnotin.
    destruct (Z.eqb_spec k' k) as [->|Hne]; cbn.
    + split; [by apply NoDup_cons|]. intros k'. rewrite !elem_of_cons. tauto.
    + destruct (IH Hnd) as [Hnd' Hin]. split.
      * apply NoDup_cons. split; [|done]. rewrite Hin.
        intros [?|?]; [by apply Hne|done].
      * intros k''. rewrite !elem_of_cons, Hin. simpl. tauto.
Qed.

Lemma count_num_map (d : degrees_dict) num :
  (list_to_map (count_num d num) : gmap Z (Z * Z)) = count_map (list_to_map d) num.
Proof.
  unfold count_num, count_map. rewrite degrees_set_insert, degrees_get_lookup. done.
Qed.

Lemma count_nums_map nums : ∀ (d : degrees_dict),
  (list_to_map (foldl count_num d nums) : gmap Z (Z * Z)) =
    foldl count_map (list_to_map d) nums.
Proof.
  induction nums as [|num nums IH]; intros d; cbn [foldl]; [done|].
  by rewrite IH, count_num_map.
Qed.

Lemma count_nums_keys nums : ∀ (d : degrees_dict),
  NoDup d.*1 → NoDup (foldl count_num d nums).*1.
Proof.
  induction nums as [|num nums IH]; intros d Hd; cbn [foldl]; [done|].
  apply IH. unfold count_num. by apply degrees_set_keys.
Qed.

Lemma count_map_comm m x y :
  count_map (count_map m x) y = count_map (count_map m y) x.
Proof.
  unfold count_map. destruct (decide (Z.abs x = Z.abs y)) as [Heq|Hne].
  - rewrite Heq, !lookup_insert_eq, !insert_insert_eq. f_equal. cbn [default].
    destruct (m !! Z.abs y) as [[p n]|]; cbn [default fst snd];
      destruct (x <? 0), (y <? 0); cbn [fst snd]; f_equal; lia.
  - rewrite !lookup_insert_ne by done. by apply insert_insert_ne.
Qed.

Lemma count_maps_perm nums1 nums2 :
  nums1 ≡ₚ nums2 → ∀ m, foldl count_map m nums1 = foldl count_map m nums2.
Proof.
  induction 1 as [|x l1 l2 _ IH|x y l|l1 l2 l3 _ IH1 _ IH2]; intros m; cbn [foldl].
  - done.
  - apply IH.
  - by rewrite count_map_comm.
  - by rewrite IH1.
Qed.

Lemma degree_lists_perm nums1 nums2 :
  nums1 ≡ₚ nums2 →
  map snd (foldl count_num [] nums1) ≡ₚ map snd (foldl count_num [] nums2).
Proof.
  intros Hp. apply Permutation_map.
  rewrite <- (map_to_list_to_map (foldl count_num [] nums1))
    by (apply count_nums_keys; constructor).
  rewrite <- (map_to_list_to_map (foldl count_num [] nums2))
    by (apply count_nums_keys; constructor).
  rewrite !count_nums_map. by rewrite (count_maps_perm _ _ Hp).
Qed.

(** *** Polarity *)

Section Polarity.

Variable S : Z → bool.

Lemma flip_abs lit : Z.abs (flip S lit) = Z.abs lit.
Proof. unfold flip. destruct (S _); lia. Qed.

Lemma degrees_get_flip k tup (d : degrees_dict) :
  degrees_get k (if S k && negb (k =? 0) then (tup.2, tup.1) else tup) (flip_counts S d) =
    let v := degrees_get k tup d in
    if S k && negb (k =? 0) then (v.2, v.1) else v.
Proof.
  induction d as [|[k' v'] d IH]; cbn [degrees_get flip_counts map fst snd]; [done|].
  destruct (Z.eqb_spec k' k) as [->|Hne]; [done|]. exact IH.
Qed.

Lemma degrees_set_flip k v (d : degrees_dict) :
  degrees_set k (if S k && negb (k =? 0) then (v.2, v.1) else v) (flip_counts S d) =
    flip_counts S (degrees_set k v d).
Proof.
  induction d as [|[k' v'] d IH]; cbn [degrees_set flip_counts map fst snd]; [done|].
  destruct (Z.eqb_spec k' k) as [->|Hne]; cbn [map fst snd]; [done|].
  f_equal. exact IH.
Qed.

Lemma count_num_flip (d : degrees_dict) num :
  count_num (flip_counts S d) (flip S num) = flip_counts S (count_num d num).
Proof.
  unfold count_num. rewrite flip_abs, <- degrees_set_flip.
  pose proof (degrees_get_flip (Z.abs num) (0, 0) d) as Hget.
  assert (Hdflt : (if S (Z.abs num) && negb (Z.abs num =? 0) then ((0, 0).2, (0, 0).1)
                   else (0, 0)) = (0, 0)) by (by destruct (_ && _)).
  rewrite Hdflt in Hget. rewrite Hget. cbv zeta.
  destruct (degrees_get (Z.abs num) (0, 0) d) as [p n]. unfold flip.
  destruct (S (Z.abs num)); cbn [andb fst snd]; [|done].
  destruct (Z.eqb_spec (Z.abs num) 0) as [H0|Hne]; cbn [negb].
  - assert (num = 0) as -> by lia. done.
  - destruct (Z.ltb_spec num 0), (Z.ltb_spec (- num) 0); try lia; done.
Qed.

Lemma count_nums_flip nums : ∀ d : degrees_dict,
  foldl count_num (flip_counts S d) (map (flip S) nums) =
    flip_counts S (foldl count_num d nums).
Proof.
  induction nums as [|num nums IH]; intros d; cbn [foldl map]; [done|].
  by rewrite count_num_flip, IH.
Qed.

Lemma flip_counts_keys (d : degrees_dict) :
  map sort_key (map snd (flip_counts S d)) = map sort_key (map snd d).
Proof.
  unfold flip_counts. rewrite !map_map. apply map_ext. intros [k [p n]].
  cbn [fst snd]. destruct (_ && _); [|done].
  unfold sort_key. cbn [fst snd]. f_equal; lia.
Qed.

End Polarity.

(** X1. The fingerprint does not depend on the order in which the file
    lists its clauses, nor on the order of the literals: two files whose
    lines are a rearrangement of each other have the same outcome (the same
    record, or ValueError both), and two files that are read without error
    and whose literals are a rearrangement of each other have the same
    record. *)
Theorem fingerprint_order (hv : string) (lines1 lines2 : list string) :
  (lines1 ≡ₚ lines2 →
   compute_degree_sequence_hash hv lines1 = compute_degree_sequence_hash hv lines2) ∧
  (∀ nums1 nums2,
     literals_of lines1 = Ok nums1 → literals_of lines2 = Ok nums2 →
     nums1 ≡ₚ nums2 →
     compute_degree_sequence_hash hv lines1 = compute_degree_sequence_hash hv lines2).
Proof.
  assert (Hnums : ∀ nums1 nums2,
     literals_of lines1 = Ok nums1 → literals_of lines2 = Ok nums2 →
     nums1 ≡ₚ nums2 →
     compute_degree_sequence_hash hv lines1 = compute_degree_sequence_hash hv lines2).
  { intros nums1 nums2 H1 H2 Hp. rewrite !compute_of_literals, H1, H2.
    cbn [mbind outcome_bind]. do 5 f_equal.
    apply digest_of_keys, Permutation_map. by apply degree_lists_perm. }
  split; [|exact Hnums].
  intros Hp.
  destruct (literals_of_outcome lines1) as [[H1 Hall1]|[H1 Hex1]],
           (literals_of_outcome lines2) as [[H2 Hall2]|[H2 Hex2]].
  - eapply Hnums; [exact H1|exact H2|]. by apply Permutation_flat_map.
  - exfalso. rewrite Hp in Hall1. apply Exists_exists in Hex2 as (line & Hin & Hex).
    rewrite Forall_forall in Hall1. specialize (Hall1 line Hin).
    apply Exists_exists in Hex as (tok & Htok & Hbad).
    rewrite Forall_forall in Hall1. destruct (Hall1 tok Htok) as [n Hn]. congruence.
  - exfalso. rewrite <- Hp in Hall2. apply Exists_exists in Hex1 as (line & Hin & Hex).
    rewrite Forall_forall in Hall2. specialize (Hall2 line Hin).
    apply Exists_exists in Hex as (tok & Htok & Hbad).
    rewrite Forall_forall in Hall2. destruct (Hall2 tok Htok) as [n Hn]. congruence.
  - by rewrite !compute_of_literals, H1, H2.
Qed.

(** X2. The fingerprint does not see polarity: when every literal of the
    variables of a set has its sign turned round (of all variables, for
    one), the record is the same.  The digest is fed the sum and the
    absolute difference of the two counts of a variable, and both are the
    same for (p, n) and (n, p). *)
Theorem fingerprint_polarity (hv : string) (lines1 lines2 : list string)
    (S : Z → bool) (nums : list Z) :
  literals_of lines1 = Ok nums →
  literals_of lines2 = Ok (map (flip S) nums) →
  compute_degree_sequence_hash hv lines1 = compute_degree_sequence_hash hv lines2.
Proof.
  intros H1 H2. rewrite !compute_of_literals, H1, H2. cbn [mbind outcome_bind].
  do 5 f_equal. apply digest_of_keys.
  rewrite <- (flip_counts_keys S (foldl count_num [] nums)).
  by rewrite <- count_nums_flip.
Qed.

Lemma for_each_filter {A X} (body : X → A → outcome X) (keep : A → bool) l :
  (∀ x a, keep a = false → body x a = Ok x) →
  ∀ x, for_each body (List.filter keep l) x = for_each body l x.
Proof.
  intros Hskip. induction l as [|a l IH]; intros x; cbn [List.filter for_each]; [done|].
  destruct (keep a) eqn:Hk; cbn [for_each].
  - destruct (body x a); cbn [mbind outcome_bind]; [apply IH|done|done].
  - rewrite (Hskip x a Hk). cbn [mbind outcome_bind]. apply IH.
Qed.

(** X3. Lines that are blank, or whose first character after the white
    space is [p] or [c], play no part: the outcome for a file is the
    outcome for its clause lines alone, and a file without clause lines gets
    the digest of the empty text. *)
Theorem fingerprint_skips_lines (hv : string) (lines : list string) :
  compute_degree_sequence_hash hv (List.filter clause_line lines) =
    compute_degree_sequence_hash hv lines ∧
  (List.filter clause_line lines = [] →
   compute_degree_sequence_hash hv lines =
     Ok {| hashvalue := hv;
           attributes :=
             [(REPLACE, "degree_sequence_hash", md5_hexdigest EmptyString)] |}).
Proof.
  assert (Heq : compute_degree_sequence_hash hv (List.filter clause_line lines) =
                compute_degree_sequence_hash hv lines).
  { unfold compute_degree_sequence_hash, degrees_of.
    rewrite for_each_filter; [done|].
    intros d line Hk. unfold count_line. unfold clause_line in Hk. by rewrite Hk. }
  split; [exact Heq|]. intros Hnone. rewrite <- Heq, Hnone. done.
Qed.

(** X4. The only way [compute_degree_sequence_hash] fails on the lines of a
    file is the ValueError of [int]: it raises exactly when some clause line
    has a token before its last one that is no integer literal, and it
    returns a record otherwise.  The last token of a line is never looked
    at. *)
Theorem fingerprint_value_error (hv : string) (lines : list string) :
  (compute_degree_sequence_hash hv lines = Raise ValueError ↔
   ∃ line tok, line ∈ lines ∧ tok ∈ tokens_read line ∧ int tok = Raise ValueError) ∧
  ((∃ r, compute_degree_sequence_hash hv lines = Ok r) ↔
   ∀ line tok, line ∈ lines → tok ∈ tokens_read line → ∃ n, int tok = Ok n).
Proof.
  rewrite compute_of_literals.
  destruct (literals_of_outcome lines) as [[-> Hall]|[-> Hex]]; cbn [mbind outcome_bind].
  - assert (Hgood : ∀ line tok, line ∈ lines → tok ∈ tokens_read line → ∃ n, int tok = Ok n).
    { intros line tok Hin Htok. rewrite Forall_forall in Hall.
      specialize (Hall line Hin). rewrite Forall_forall in Hall. by apply Hall. }
    split; split.
    + done.
    + intros (line & tok & Hin & Htok & Hbad).
      destruct (Hgood line tok Hin Htok) as [n Hn]. congruence.
    + intros _. exact Hgood.
    + intros _. eauto.
  - apply Exists_exists in Hex as (line & Hin & Hex).
    apply Exists_exists in Hex as (tok & Htok & Hbad).
    split; split.
    + intros _. eauto 6.
    + done.
    + intros [r Hr]. done.
    + intros Hgood. destruct (Hgood line tok Hin Htok) as [n Hn]. congruence.
Qed.

(** ** Values of features *)

Lemma delete_literals_found self feature col s t :
  find_store feature (connection self) = Some s →
  lookup_object feature s = Some (Table t) →
  mem col (column_names t) = true →
  ∃ self' s' t',
    execute (DeleteWhereIn feature col [EmptyString]) self = Ok self' ∧
    find_store feature (connection self') = Some s' ∧
    lookup_object feature s' = Some (Table t') ∧
    tbl_columns t' = tbl_columns t ∧
    ∀ r : row, r ∈ tbl_rows t' ↔ r ∈ tbl_rows t ∧ r !! col ≠ Some EmptyString.
Proof.
  intros Hf Hl Hc.
  destruct (delete_found self feature col [EmptyString] s t Hf Hl Hc)
    as (self' & s' & He & Hf' & Hl').
  eexists self', s', _. split; [done|]. split; [done|]. split; [done|].
  split; [done|]. intros r. cbn [tbl_rows with_rows]. rewrite elem_of_deleted.
  split; intros [Hr Hv]; (split; [done|]).
  - intros Hrc. apply (Hv _ Hrc). by apply list_elem_of_singleton.
  - intros v Hrc Hin. apply list_elem_of_singleton in Hin as ->. done.
Qed.

(** X5. With an empty list of identities [insert] is no no-op: the text
    ends after VALUES and the engine rejects it, and so does [delete_hashes]
    on a feature with a default, which goes through [insert].  On a feature
    whose default is null [delete_hashes] and [delete_values] with an empty
    list are no no-op either: the list in the text is [('')], and the rows
    whose hash, or value, is the empty text are removed. *)
Theorem no_identities_given (self : Database) (feature : string) (info : finfo) :
  feature_infos self !! feature = Some info →
  (∀ value force,
     insert feature value [] force self = Raise (OperationalError SyntaxError)) ∧
  (∀ d, f_default info = Some d →
     delete_hashes feature [] self = Raise (OperationalError SyntaxError)) ∧
  (∀ s t,
     f_default info = None →
     find_store feature (connection self) = Some s →
     lookup_object feature s = Some (Table t) →
     mem "hash" (column_names t) = true →
     ∃ self' s' t',
       delete_hashes feature [] self = Ok self' ∧
       find_store feature (connection self') = Some s' ∧
       lookup_object feature s' = Some (Table t') ∧
       tbl_columns t' = tbl_columns t ∧
       ∀ r : row, r ∈ tbl_rows t' ↔ r ∈ tbl_rows t ∧ r !! "hash" ≠ Some EmptyString) ∧
  (∀ s t,
     f_default info = None →
     find_store feature (connection self) = Some s →
     lookup_object feature s = Some (Table t) →
     mem "value" (column_names t) = true →
     ∃ self' s' t',
       delete_values feature [] self = Ok self' ∧
       find_store feature (connection self') = Some s' ∧
       lookup_object feature s' = Some (Table t') ∧
       tbl_columns t' = tbl_columns t ∧
       ∀ r : row, r ∈ tbl_rows t' ↔ r ∈ tbl_rows t ∧ r !! "value" ≠ Some EmptyString).
Proof.
  intros Hi. split; [|split; [|split]].
  - intros value force. unfold insert, info_of. rewrite Hi. done.
  - intros d Hd. unfold delete_hashes, insert, info_of. rewrite Hi.
    cbn [mbind outcome_bind]. rewrite Hd. done.
  - intros s t Hd Hf Hl Hc.
    unfold delete_hashes, info_of. rewrite Hi. cbn [mbind outcome_bind]. rewrite Hd.
    by apply (delete_literals_found self feature "hash" s t).
  - intros s t Hd Hf Hl Hc.
    unfold delete_values, info_of. rewrite Hi. cbn [mbind outcome_bind]. rewrite Hd.
    by apply (delete_literals_found self feature "value" s t).
Qed.

(** *** Plain inserts into a registry table *)

Lemma insert_row_Abort_registry s name t c h v :
  lookup_object name s = Some (Table t) →
  registry t →
  mem c (column_names t) = true →
  triggers_on name s = [] →
  insert_row Abort name (Some ["hash"; c]) [h; v] s =
    if mem h (hashes_of t) then Raise (IntegrityError UniqueFailed)
    else Ok (set_object name
               (Table (with_rows t (tbl_rows t ++ [build_row t ["hash"; c] [h; v]]))) s).
Proof.
  intros Hl Hreg Hc Htr. unfold insert_row, get_table. rewrite Hl. simpl.
  pose proof Hreg as (Hh & _ & _). rewrite Hh, Hc. simpl.
  unfold place_row. rewrite build_row_notnull_ok by done. cbn [negb].
  rewrite (existsb_collides_registry _ _ h) by (done || apply build_row_hash).
  destruct (mem h (hashes_of t)); [done|]. by rewrite Htr.
Qed.

Lemma registry_with_rows t rows : registry t → registry (with_rows t rows).
Proof. done. Qed.

Lemma hashes_of_app t (r : row) h :
  r !! "hash" = Some h →
  hashes_of (with_rows t (tbl_rows t ++ [r])) = hashes_of t ++ [h].
Proof.
  intros Hh. unfold hashes_of. cbn [tbl_rows with_rows].
  rewrite omap_app. cbn [omap list_omap]. by rewrite Hh.
Qed.

Lemma insert_rows_Abort_registered hashes : ∀ s name t c v h,
  lookup_object name s = Some (Table t) →
  registry t →
  mem c (column_names t) = true →
  triggers_on name s = [] →
  h ∈ hashes → h ∈ hashes_of t →
  insert_rows Abort name (Some ["hash"; c]) (map (λ hash, [hash; v]) hashes) s =
    Raise (IntegrityError UniqueFailed).
Proof.
  induction hashes as [|h0 hashes IH]; intros s name t c v h Hl Hreg Hc Htr Hin Hreg_h.
  - by apply elem_of_nil in Hin.
  - cbn [map insert_rows]. rewrite (insert_row_Abort_registry _ _ t) by done.
    destruct (mem h0 (hashes_of t)) eqn:Hm; [done|]. cbn [mbind outcome_bind].
    apply elem_of_cons in Hin as [->|Hin].
    { apply mem_spec in Hreg_h. congruence. }
    apply (IH _ _ (with_rows t (tbl_rows t ++ [build_row t ["hash"; c] [h0; v]])) _ _ h);
      try done.
    + apply lookup_set_object_eq.
    + rewrite (hashes_of_app _ _ h0) by apply build_row_hash.
      apply elem_of_app. by left.
Qed.

(** X6. A plain insert cannot give a value to an identity that the registry
    table knows: a feature with a default is a column of that table, whose
    hash is UNIQUE, so [INSERT INTO features (hash, column)] with the hash of
    a row that is there raises the constraint error, whatever the other
    identities of the call are.  Only the forced form, REPLACE, sets the
    value of a registered identity. *)
Theorem plain_insert_registered (self : Database) (feature value : string)
    (hashes : list string) (force : bool) (info : finfo) (s : store) (t : table)
    (h : string) :
  feature_infos self !! feature = Some info →
  insert_method force info = Abort →
  find_store (f_table info) (connection self) = Some s →
  lookup_object (f_table info) s = Some (Table t) →
  registry t →
  mem (f_column info) (column_names t) = true →
  triggers_on (f_table info) s = [] →
  forallb dq_free (value :: hashes) = true →
  h ∈ hashes → h ∈ hashes_of t →
  insert feature value hashes force self = Raise (IntegrityError UniqueFailed).
Proof.
  intros Hi Hm Hf Hl Hreg Hc Htr Hq Hin Hh.
  assert (Hne : hashes ≠ []) by (intros ->; by apply elem_of_nil in Hin).
  rewrite (insert_found _ _ _ _ _ info s) by done. rewrite Hm.
  rewrite (insert_values_no_triggers _ _ _ _ _ t) by done.
  by rewrite (insert_rows_Abort_registered _ _ _ t _ _ h).
Qed.

(** *** Forced inserts *)

Section Forced.

Variables c d : string.

Lemma defaults_overwrite_row h t : defaults (overwrite_row c d h t) = defaults t.
Proof. done. Qed.

Lemma build_row_fold hashes : ∀ t cols vals,
  build_row (foldl (λ t h, overwrite_row c d h t) t hashes) cols vals =
    build_row t cols vals.
Proof.
  induction hashes as [|h l IH]; intros t cols vals; cbn [foldl]; [done|].
  by rewrite IH.
Qed.

Lemma fold_untouched hashes : ∀ t h (r : row),
  registry t → h ∉ hashes →
  r ∈ tbl_rows (foldl (λ t h, overwrite_row c d h t) t hashes) →
  r !! "hash" = Some h → r ∈ tbl_rows t.
Proof.
  induction hashes as [|h0 l IH]; intros t h r Hreg Hn Hr Hh; cbn [foldl] in Hr; [done|].
  apply not_elem_of_cons in Hn as [Hne Hn].
  apply (IH _ h) in Hr; [|done|done|done].
  apply (elem_of_overwrite_row _ _ _ _ _ Hreg) in Hr as [[Hr _]| ->]; [done|].
  rewrite build_row_hash in Hh. congruence.
Qed.

Lemma fold_fresh hashes : ∀ t h (r : row),
  registry t → h ∈ hashes →
  r ∈ tbl_rows (foldl (λ t h, overwrite_row c d h t) t hashes) →
  r !! "hash" = Some h →
  r = build_row t ["hash"; c] [h; d].
Proof.
  induction hashes as [|h0 l IH]; intros t h r Hreg Hin Hr Hh; cbn [foldl] in Hr.
  - by apply elem_of_nil in Hin.
  - destruct (decide (h ∈ l)) as [Hl|Hl].
    + by apply (IH (overwrite_row c d h0 t)).
    + apply elem_of_cons in Hin as [->|Hin]; [|done].
      apply (fold_untouched _ _ h0) in Hr; [|done|done|done].
      apply (elem_of_overwrite_row _ _ _ _ _ Hreg) in Hr as [[_ Hne]| ->]; done.
Qed.

End Forced.

(** X7. A forced insert of a value for a feature with a default is [REPLACE
    INTO features (hash, column)]: the row of each given identity is taken
    out and a new row is put in, which holds the value in the feature's
    column and, in every other column, what a new row gets there.  So the
    query for the value returns the identity, and every other feature the
    registry table keeps for that identity is back at its default. *)
Theorem forced_insert_resets (self : Database) (feature value : string)
    (hashes : list string) (info : finfo) (s : store) (t : table) :
  feature_infos self !! feature = Some info →
  truthy (f_default info) = true →
  f_column info ≠ "hash" →
  find_store (f_table info) (connection self) = Some s →
  lookup_object (f_table info) s = Some (Table t) →
  registry t →
  mem (f_column info) (column_names t) = true →
  triggers_on (f_table info) s = [] →
  hashes ≠ [] →
  forallb dq_free (value :: hashes) = true →
  ∃ self' s' t',
    insert feature value hashes true self = Ok self' ∧
    find_store (f_table info) (connection self') = Some s' ∧
    lookup_object (f_table info) s' = Some (Table t') ∧
    tbl_columns t' = tbl_columns t ∧
    ∀ h, h ∈ hashes →
      mem h (select_hash (f_column info) value t') = true ∧
      ∀ r : row, r ∈ tbl_rows t' → r !! "hash" = Some h →
        r !! f_column info = Some value ∧
        ∀ col, col ≠ "hash" → col ≠ f_column info → r !! col = defaults t !! col.
Proof.
  intros Hi Htruthy Hcol Hf Hl Hreg Hmem Htr Hne Hq.
  rewrite (insert_found _ _ _ _ _ info s) by done.
  unfold insert_method. rewrite Htruthy. cbn [andb].
  rewrite (insert_values_no_triggers _ _ _ _ _ t) by done.
  rewrite (insert_rows_Replace_registry _ _ _ t) by done. cbn [mbind outcome_bind].
  eexists _, _, _. split; [done|]. cbn [connection with_connection]. split.
  { apply find_put_store; [by rewrite Hf|]. rewrite lookup_set_object_eq. eauto. }
  split; [apply lookup_set_object_eq|].
  split; [apply fold_columns|].
  intros h Hh.
  destruct (fold_overwritten (f_column info) value Hcol hashes t h Hreg Hh) as [Hpresent Hgood].
  split.
  - apply mem_spec, elem_of_select_hash.
    unfold hashes_of in Hpresent. apply list_elem_of_omap in Hpresent as (r & Hr & Hrh).
    exists r. split; [done|]. split; [|done]. by apply Hgood.
  - intros r Hr Hrh. split; [by apply Hgood|].
    intros col Hc1 Hc2.
    rewrite (fold_fresh (f_column info) value hashes t h r Hreg Hh Hr Hrh).
    unfold build_row. rewrite lookup_union_r; [done|].
    cbn [zip zip_with list_to_map foldr].
    rewrite !lookup_insert_ne by done. apply lookup_empty.
Qed.

(** ** Creation of features *)

Lemma select_hash_filled name v (rows : list row) (cols : list column) u :
  name ≠ "hash" →
  select_hash name v
    {| tbl_columns := cols; tbl_unique := u;
       tbl_rows := map (λ r : row, <[name := v]> r) rows |} =
  omap (λ r : row, r !! "hash") rows.
Proof.
  intros Hne. unfold select_hash. cbn [tbl_rows].
  induction rows as [|r rows IH]; cbn [map List.filter omap list_omap]; [done|].
  rewrite lookup_insert_eq, bool_decide_eq_true_2 by done.
  cbn [omap list_omap]. rewrite lookup_insert_ne by done.
  change (list_omap ?f ?l) with (omap f l). rewrite IH. done.
Qed.

(** X8. A feature created with a default value becomes a column of the
    registry table of its context, NOT NULL with that default, and every
    identity the table knows holds the default at once: the query for the
    default returns all of them.  This is for a name and a default that the
    statement takes as they are (a plain name, a plain word or number as
    default) and a table that has no column under any spelling of the name.
    The object itself does not learn about the feature: [feature_infos] is
    as before, so a call of [insert] for the new name on the same object
    raises KeyError. *)
Theorem create_feature_default_fills (self : Database) (name dv : string)
    (s : store) (t : table) :
  let features := prepend_context "features" (context_from_name name) in
  plain_name name = true →
  plain_default dv = true →
  find_store features (connection self) = Some s →
  lookup_object features s = Some (Table t) →
  mem name (column_names t) = false →
  existsb (case_variant name) (column_names t) = false →
  ∃ self' s' t',
    create_feature name (Some dv) self = Ok self' ∧
    find_store features (connection self') = Some s' ∧
    lookup_object features s' = Some (Table t') ∧
    tbl_columns t' =
      tbl_columns t ++ [{| col_name := name; col_notnull := true; col_default := Some dv |}] ∧
    tbl_rows t' = map (λ r : row, <[name := eval_default dv]> r) (tbl_rows t) ∧
    (name ≠ "hash" → select_hash name (eval_default dv) t' = hashes_of t) ∧
    feature_infos self' = feature_infos self ∧
    (feature_infos self !! name = None →
     ∀ value hashes force,
       insert name value hashes force self' = Raise (KeyError name)).
Proof.
  intros features Hpn Hpd Hf Hl Hm Hcv. unfold create_feature. fold features.
  rewrite Hpn, Hpd. cbn [andb negb].
  unfold column_clash. rewrite Hf, Hl, Hcv.
  rewrite (execute_found _ _ s) by done.
  cbn [exec]. rewrite Hl. cbn [col_name col_default]. rewrite Hm.
  cbn [mbind outcome_bind].
  eexists _, _, _. split; [done|]. cbn [connection with_connection target]. split.
  { apply find_put_store; [by rewrite Hf|]. rewrite lookup_set_object_eq. eauto. }
  split; [apply lookup_set_object_eq|].
  split; [done|]. split; [done|].
  split; [intros Hne; by apply select_hash_filled|].
  split; [done|].
  intros Hnone value hashes force. unfold insert, info_of.
  cbn [feature_infos with_connection]. by rewrite Hnone.
Qed.

(** *** The catalogue *)

Lemma assoc_elem_of {A} k (a : A) l : assoc k l = Some a → (k, a) ∈ l.
Proof.
  induction l as [|[k' a'] l IH]; cbn [assoc]; [done|].
  destruct (String.eqb_spec k' k) as [->|Hne].
  - intros [= ->]. apply elem_of_cons. by left.
  - intros H. apply elem_of_cons. right. by apply IH.
Qed.

Lemma elem_of_assoc {A} k (a : A) l : NoDup l.*1 → (k, a) ∈ l → assoc k l = Some a.
Proof.
  induction l as [|[k' a'] l IH]; cbn [assoc fmap list_fmap]; intros Hnd Hin.
  - by apply elem_of_nil in Hin.
  - apply NoDup_cons in Hnd as [Hk Hnd]. cbn [fst] in Hk.
    apply elem_of_cons in Hin as [[= -> ->]|Hin].
    + by rewrite String.eqb_refl.
    + destruct (String.eqb_spec k' k) as [->|Hne]; [|by apply IH].
      exfalso. apply Hk. apply list_elem_of_fmap. by exists (k, a).
Qed.

Lemma assoc_set_keys {A} k (a : A) l :
  ∀ k', k' ∈ (assoc_set k a l).*1 ↔ k' = k ∨ k' ∈ l.*1.
Proof.
  induction l as [|[k0 a0] l IH]; intros k'; cbn [assoc_set fmap list_fmap].
  - cbn. rewrite list_elem_of_singleton. split; [by left|].
    intros [?|Hin]; [done|]. by apply elem_of_nil in Hin.
  - destruct (String.eqb_spec k0 k) as [->|Hne]; cbn [fmap list_fmap fst].
    + rewrite !elem_of_cons. tauto.
    + rewrite !elem_of_cons, IH. tauto.
Qed.

Lemma assoc_set_NoDup {A} k (a : A) l : NoDup l.*1 → NoDup (assoc_set k a l).*1.
Proof.
  induction l as [|[k0 a0] l IH]; cbn [assoc_set fmap list_fmap].
  - intros _. cbn. apply NoDup_singleton.
  - intros [Hk Hnd]%NoDup_cons. cbn [fst] in Hk.
    destruct (String.eqb_spec k0 k) as [->|Hne]; cbn [fmap list_fmap fst].
    + by apply NoDup_cons.
    + apply NoDup_cons. split; [|by apply IH].
      rewrite assoc_set_keys. intros [?|?]; [by apply Hne|done].
Qed.

Lemma no_columnb_spec name s : no_columnb name s = true → no_column name s.
Proof.
  unfold no_columnb. rewrite forallb_forall. intros Hall table o Hl.
  apply assoc_elem_of, list_elem_of_In, Hall in Hl.
  by apply negb_true_iff, mem_false in Hl.
Qed.

Lemma names_uniqueb_spec s : nodupb (objects s).*1 = true → names_unique s.
Proof. apply nodupb_spec. Qed.

Lemma names_unique_set_object name o s :
  names_unique s → names_unique (set_object name o s).
Proof. apply assoc_set_NoDup. Qed.

Lemma sql_tables_elem table type s :
  (table, type) ∈ sql_tables s ↔
  ∃ o, (table, o) ∈ objects s ∧ internal_name table = false ∧ type = objtype_of o.
Proof.
  unfold sql_tables. rewrite list_elem_of_omap. split.
  - intros ([name o] & Hin & Hsome). destruct (internal_name name) eqn:Hint; [done|].
    injection Hsome as <- <-. exists o. by destruct o.
  - intros (o & Hin & Hint & ->). exists (table, o). split; [done|].
    rewrite Hint. by destruct o.
Qed.

Lemma table_info_columns table s cols o :
  lookup_object table s = Some o →
  table_info table s = Ok cols → cols = object_columns o.
Proof.
  unfold table_info. intros ->. destruct o as [t|vcols src]; [by intros [= <-]|].
  destruct (lookup_object src s); [by intros [= <-]|done].
Qed.

Lemma produces_inv path av s f info :
  names_unique s →
  produces path av s f info →
  ∃ table o col,
    lookup_object table s = Some o ∧ internal_name table = false ∧
    col ∈ object_columns o ∧ col_name col ≠ "hash" ∧
    f = feature_name table col ∧
    info = feature_entry path av table (objtype_of o) col.
Proof.
  intros Hnd (table & type & cols & col & Hin & Hinfo & Hcol & Hne & -> & ->).
  apply sql_tables_elem in Hin as (o & Hin & Hint & ->).
  assert (Hl : lookup_object table s = Some o) by (by apply elem_of_assoc).
  rewrite (table_info_columns _ _ _ _ Hl Hinfo) in Hcol.
  by exists table, o, col.
Qed.

Lemma produces_table path av s table t col :
  lookup_object table s = Some (Table t) →
  internal_name table = false →
  col ∈ tbl_columns t →
  col_name col ≠ "hash" →
  produces path av s (feature_name table col)
    (feature_entry path av table type_table col).
Proof.
  intros Hl Hint Hcol Hne. exists table, type_table, (tbl_columns t), col.
  split; [|split; [|done]].
  - apply sql_tables_elem. exists (Table t). split; [|done]. by apply assoc_elem_of.
  - unfold table_info. by rewrite Hl.
Qed.

Lemma extract_infos_unique path av s self0 self2 f info :
  extract_infos path av s self0 = Ok self2 →
  feature_infos self0 !! f = None →
  produces path av s f info →
  (∀ info', produces path av s f info' → info' = info) →
  feature_infos self2 !! f = Some info.
Proof.
  intros He Hnone Hp Huniq.
  destruct (extract_infos_complete _ _ _ _ _ f He) as [info' Hinfo'].
  { right. by exists info. }
  destruct (extract_infos_sound _ _ _ _ _ _ _ He Hinfo') as [Hold|Hp'].
  - congruence.
  - by rewrite Hinfo', (Huniq info' Hp').
Qed.

Lemma feature_name_inv table col name :
  feature_name table col = name →
  (col_name col = "value" ∧ table = name) ∨ col_name col = name.
Proof.
  unfold feature_name. destruct (String.eqb_spec (col_name col) "value"); auto.
Qed.

(** X9. A feature created without a default is found by the next discovery
    under its name: when the name is a plain one, and no object of the main
    store has that name, in any spelling, or a column of that name,
    [create_feature] makes the table in the main store,
    and [extract_infos] on that store then records the feature with the
    table of its own name, the column [value], no default, and not virtual.
    These are the features of which an identity can hold several values. *)
Theorem created_table_discovered (self : Database) (name : string)
    (s : store) (rest : list store) :
  plain_name name = true →
  connection self = s :: rest →
  names_unique s →
  lookup_object name s = None →
  store_clash name s = false →
  no_column name s →
  internal_name name = false →
  ∃ self1 s1,
    create_feature name None self = Ok self1 ∧
    connection self1 = s1 :: rest ∧
    ∀ path self0 self2,
      feature_infos self0 !! name = None →
      extract_infos path false s1 self0 = Ok self2 →
      feature_infos self2 !! name =
        Some {| f_table := name; f_column := "value"; f_default := None;
                f_virtual := false; f_context := context_from_name name;
                f_database := make_alnum_ul (basename path) |}.
Proof.
  intros Hpn Hconn Hnd Hnone Hcv Hcols Hint.
  assert (Htn : table_name name = true).
  { unfold table_name. rewrite Hpn. unfold internal_name in Hint.
    apply orb_false_iff in Hint as [-> _]. done. }
  unfold create_feature. rewrite Htn, Hconn. cbn [negb main_clash]. rewrite Hcv.
  unfold execute, exec_conn. rewrite Hconn.
  cbn [parses creates negb exec]. rewrite Hnone. cbn [mbind outcome_bind].
  eexists _, _. split; [done|]. split; [done|].
  intros path self0 self2 Hold He.
  set (t := {| tbl_columns := [not_null "hash"; not_null "value"];
               tbl_unique := [["hash"; "value"]]; tbl_rows := [] |}).
  assert (Hl : lookup_object name (set_object name (Table t) s) = Some (Table t))
    by apply lookup_set_object_eq.
  apply (extract_infos_unique _ _ _ _ _ _ _ He Hold).
  - apply (produces_table path false _ name t (not_null "value") Hl Hint); [|done].
    apply elem_of_cons. right. apply elem_of_cons. by left.
  - intros info' Hp.
    apply produces_inv in Hp as (table & o & col & Hlo & _ & Hcol & Hne & Hf & ->);
      [|by apply names_unique_set_object].
    destruct (decide (table = name)) as [->|Hnt].
    + rewrite lookup_set_object_eq in Hlo. injection Hlo as <-.
      cbn [object_columns tbl_columns] in Hcol.
      apply elem_of_cons in Hcol as [->|Hcol]; [done|].
      apply list_elem_of_singleton in Hcol as ->. done.
    + rewrite lookup_set_object_ne in Hlo by done. exfalso.
      symmetry in Hf. apply feature_name_inv in Hf as [[_ ?]|Hc]; [done|].
      apply (Hcols table o Hlo). apply list_elem_of_fmap. by exists col.
Qed.

(** X10. A feature created with a default is found by the next discovery as
    a column of the registry table: for a plain name and a plain word or
    number as default, when nothing in the store of that table has the
    feature's name and the table has no column under another spelling of
    it, [extract_infos] on the store records the feature with the registry
    table, the column of its own name, and the text of the default as
    given. *)
Theorem created_column_discovered (self : Database) (name dv : string)
    (s : store) (t : table) :
  let features := prepend_context "features" (context_from_name name) in
  plain_name name = true →
  plain_default dv = true →
  find_store features (connection self) = Some s →
  lookup_object features s = Some (Table t) →
  existsb (case_variant name) (column_names t) = false →
  names_unique s →
  lookup_object name s = None →
  no_column name s →
  name ≠ "hash" → name ≠ "value" →
  internal_name features = false →
  ∃ self1 s1,
    create_feature name (Some dv) self = Ok self1 ∧
    find_store features (connection self1) = Some s1 ∧
    ∀ path self0 self2,
      feature_infos self0 !! name = None →
      extract_infos path false s1 self0 = Ok self2 →
      feature_infos self2 !! name =
        Some {| f_table := features; f_column := name; f_default := Some dv;
                f_virtual := false; f_context := context_from_name features;
                f_database := make_alnum_ul (basename path) |}.
Proof.
  intros features Hpn Hpd Hf Hlf Hcv Hnd Hnone Hcols Hnh Hnv Hint.
  assert (Hm : mem name (column_names t) = false).
  { apply mem_false. apply (Hcols features (Table t) Hlf). }
  unfold create_feature. fold features.
  rewrite Hpn, Hpd. cbn [andb negb].
  unfold column_clash. rewrite Hf, Hlf, Hcv.
  rewrite (execute_found _ _ s) by done.
  cbn [exec]. rewrite Hlf. cbn [col_name col_default]. rewrite Hm.
  cbn [mbind outcome_bind].
  set (newcol := {| col_name := name; col_notnull := true; col_default := Some dv |}).
  set (t' := {| tbl_columns := tbl_columns t ++ [newcol]; tbl_unique := tbl_unique t;
                tbl_rows := map (λ r : row, <[name := eval_default dv]> r) (tbl_rows t) |}).
  assert (Hl : lookup_object features (set_object features (Table t') s) = Some (Table t'))
    by apply lookup_set_object_eq.
  eexists _, _. split; [done|]. cbn [connection with_connection target]. split.
  { apply find_put_store; [by rewrite Hf|]. rewrite Hl. eauto. }
  intros path self0 self2 Hold He.
  assert (Hfn : feature_name features newcol = name).
  { unfold feature_name. cbn [col_name newcol].
    by rewrite (proj2 (String.eqb_neq _ _) Hnv). }
  apply (extract_infos_unique _ _ _ _ _ _ _ He Hold).
  - rewrite <- Hfn at 1.
    apply (produces_table path false _ features t' newcol Hl Hint).
    + cbn [tbl_columns t']. apply elem_of_app. right. by apply list_elem_of_singleton.
    + done.
  - intros info' Hp.
    apply produces_inv in Hp as (table & o & col & Hlo & _ & Hcol & Hne & Hfe & ->);
      [|by apply names_unique_set_object].
    symmetry in Hfe.
    destruct (decide (table = features)) as [->|Hnt].
    + rewrite lookup_set_object_eq in Hlo. injection Hlo as <-.
      cbn [object_columns tbl_columns] in Hcol.
      apply elem_of_app in Hcol as [Hcol|Hcol].
      * exfalso. apply feature_name_inv in Hfe as [[_ Heq]|Hc].
        -- rewrite <- Heq in Hnone. congruence.
        -- apply (Hcols features (Table t) Hlf). apply list_elem_of_fmap. by exists col.
      * apply list_elem_of_singleton in Hcol as ->. done.
    + rewrite lookup_set_object_ne in Hlo by done. exfalso.
      apply feature_name_inv in Hfe as [[_ Heq]|Hc].
      * rewrite Heq in Hlo. congruence.
      * apply (Hcols table o Hlo). apply list_elem_of_fmap. by exists col.
Qed.

(** ** Deletion of features *)

Lemma assoc_filter_ne {A} k (l : list (string * A)) :
  assoc k (List.filter (λ entry, negb (String.eqb entry.1 k)) l) = None.
Proof.
  induction l as [|[k' a] l IH]; cbn [List.filter fst]; [done|].
  destruct (String.eqb_spec k' k) as [->|Hne]; cbn [negb]; [done|].
  cbn [assoc]. by rewrite (proj2 (String.eqb_neq _ _) Hne).
Qed.

Lemma filter_assoc_None {A} k (l : list (string * A)) :
  assoc k l = None → List.filter (λ entry, negb (String.eqb entry.1 k)) l = l.
Proof.
  induction l as [|[k' a] l IH]; cbn [List.filter fst assoc]; [done|].
  destruct (String.eqb_spec k' k) as [->|Hne]; [done|]. cbn [negb].
  intros H. by rewrite IH.
Qed.

Lemma objects_but_absent name s :
  lookup_object name s = None → objects_but name s = objects s.
Proof. apply filter_assoc_None. Qed.

Lemma lookup_drop_object name s : lookup_object name (drop_object name s) = None.
Proof. apply assoc_filter_ne. Qed.

Lemma drop_table_conn_found name t pre s post :
  Forall (λ s0, lookup_object name s0 = None) pre →
  lookup_object name s = Some (Table t) →
  drop_table_conn name (pre ++ s :: post) = Ok (pre ++ drop_object name s :: post).
Proof.
  intros Hpre Hl. induction Hpre as [|s0 pre H0 _ IH]; cbn [app drop_table_conn].
  - by rewrite Hl.
  - by rewrite H0, IH.
Qed.

Lemma drop_table_conn_view name cols src pre s post :
  Forall (λ s0, lookup_object name s0 = None) pre →
  lookup_object name s = Some (View cols src) →
  drop_table_conn name (pre ++ s :: post) = Raise (OperationalError NotModifiable).
Proof.
  intros Hpre Hl. induction Hpre as [|s0 pre H0 _ IH]; cbn [app drop_table_conn].
  - by rewrite Hl.
  - by rewrite H0, IH.
Qed.

Lemma drop_table_conn_absent name conn :
  Forall (λ s0, lookup_object name s0 = None) conn →
  drop_table_conn name conn = Ok conn.
Proof.
  induction 1 as [|s0 conn H0 _ IH]; cbn [drop_table_conn]; [done|]. by rewrite H0, IH.
Qed.

Lemma drop_trigger_conn_objects name conn :
  map objects (drop_trigger_conn name conn) = map objects conn.
Proof.
  induction conn as [|s conn IH]; cbn [drop_trigger_conn]; [done|].
  destruct (has_trigger name s); cbn [map]; [done|]. by rewrite IH.
Qed.

Lemma exec_resolved_absent q conn :
  Forall (λ s0, lookup_object (target q) s0 = None) conn →
  exec_resolved q conn = Raise (OperationalError NoSuchTable).
Proof.
  induction 1 as [|s0 conn H0 _ IH]; cbn [exec_resolved]; [done|]. by rewrite H0, IH.
Qed.

Lemma Forall_map_objects (P : list (string * object) → Prop) conn conn' :
  map objects conn' = map objects conn →
  Forall (λ s0, P (objects s0)) conn → Forall (λ s0, P (objects s0)) conn'.
Proof.
  revert conn'. induction conn as [|s conn IH]; intros [|s' conn']; cbn [map]; try done.
  intros [= Hs Hrest] [Hp Hall]%Forall_cons. constructor; [by rewrite Hs|by apply IH].
Qed.

(** X11. [delete_feature] is written for features that have a table of
    their own; for a feature kept in a column it raises "Not Implemented"
    before anything is run, and for one kept in a view the engine refuses
    the DROP TABLE.  For a table found in one store of the connection, the
    call removes it and leaves every other object of every store in place.
    The entry of [feature_infos] stays, so the name still resolves and a
    later [insert] fails in the engine, not with KeyError; a second call is
    accepted and removes nothing. *)
Theorem delete_feature_drops (self : Database) (name : string) (info : finfo)
    (pre post : list store) (s : store) :
  feature_infos self !! name = Some info →
  connection self = pre ++ s :: post →
  Forall (λ s0, lookup_object name s0 = None) (pre ++ post) →
  like_prefix "sqlite_" name = false →
  (f_column info ≠ "value" →
   delete_feature name self = Raise (DatabaseException "Not Implemented")) ∧
  (∀ cols src,
     f_column info = "value" → lookup_object name s = Some (View cols src) →
     delete_feature name self = Raise (OperationalError NotModifiable)) ∧
  (∀ t,
     f_column info = "value" → lookup_object name s = Some (Table t) →
     ∃ self',
       delete_feature name self = Ok self' ∧
       feature_infos self' = feature_infos self ∧
       map objects (connection self') = map (objects_but name) (connection self) ∧
       Forall (λ s0, lookup_object name s0 = None) (connection self') ∧
       (f_table info = name →
        ∀ value hashes force,
          hashes ≠ [] → forallb dq_free (value :: hashes) = true →
          insert name value hashes force self' = Raise (OperationalError NoSuchTable)) ∧
       ∃ self'',
         delete_feature name self' = Ok self'' ∧
         map objects (connection self'') = map objects (connection self')).
Proof.
  intros Hi Hconn Hother Hsys.
  apply Forall_app in Hother as [Hpre Hpost].
  split; [|split].
  - intros Hc. unfold delete_feature, info_of. rewrite Hi. cbn [mbind outcome_bind].
    by rewrite (proj2 (String.eqb_neq _ _) Hc).
  - intros cols src Hc Hl. unfold delete_feature, info_of. rewrite Hi.
    cbn [mbind outcome_bind]. rewrite Hc. cbn [String.eqb Ascii.eqb Bool.eqb].
    unfold execute_drop, exec_drop. rewrite Hsys, Hconn.
    by rewrite (drop_table_conn_view _ cols src).
  - intros t Hc Hl.
    assert (Hgone : Forall (λ s0, lookup_object name s0 = None)
                      (pre ++ drop_object name s :: post)).
    { apply Forall_app. split; [done|]. constructor; [apply lookup_drop_object|done]. }
    assert (Hobjs : map objects (pre ++ drop_object name s :: post) =
                    map (objects_but name) (pre ++ s :: post)).
    { rewrite !map_app. cbn [map]. f_equal; [|f_equal].
      - apply map_ext_Forall. eapply Forall_impl; [exact Hpre|].
        intros s0 H0. by rewrite objects_but_absent.
      - apply map_ext_Forall. eapply Forall_impl; [exact Hpost|].
        intros s0 H0. by rewrite objects_but_absent. }
    assert (Hrun : ∀ self0 conn0,
              feature_infos self0 = feature_infos self →
              connection self0 = conn0 →
              drop_table_conn name conn0 = Ok (pre ++ drop_object name s :: post) →
              delete_feature name self0 =
                Ok (with_connection (with_connection self0 (pre ++ drop_object name s :: post))
                      (drop_trigger_conn (name +:+ "_dval")
                         (pre ++ drop_object name s :: post)))).
    { intros self0 conn0 Hfi Hc0 Hdrop. unfold delete_feature, info_of. rewrite Hfi, Hi.
      cbn [mbind outcome_bind]. rewrite Hc. cbn [String.eqb Ascii.eqb Bool.eqb].
      unfold execute_drop at 2. unfold exec_drop. rewrite Hsys, Hc0, Hdrop.
      cbn [mbind outcome_bind]. done. }
    eexists. split.
    { apply (Hrun self _ eq_refl Hconn). by apply (drop_table_conn_found _ t). }
    cbn [feature_infos connection with_connection].
    split; [done|].
    split; [by rewrite drop_trigger_conn_objects, Hconn|].
    assert (Hgone' : Forall (λ s0, lookup_object name s0 = None)
                       (drop_trigger_conn (name +:+ "_dval")
                          (pre ++ drop_object name s :: post))).
    { apply (Forall_map_objects (λ l, assoc name l = None) _ _
               (drop_trigger_conn_objects _ _) Hgone). }
    split; [exact Hgone'|]. split.
    + intros Ht value hashes force Hne Hq. unfold insert, info_of.
      cbn [feature_infos with_connection]. rewrite Hi. cbn [mbind outcome_bind].
      assert (Hguard : forallb (λ hash, dq_free hash && dq_free value) hashes = true).
      { cbn [forallb] in Hq. apply andb_true_iff in Hq as [Hv Hh].
        rewrite forallb_forall in Hh. apply forallb_forall. intros h Hin.
        by rewrite (Hh h Hin), Hv. }
      rewrite Hguard. cbn [negb]. unfold execute, exec_conn.
      cbn [connection with_connection].
      destruct hashes as [|h0 hashes]; [done|]. cbn [map parses creates negb].
      rewrite exec_resolved_absent; [done|]. cbn [target]. by rewrite Ht.
    + eexists. split.
      * unfold delete_feature, info_of. cbn [feature_infos with_connection]. rewrite Hi.
        cbn [mbind outcome_bind]. rewrite Hc. cbn [String.eqb Ascii.eqb Bool.eqb].
        unfold execute_drop at 2. unfold exec_drop. rewrite Hsys.
        cbn [connection with_connection].
        rewrite (drop_table_conn_absent _ _ Hgone'). cbn [mbind outcome_bind]. done.
      * cbn [connection with_connection]. by rewrite drop_trigger_conn_objects.
Qed.

(** ** The records of [__meta] *)

Lemma place_row_Replace_last t r t' :
  place_row Replace t r = Placed t' →
  tbl_columns t' = tbl_columns t ∧ ∃ rows, tbl_rows t' = rows ++ [r].
Proof.
  unfold place_row. destruct (negb (notnull_ok t r)); [done|].
  destruct (existsb _ _); intros [= <-]; (split; [done|]); by eexists.
Qed.

Lemma build_row_first t k1 k2 v1 v2 : build_row t [k1; k2] [v1; v2] !! k1 = Some v1.
Proof.
  unfold build_row. apply lookup_union_Some_l. cbn. apply lookup_insert_eq.
Qed.

Lemma replace_one_row s s' tbl k1 k2 v1 v2 :
  triggers_on tbl s = [] →
  insert_values Replace tbl (Some [k1; k2]) [[v1; v2]] s = Ok s' →
  ∃ t t',
    lookup_object tbl s = Some (Table t) ∧
    s' = set_object tbl (Table t') s ∧
    mem k1 (column_names t') = true ∧ mem k2 (column_names t') = true ∧
    ∃ rows, tbl_rows t' = rows ++ [build_row t [k1; k2] [v1; v2]].
Proof.
  intros Htr He. apply insert_values_Ok in He. cbn [insert_rows] in He.
  destruct (insert_row Replace tbl (Some [k1; k2]) [v1; v2] s) as [s1| |] eqn:Hrow;
    cbn [mbind outcome_bind] in He; [|done|done].
  injection He as <-.
  unfold insert_row, get_table in Hrow.
  destruct (lookup_object tbl s) as [[t|]|] eqn:Hl; cbn [mbind outcome_bind] in Hrow;
    [|done|done].
  simpl in Hrow.
  destruct (mem k1 (column_names t)) eqn:H1; [|done].
  destruct (mem k2 (column_names t)) eqn:H2; [|done].
  simpl in Hrow.
  destruct (place_row Replace t _) as [t'| |] eqn:Hp; [| |done].
  - rewrite Htr in Hrow. simpl in Hrow. injection Hrow as <-.
    apply place_row_Replace_last in Hp as [Hcols Hrows].
    exists t, t'. unfold column_names. rewrite Hcols. done.
  - exfalso. unfold place_row in Hp. destruct (negb _); [done|]. by destruct (existsb _ _).
Qed.

Lemma select_meta_written self self' table value :
  (∀ s, find_store "__meta" (connection self) = Some s → triggers_on "__meta" s = []) →
  execute (InsertValues Replace "__meta" (Some ["name"; "value"]) [[table; value]]) self
    = Ok self' →
  ∃ cell cells, select_meta table (connection self') = Ok (cell :: cells).
Proof.
  intros Htr He. unfold execute, exec_conn in He. cbn [parses creates negb] in He.
  destruct (exec_resolved _ (connection self)) as [conn'| |] eqn:Hr;
    cbn [mbind outcome_bind] in He; [|done|done].
  injection He as <-. cbn [connection with_connection].
  apply exec_resolved_Ok in Hr as (s & s' & Hf & Hx & ->). cbn [target] in *.
  cbn [exec] in Hx.
  apply (replace_one_row _ _ _ _ _ _ _ (Htr s Hf)) in Hx
    as (t & t' & Hl & -> & Hn & Hv & rows & Hrows).
  unfold select_meta.
  rewrite find_put_store; [|by rewrite Hf|rewrite lookup_set_object_eq; eauto].
  rewrite lookup_set_object_eq, Hn, Hv. cbn [andb]. rewrite Hrows.
  rewrite List.filter_app, map_app. cbn [List.filter].
  rewrite build_row_first, bool_decide_eq_true_2 by done. cbn [map].
  destruct (map _ (List.filter _ rows)); cbn [app]; eauto.
Qed.

Section MetaRecords.

Context {V : Type} (json_dumps : list (string * V) → string).

Lemma meta_record_written self self' table value :
  (∀ s, find_store "__meta" (connection self) = Some s → triggers_on "__meta" s = []) →
  replace_meta table value self = Ok self' →
  meta_record (V := V) table self' = Raise TypeError.
Proof.
  intros Htr He. unfold replace_meta in He.
  destruct (sq_free table) eqn:Hq; [|done].
  destruct (sq_free value); [|done]. cbn [andb negb] in He.
  destruct (select_meta_written _ _ _ _ Htr He) as (cell & cells & Hs).
  unfold meta_record. rewrite Hq. cbn [negb]. by rewrite Hs.
Qed.

(** X12. [meta_record] hands [json.loads] the list of rows the query
    returned, not the text of a cell, so it can return nothing but the empty
    record: where [__meta] has a row for the name it raises TypeError.  Once
    [meta_set] or [meta_clear] has written a row for a name, [meta_record]
    raises for that name, and with it every later [meta_set]: a record is
    written once and never read. *)
Theorem meta_record_empty_only (self : Database) (table : string) :
  (∀ s, find_store "__meta" (connection self) = Some s → triggers_on "__meta" s = []) →
  (∀ values, meta_record (V := V) table self = Ok values → values = []) ∧
  (∀ self' meta_feature value,
     meta_set json_dumps table meta_feature value self = Ok self' →
     meta_record (V := V) table self' = Raise TypeError ∧
     ∀ meta_feature' value',
       meta_set json_dumps table meta_feature' value' self' = Raise TypeError) ∧
  (∀ self' meta_feature,
     meta_clear json_dumps table meta_feature self = Ok self' →
     meta_record (V := V) table self' = Raise TypeError).
Proof.
  intros Htr. split; [|split].
  - intros values. unfold meta_record. destruct (negb _); [done|].
    destruct (select_meta _ _) as [[|cell cells]| |]; cbn [mbind outcome_bind]; try done.
    by intros [= <-].
  - intros self' meta_feature value He. unfold meta_set in He.
    destruct (meta_record table self) as [values| |]; cbn [mbind outcome_bind] in He;
      [|done|done].
    pose proof (meta_record_written _ _ _ _ Htr He) as Hrec.
    split; [exact Hrec|]. intros meta_feature' value'. unfold meta_set. by rewrite Hrec.
  - intros self' meta_feature He. unfold meta_clear in He.
    destruct meta_feature as [key|]; [destruct (truthy (Some key))|].
    + destruct (meta_record table self) as [values| |]; cbn [mbind outcome_bind] in He;
        [|done|done].
      by apply (meta_record_written _ _ _ _ Htr He).
    + by apply (meta_record_written _ _ _ _ Htr He).
    + by apply (meta_record_written _ _ _ _ Htr He).
Qed.

End MetaRecords.

(** ** New stores *)

Lemma defaults_plain names table_unique rows :
  defaults {| tbl_columns := map plain_column names; tbl_unique := table_unique;
              tbl_rows := rows |} = ∅.
Proof.
  apply defaults_no_default. cbn [tbl_columns]. apply Forall_forall.
  intros c Hc. apply list_elem_of_fmap in Hc as (name & -> & _). done.
Qed.

(** The decimal text of a number reads back as the number. *)
Lemma pretty_char_digit d :
  (d < 10)%N →
  digit_of (pretty_N_char d) = Some (Z.of_N d) ∧
  Ascii.eqb (pretty_N_char d) "_" = false ∧
  Ascii.eqb (pretty_N_char d) "-" = false ∧
  Ascii.eqb (pretty_N_char d) "+" = false.
Proof.
  intros Hd.
  assert (d = 0 ∨ d = 1 ∨ d = 2 ∨ d = 3 ∨ d = 4 ∨ d = 5 ∨ d = 6 ∨ d = 7 ∨ d = 8 ∨ d = 9)%N
    as Hcases by lia.
  repeat (destruct Hcases as [->|Hcases]; [by vm_compute|]). subst d. by vm_compute.
Qed.

Lemma int_digits_pretty_go x : ∀ s b,
  int_digits 0 b (String.list_ascii_of_string (pretty_N_go x s)) =
  int_digits (Z.of_N x) (b || bool_decide (0 < x)%N) (String.list_ascii_of_string s).
Proof.
  induction (N.lt_wf_0 x) as [x _ IH]; intros s b.
  destruct (decide (0 < x)%N) as [Hpos|Hzero].
  - rewrite pretty_N_go_step by done.
    rewrite IH by (by apply N.div_lt).
    cbn [String.list_ascii_of_string int_digits].
    destruct (pretty_char_digit (x `mod` 10)) as (-> & -> & _); [by apply N.mod_lt|].
    rewrite bool_decide_eq_true_2, orb_true_r by done.
    f_equal. rewrite (N.div_mod x 10) at 3 by done. lia.
  - assert (x = 0%N) as -> by lia. rewrite pretty_N_go_0.
    by rewrite bool_decide_eq_false_2, orb_false_r by lia.
Qed.

Lemma pretty_go_head x : ∀ d s,
  (d < 10)%N →
  ∃ d' rest, (d' < 10)%N ∧
    String.list_ascii_of_string (pretty_N_go x (String (pretty_N_char d) s)) =
      pretty_N_char d' :: rest.
Proof.
  induction (N.lt_wf_0 x) as [x _ IH]; intros d s Hd.
  destruct (decide (0 < x)%N) as [Hpos|Hzero].
  - rewrite pretty_N_go_step by done.
    apply IH; [by apply N.div_lt|by apply N.mod_lt].
  - assert (x = 0%N) as -> by lia. rewrite pretty_N_go_0. by exists d, (String.list_ascii_of_string s).
Qed.

Lemma int_pretty (n : Z) : int (String.list_ascii_of_string (pretty n)) = Ok n.
Proof.
  assert (Hpos : ∀ p, int_digits 0 false
                        (String.list_ascii_of_string (pretty_N_go (N.pos p) EmptyString))
                      = Some (Z.pos p)).
  { intros p. rewrite int_digits_pretty_go.
    by rewrite bool_decide_eq_true_2 by lia. }
  destruct n as [|p|p].
  - by vm_compute.
  - unfold pretty, pretty_Z, pretty, pretty_positive, pretty, pretty_N.
    destruct (decide (N.pos p = 0%N)) as [|_]; [done|].
    specialize (Hpos p). revert Hpos.
    rewrite pretty_N_go_step by lia.
    destruct (pretty_go_head (N.pos p `div` 10) (N.pos p `mod` 10) EmptyString)
      as (d' & rest & Hd' & ->); [by apply N.mod_lt|].
    intros Hpos. unfold int.
    destruct (pretty_char_digit d' Hd') as (_ & _ & -> & ->). by rewrite Hpos.
  - unfold pretty, pretty_Z, pretty, pretty_positive, pretty, pretty_N.
    destruct (decide (N.pos p = 0%N)) as [|_]; [done|].
    unfold int.
    change (String.list_ascii_of_string ("-" +:+ pretty_N_go (N.pos p) EmptyString))
      with ("-"%char :: String.list_ascii_of_string (pretty_N_go (N.pos p) EmptyString)).
    change (Ascii.eqb "-" "-") with true. cbn match.
    by rewrite Hpos.
Qed.

Lemma integer_cell_pretty (n : Z) :
  int64 n = true → integer_cell (Some (pretty n)) = true.
Proof.
  intros Hn. unfold integer_cell. by rewrite int_pretty, Hn, String.eqb_refl.
Qed.

Lemma create_writes version hash_version s0 :
  lookup_object "__version" s0 = None →
  triggers_on "__version" s0 = [] →
  ∃ s,
    create version hash_version s0 = Ok s ∧
    extends s0 s ∧
    triggers s = triggers s0 ∧
    is_Some (lookup_object "__meta" s) ∧
    (∀ name, name ≠ "__version" → name ≠ "__meta" →
             lookup_object name s = lookup_object name s0) ∧
    lookup_object "__version" s =
      Some (Table {| tbl_columns := [plain_column "version"; plain_column "hash_version"];
                     tbl_unique := [];
                     tbl_rows := [{["version" := version_cell version;
                                    "hash_version" := version_cell hash_version]}] |}).
Proof.
  intros Hnone Htr. unfold create.
  set (t0 := {| tbl_columns := [plain_column "version"; plain_column "hash_version"];
                tbl_unique := []; tbl_rows := [] |}).
  set (r := ({["version" := version_cell version;
                "hash_version" := version_cell hash_version]} : row)).
  assert (H1 : exec (CreateTable false "__version"
                       [plain_column "version"; plain_column "hash_version"] []) s0 =
               Ok (set_object "__version" (Table t0) s0)).
  { cbn [exec]. by rewrite Hnone. }
  rewrite H1. cbn [mbind outcome_bind].
  assert (Hrow : build_row t0 ["version"; "hash_version"]
                   [version_cell version; version_cell hash_version] = r).
  { assert (Hd : defaults t0 = ∅)
      by apply (defaults_plain ["version"; "hash_version"] [] []).
    unfold build_row. rewrite Hd, (right_id ∅ (∪)). cbn [zip zip_with list_to_map foldr].
    unfold r. by rewrite insert_empty. }
  assert (H2 : exec (InsertValues Abort "__version" (Some ["version"; "hash_version"])
                       [[version_cell version; version_cell hash_version]])
                 (set_object "__version" (Table t0) s0) =
               Ok (set_object "__version" (Table (with_rows t0 [r])) s0)).
  { cbn [exec].
    rewrite (insert_values_no_triggers _ _ _ _ _ t0);
      [|apply lookup_set_object_eq|done].
    cbn [insert_rows]. unfold insert_row, get_table. rewrite lookup_set_object_eq.
    cbn [mbind outcome_bind]. simpl negb. cbn match. cbn [default id].
    rewrite Hrow. unfold place_row. cbn [notnull_ok tbl_columns t0 forallb plain_column
      col_notnull implb andb negb tbl_rows existsb].
    unfold triggers_on in *. cbn [triggers set_object]. rewrite Htr.
    cbn [fire_all mbind outcome_bind]. by rewrite set_object_twice. }
  rewrite H2. cbn [mbind outcome_bind]. cbn [exec].
  set (s2 := set_object "__version" (Table (with_rows t0 [r])) s0).
  assert (Hext : extends s0 s2) by (by apply extends_set_object).
  assert (Hv2 : lookup_object "__version" s2 = Some (Table (with_rows t0 [r])))
    by apply lookup_set_object_eq.
  destruct (lookup_object "__meta" s2) as [o|] eqn:Hmeta.
  - exists s2. split; [done|]. split; [done|]. split; [done|].
    split; [by rewrite Hmeta|]. split; [|done].
    intros name Hn1 Hn2. by apply lookup_set_object_ne.
  - cbn [map col_name plain_column nodupb mem existsb negb andb String.eqb Ascii.eqb
         Bool.eqb orb].
    eexists. split; [done|]. split.
    { eapply extends_trans; [exact Hext|]. by apply extends_set_object. }
    split; [done|]. split; [rewrite lookup_set_object_eq; eauto|]. split.
    + intros name Hn1 Hn2. rewrite lookup_set_object_ne by done.
      by apply lookup_set_object_ne.
    + by rewrite lookup_set_object_ne.
Qed.

(** X13. A store that [create] has written with numbers that fit the 64
    bits of the engine's integers passes [check]: against the numbers it
    was created with there is no warning, against other numbers one warning
    for each number that differs, and no exception.  (A number beyond 64
    bits is kept as a REAL, and what [check] makes of it is not followed.)
    A store file without the table [__version] makes [check] raise the
    engine's "no such table": this is what happens to a file of no bytes,
    which [is_database] takes for a store, so that [__init__] opens it. *)
Theorem create_then_check (version hash_version version' hash_version' : Z)
    (s0 : store) :
  (int64 version = true → int64 hash_version = true →
   lookup_object "__version" s0 = None →
   triggers_on "__version" s0 = [] →
   ∃ s,
     create version hash_version s0 = Ok s ∧
     check version' hash_version' s =
       Warned
         ((if bool_decide (version = version') then []
           else [VersionWarning (Some (pretty version)) version']) ++
          (if bool_decide (hash_version = hash_version') then []
           else [HashVersionWarning (Some (pretty hash_version)) hash_version']))) ∧
  (lookup_object "__version" s0 = None →
   check version hash_version s0 = CheckRaise (OperationalError NoSuchTable)) ∧
  (∀ (fs : files) path,
     fs !! path = Some [] →
     startup_action fs path = OpenStore ∧
     check version hash_version {| objects := []; triggers := [] |} =
       CheckRaise (OperationalError NoSuchTable)).
Proof.
  split; [|split].
  - intros H64v H64h Hnone Htr.
    destruct (create_writes version hash_version s0 Hnone Htr)
      as (s & Hc & _ & _ & _ & _ & Hv).
    exists s. split; [done|]. unfold check, select_version. rewrite Hv.
    unfold version_cell. rewrite H64v, H64h.
    cbn [column_names tbl_columns map col_name plain_column mem existsb].
    cbn [String.eqb Ascii.eqb Bool.eqb orb andb tbl_rows map fst snd].
    rewrite lookup_insert_eq, lookup_insert_ne, lookup_singleton_eq by done.
    rewrite !integer_cell_pretty by done. cbn [andb negb].
    f_equal. f_equal.
    + destruct (decide (version = version')) as [->|Hne].
      * by rewrite !bool_decide_eq_true_2.
      * rewrite !bool_decide_eq_false_2; [done|done|].
        intros [= Heq]. by apply (inj pretty) in Heq.
    + destruct (decide (hash_version = hash_version')) as [->|Hne].
      * by rewrite !bool_decide_eq_true_2.
      * rewrite !bool_decide_eq_false_2; [done|done|].
        intros [= Heq]. by apply (inj pretty) in Heq.
  - intros Hnone. unfold check, select_version. by rewrite Hnone.
  - intros fs path Hp. split; [|done].
    unfold startup_action, is_database. rewrite Hp.
    rewrite bool_decide_eq_true_2 by eauto. done.
Qed.

Lemma elem_of_assoc_is_Some {A} k (a : A) l : (k, a) ∈ l → is_Some (assoc k l).
Proof.
  induction l as [|[k' a'] l IH]; cbn [assoc].
  - by intros ?%elem_of_nil.
  - intros [[= -> ->]|Hin]%elem_of_cons.
    + rewrite String.eqb_refl. eauto.
    + destruct (String.eqb k' k); [eauto|by apply IH].
Qed.

Lemma sql_tables_internal s :
  (∀ name, is_Some (lookup_object name s) → internal_name name = true) →
  sql_tables s = [].
Proof.
  intros Hint. destruct (sql_tables s) as [|[table type] l] eqn:Hs; [done|].
  assert (Hin : (table, type) ∈ sql_tables s) by (rewrite Hs; apply elem_of_cons; by left).
  apply sql_tables_elem in Hin as (o & Hin & Hn & _).
  apply elem_of_assoc_is_Some in Hin. apply Hint in Hin. congruence.
Qed.

(** X14. A store that [__init__] creates for a path without a file holds
    the tables [__version] and [__meta] and nothing else.  Discovery passes
    both over, so it finds no feature and no context in the store, and
    [init_database], which works context by context, leaves the store as it
    is: a new store gets no table [local] and no registry table. *)
Theorem created_store_bare (version hash_version : Z) (path : string)
    (self0 : Database) :
  ∃ s info self1,
    create version hash_version {| objects := []; triggers := [] |} = Ok s ∧
    (∀ name, is_Some (lookup_object name s) ↔ name = "__version" ∨ name = "__meta") ∧
    triggers s = [] ∧
    extract_infos path false s self0 = Ok self1 ∧
    feature_infos self1 = feature_infos self0 ∧
    assoc (make_alnum_ul (basename path)) (database_infos self1) = Some info ∧
    db_contexts info = [] ∧ db_tables info = [] ∧ db_views info = [] ∧
    init_database info s = Ok s.
Proof.
  destruct (create_writes version hash_version {| objects := []; triggers := [] |})
    as (s & Hc & _ & Htr & Hmeta & Hother & Hv); [done|done|].
  assert (Hnames : ∀ name, is_Some (lookup_object name s) ↔
                           name = "__version" ∨ name = "__meta").
  { intros name. split.
    - intros Hs. destruct (decide (name = "__version")) as [|Hn1]; [by left|].
      destruct (decide (name = "__meta")) as [|Hn2]; [by right|].
      rewrite (Hother name Hn1 Hn2) in Hs. by destruct Hs.
    - intros [->| ->]; [rewrite Hv; eauto|done]. }
  assert (Hsql : sql_tables s = []).
  { apply sql_tables_internal. intros name [->| ->]%Hnames; done. }
  eexists s, _, _. split; [exact Hc|]. split; [exact Hnames|]. split; [exact Htr|].
  unfold extract_infos. rewrite Hsql. cbn [for_each].
  split; [done|]. split; [done|].
  cbn [database_infos with_infos]. split; [apply assoc_set_eq|]. done.
Qed.

(** ** The list of features *)

Lemma listed_spec tables views database info :
  listed tables views database info = true ↔
  (if f_virtual info then views else tables) = true ∧
  (truthy database = true → database = Some (f_database info)).
Proof.
  unfold listed.
  destruct (f_virtual info), views, tables; cbn [negb andb];
    try (split; [done|by intros [? _]]);
    (destruct (truthy database); cbn [andb];
     [destruct (bool_decide_reflect (database = Some (f_database info))); cbn [negb];
      [by split|split; [done|intros [_ H]; by specialize (H eq_refl)]]
     |by split]).
Qed.

Lemma omap_keys_NoDup {A} (keep : A → bool) (l : list (string * A)) :
  NoDup l.*1 →
  NoDup (omap (λ item : string * A, if keep item.2 then Some item.1 else None) l).
Proof.
  induction l as [|[k a] l IH]; cbn [omap list_omap fmap list_fmap fst snd].
  - constructor.
  - intros [Hk Hnd]%NoDup_cons.
    change (list_omap ?f ?l) with (omap f l).
    destruct (keep a); [|by apply IH].
    apply NoDup_cons. split; [|by apply IH].
    intros Hin. apply Hk. apply list_elem_of_omap in Hin as ([k' a'] & Hin & Hsome).
    cbn [fst snd] in Hsome. destruct (keep a'); [|done]. injection Hsome as ->.
    apply list_elem_of_fmap. by exists (k, a').
Qed.

(** X15. [features] lists a name exactly when it resolves in
    [feature_infos] and its entry passes the three tests of the loop: a
    virtual feature needs [views], any other needs [tables], and a database
    name that is given and not empty has to be the feature's.  The list has
    no name twice.  With [tables] and [views] both off nothing is listed,
    and the empty text as database name filters nothing.  For a name of the
    list the six accessors return the components of its entry: none of them
    raises KeyError. *)
Theorem features_listed (self : Database) (tables views : bool)
    (database : option string) :
  (∀ feature,
     feature ∈ features tables views database self ↔
     ∃ info, feature_infos self !! feature = Some info ∧
             (if f_virtual info then views else tables) = true ∧
             (truthy database = true → database = Some (f_database info))) ∧
  NoDup (features tables views database self) ∧
  features false false database self = [] ∧
  features tables views (Some EmptyString) self = features tables views None self ∧
  (∀ feature,
     feature ∈ features tables views database self →
     ∃ info,
       ftable feature self = Ok (f_table info) ∧
       fcolumn feature self = Ok (f_column info) ∧
       fdefault feature self = Ok (f_default info) ∧
       fvirtual feature self = Ok (f_virtual info) ∧
       fcontext feature self = Ok (f_context info) ∧
       fdatabase feature self = Ok (f_database info)).
Proof.
  assert (Hin : ∀ feature,
     feature ∈ features tables views database self ↔
     ∃ info, feature_infos self !! feature = Some info ∧
             (if f_virtual info then views else tables) = true ∧
             (truthy database = true → database = Some (f_database info))).
  { intros feature. unfold features. rewrite list_elem_of_omap. split.
    + intros ([f info] & Hin & Hsome). cbn [fst snd] in Hsome.
      destruct (listed tables views database info) eqn:Hl; [|done].
      injection Hsome as ->. apply elem_of_map_to_list in Hin.
      exists info. split; [done|]. by apply listed_spec.
    + intros (info & Hi & Hl). exists (feature, info).
      split; [by apply elem_of_map_to_list|]. cbn [fst snd].
      by rewrite (proj2 (listed_spec _ _ _ _) Hl). }
  split; [exact Hin|]. split; [|split; [|split]].
  - unfold features. apply omap_keys_NoDup, NoDup_fst_map_to_list.
  - unfold features. induction (map_to_list (feature_infos self)) as [|[f info] l IH];
      [done|].
    cbn [omap list_omap fst snd]. change (list_omap ?f ?l) with (omap f l).
    unfold listed at 1. cbn [negb andb]. by destruct (f_virtual info).
  - done.
  - intros feature (info & Hi & _)%Hin. exists info.
    unfold ftable, fcolumn, fdefault, fvirtual, fcontext, fdatabase, info_of.
    by rewrite Hi.
Qed.

(** ** What discovery records about a store *)

Lemma update_info_lookup dbname f infos i :
  assoc dbname infos = Some i →
  assoc dbname (update_info dbname f infos) = Some (f i) ∧
  ∀ k, k ≠ dbname → assoc k (update_info dbname f infos) = assoc k infos.
Proof.
  intros Hi. unfold update_info. rewrite Hi. split; [apply assoc_set_eq|].
  intros k Hk. by apply assoc_set_ne.
Qed.

Lemma extract_table_infos at_path dbname all_virtual self self' table type i :
  extract_table at_path dbname all_virtual self (table, type) = Ok self' →
  assoc dbname (database_infos self) = Some i →
  assoc dbname (database_infos self') =
    Some (note_table (context_from_name table) table type i) ∧
  ∀ k, k ≠ dbname →
       assoc k (database_infos self') = assoc k (database_infos self).
Proof.
  unfold extract_table.
  destruct (table_info table at_path) as [cols| |]; cbn [mbind outcome_bind]; [|done|done].
  intros [= <-] Hi. cbn [database_infos with_features with_infos].
  by apply update_info_lookup.
Qed.

Lemma extract_tables_infos at_path dbname all_virtual tables : ∀ self self' i,
  for_each (extract_table at_path dbname all_virtual) tables self = Ok self' →
  assoc dbname (database_infos self) = Some i →
  NoDup (db_contexts i) →
  ∃ i',
    assoc dbname (database_infos self') = Some i' ∧
    db_name i' = db_name i ∧ db_path i' = db_path i ∧ db_main i' = db_main i ∧
    db_tables i' = db_tables i ++ names_of_type type_table tables ∧
    db_views i' = db_views i ++ names_of_type type_view tables ∧
    NoDup (db_contexts i') ∧
    (∀ c, c ∈ db_contexts i' ↔
          c ∈ db_contexts i ∨
          ∃ table type, (table, type) ∈ tables ∧ c = context_from_name table) ∧
    ∀ k, k ≠ dbname →
         assoc k (database_infos self') = assoc k (database_infos self).
Proof.
  induction tables as [|[table type] tables IH]; intros self self' i; cbn [for_each].
  - intros [= <-] Hi Hnd. exists i. rewrite !app_nil_r.
    repeat (split; [done|]). split; [|done].
    intros c. split; [by left|]. intros [?|(? & ? & ?%elem_of_nil & _)]; done.
  - destruct (extract_table _ _ _ self (table, type)) as [self1| |] eqn:H1;
      cbn [mbind outcome_bind]; [|done|done].
    intros Hrest Hi Hnd.
    destruct (extract_table_infos _ _ _ _ _ _ _ _ H1 Hi) as [Hi1 Hk1].
    set (i1 := note_table (context_from_name table) table type i) in *.
    assert (Hnd1 : NoDup (db_contexts i1)).
    { unfold i1. cbn [db_contexts note_table].
      destruct (mem (context_from_name table) (db_contexts i)) eqn:Hm; [done|].
      apply NoDup_app. split; [done|]. split; [|apply NoDup_singleton].
      intros c Hc ->%list_elem_of_singleton. by apply mem_false in Hm. }
    assert (Hc1 : ∀ c, c ∈ db_contexts i1 ↔ c ∈ db_contexts i ∨ c = context_from_name table).
    { intros c. unfold i1. cbn [db_contexts note_table].
      destruct (mem (context_from_name table) (db_contexts i)) eqn:Hm.
      - apply mem_spec in Hm. split; [by left|]. intros [?| ->]; done.
      - rewrite elem_of_app, list_elem_of_singleton. done. }
    destruct (IH _ _ _ Hrest Hi1 Hnd1)
      as (i' & Hi' & Hn & Hp & Hm & Ht & Hv & Hnd' & Hc' & Hk').
    exists i'. split; [done|]. split; [done|]. split; [done|]. split; [done|].
    split.
    { rewrite Ht. unfold i1. cbn [db_tables note_table names_of_type omap list_omap snd fst].
      destruct type; by rewrite <- ?app_assoc. }
    split.
    { rewrite Hv. unfold i1. cbn [db_views note_table names_of_type omap list_omap snd fst].
      destruct type; by rewrite <- ?app_assoc. }
    split; [done|]. split.
    + intros c. rewrite Hc', Hc1. split.
      * intros [[?| ->]|(t' & ty' & Hin & ->)]; [by left| |].
        -- right. exists table, type. split; [apply elem_of_cons; by left|done].
        -- right. exists t', ty'. split; [apply elem_of_cons; by right|done].
      * intros [?|(t' & ty' & [[= -> ->]|Hin]%elem_of_cons & ->)].
        -- left. by left.
        -- left. by right.
        -- right. by exists t', ty'.
    + intros k Hk. by rewrite Hk', Hk1.
Qed.

Lemma extract_infos_entry (path : string) (all_virtual : bool)
    (at_path : store) (self self' : Database) :
  extract_infos path all_virtual at_path self = Ok self' →
  ∃ info,
    assoc (make_alnum_ul (basename path)) (database_infos self') = Some info ∧
    db_name info = make_alnum_ul (basename path) ∧
    db_path info = path ∧
    db_main info = bool_decide (database_infos self = []) ∧
    db_tables info = names_of_type type_table (sql_tables at_path) ∧
    db_views info = names_of_type type_view (sql_tables at_path) ∧
    NoDup (db_contexts info) ∧
    (∀ c, c ∈ db_contexts info ↔
          ∃ table type, (table, type) ∈ sql_tables at_path ∧ c = context_from_name table) ∧
    ∀ k, k ≠ make_alnum_ul (basename path) →
         assoc k (database_infos self') = assoc k (database_infos self).
Proof.
  unfold extract_infos. intros He.
  set (dbname := make_alnum_ul (basename path)) in *.
  set (i0 := {| db_name := dbname; db_path := path;
                db_main := (length (database_infos self) =? 0)%nat;
                db_contexts := []; db_tables := []; db_views := [] |}) in *.
  apply (extract_tables_infos _ _ _ _ _ _ i0) in He
    as (i' & Hi' & Hn & Hp & Hm & Ht & Hv & Hnd & Hc & Hk).
  - exists i'. split; [exact Hi'|]. split; [exact Hn|]. split; [exact Hp|].
    split.
    { rewrite Hm. cbn [db_main i0]. by destruct (database_infos self). }
    split; [exact Ht|]. split; [exact Hv|]. split; [exact Hnd|]. split.
    + intros c. rewrite Hc. cbn [db_contexts i0]. split; [|by right].
      intros [?%elem_of_nil|?]; done.
    + intros k Hne. rewrite (Hk k Hne). cbn [database_infos with_infos].
      by apply assoc_set_ne.
  - cbn [database_infos with_infos]. apply assoc_set_eq.
  - constructor.
Qed.


(** X16. What [extract_infos] writes into [database_infos] for a store: one
    entry under the name made of the file name, with the path, with the flag
    [main] set exactly when no store has an entry yet, with the names of the
    tables and of the views that discovery looks at, each list in the order
    of the catalogue, and with the contexts of these names, each once.  The
    entries under other names are left as they are; an entry under the same
    name is replaced. *)
Theorem extract_infos_database_entry (path : string) (all_virtual : bool)
    (at_path : store) (self self' : Database) :
  extract_infos path all_virtual at_path self = Ok self' →
  ∃ info,
    assoc (make_alnum_ul (basename path)) (database_infos self') = Some info ∧
    db_name info = make_alnum_ul (basename path) ∧
    db_path info = path ∧
    db_main info = bool_decide (database_infos self = []) ∧
    db_tables info = names_of_type type_table (sql_tables at_path) ∧
    db_views info = names_of_type type_view (sql_tables at_path) ∧
    NoDup (db_contexts info) ∧
    (∀ c, c ∈ db_contexts info ↔
          ∃ table type, (table, type) ∈ sql_tables at_path ∧ c = context_from_name table) ∧
    ∀ k, k ≠ make_alnum_ul (basename path) →
         assoc k (database_infos self') = assoc k (database_infos self).
Proof. apply extract_infos_entry. Qed.

Lemma assoc_keys {A} k (l : list (string * A)) : k ∈ map fst l ↔ is_Some (assoc k l).
Proof.
  split.
  - intros ([k' a] & -> & Hin)%list_elem_of_fmap. by apply (elem_of_assoc_is_Some _ a).
  - intros [a Ha]. apply list_elem_of_fmap. exists (k, a). split; [done|].
    by apply assoc_elem_of.
Qed.

Lemma discover_rest_main rest : ∀ self1 self,
  discover rest self1 = Ok self →
  database_infos self1 ≠ [] →
  ∀ k, db_main <$> assoc k (database_infos self) =
       if filed_under k rest then Some false
       else db_main <$> assoc k (database_infos self1).
Proof.
  unfold discover.
  induction rest as [|[[path all_virtual] at_path] rest IH]; intros self1 self;
    cbn [for_each].
  - by intros [= <-] _ k.
  - destruct (extract_infos path all_virtual at_path self1) as [self2| |] eqn:H1;
      cbn [mbind outcome_bind]; [|done|done].
    intros Hrest Hne k.
    destruct (extract_infos_entry _ _ _ _ _ H1)
      as (info & Hi & _ & _ & Hm & _ & _ & _ & _ & Hk).
    rewrite bool_decide_eq_false_2 in Hm by done.
    assert (Hne2 : database_infos self2 ≠ []).
    { intros Hnil. rewrite Hnil in Hi. done. }
    rewrite (IH _ _ Hrest Hne2 k). cbn [filed_under existsb fst].
    fold (filed_under k rest). unfold dbname_of at 1.
    destruct (filed_under k rest); [by rewrite orb_true_r|]. rewrite orb_false_r.
    destruct (String.eqb_spec (make_alnum_ul (basename path)) k) as [<-|Hnk].
    + by rewrite Hi, <- Hm.
    + by rewrite Hk.
Qed.

(** X17. The main store of a federation.  After discovery over a list of
    stores by an object that knew no store, [databases] lists a name
    exactly when a store of the list is filed under it, and the entry that
    is flagged [main] is that of the first store, unless a later store of
    the list is filed under the same name: then the later store has taken
    the entry, and no entry is flagged. *)
Theorem discover_main (path0 : string) (all_virtual0 : bool) (s0 : store)
    (rest : list (string * bool * store)) (self0 self : Database) :
  database_infos self0 = [] →
  discover ((path0, all_virtual0, s0) :: rest) self0 = Ok self →
  (∀ k, k ∈ databases self ↔
        filed_under k ((path0, all_virtual0, s0) :: rest) = true) ∧
  (∀ k info, assoc k (database_infos self) = Some info →
     (db_main info = true ↔ k = dbname_of path0 ∧ filed_under k rest = false)).
Proof.
  intros Hnil Hd. unfold discover in Hd. cbn [for_each] in Hd.
  destruct (extract_infos path0 all_virtual0 s0 self0) as [self1| |] eqn:H1;
    cbn [mbind outcome_bind] in Hd; [|done|done].
  destruct (extract_infos_entry _ _ _ _ _ H1)
    as (info0 & Hi0 & _ & _ & Hm0 & _ & _ & _ & _ & Hk0).
  rewrite bool_decide_eq_true_2 in Hm0 by done.
  assert (Hne1 : database_infos self1 ≠ []).
  { intros Hnil1. rewrite Hnil1 in Hi0. done. }
  pose proof (discover_rest_main rest self1 self Hd Hne1) as Hmain.
  assert (Hfirst : ∀ k, db_main <$> assoc k (database_infos self1) =
                        if String.eqb (dbname_of path0) k then Some true else None).
  { intros k. unfold dbname_of.
    destruct (String.eqb_spec (make_alnum_ul (basename path0)) k) as [<-|Hnk].
    - by rewrite Hi0, <- Hm0.
    - rewrite (Hk0 k) by done. by rewrite Hnil. }
  split.
  - intros k. unfold databases. rewrite assoc_keys.
    specialize (Hmain k). rewrite Hfirst in Hmain.
    cbn [filed_under existsb fst]. fold (filed_under k rest).
    rewrite <- fmap_is_Some with (f := db_main), Hmain.
    destruct (filed_under k rest); [rewrite orb_true_r; split; eauto|].
    rewrite orb_false_r. destruct (String.eqb (dbname_of path0) k).
    + split; eauto.
    + split; [by intros [? ?]|done].
  - intros k info Hi. specialize (Hmain k). rewrite Hfirst, Hi in Hmain.
    cbn [fmap option_fmap option_map] in Hmain.
    destruct (filed_under k rest).
    + injection Hmain as ->. split; [done|by intros [_ ?]].
    + destruct (String.eqb_spec (dbname_of path0) k) as [<-|Hnk]; [|done].
      injection Hmain as ->. done.
Qed.

(** ** What [init_database] adds *)

Lemma adds_refl names s : adds names s s.
Proof. split; [apply extends_refl|]. intros name o Hl. by left. Qed.

Lemma adds_trans names1 names2 s1 s2 s3 :
  adds names1 s1 s2 → adds names2 s2 s3 → adds (names1 ++ names2) s1 s3.
Proof.
  intros [He1 Ha1] [He2 Ha2]. split; [by eapply extends_trans|].
  intros name o Hl. destruct (Ha2 name o Hl) as [Hl2|[Hn2 Hin]].
  - destruct (Ha1 name o Hl2) as [?|[Hn1 Hin]]; [by left|].
    right. split; [done|]. apply elem_of_app. by left.
  - right. split.
    + destruct (lookup_object name s1) as [o1|] eqn:Hl1; [|done].
      apply He1 in Hl1. congruence.
    + apply elem_of_app. by right.
Qed.

Lemma adds_weaken names names' s s' :
  (∀ name, name ∈ names → name ∈ names') → adds names s s' → adds names' s s'.
Proof.
  intros Hsub [He Ha]. split; [done|]. intros name o Hl.
  destruct (Ha name o Hl) as [?|[? ?]]; [by left|right; auto].
Qed.

Lemma adds_set_object name o s :
  lookup_object name s = None → adds [name] s (set_object name o s).
Proof.
  intros Hnone. split; [by apply extends_set_object|]. intros name' o' Hl.
  destruct (decide (name' = name)) as [->|Hne].
  - right. split; [done|]. by apply list_elem_of_singleton.
  - left. by rewrite lookup_set_object_ne in Hl.
Qed.

Lemma connect_execute_adds q s s' :
  scaffolding q = true → connect_execute q s = Ok s' →
  adds (if creates q then [target q] else []) s s'.
Proof.
  intros Hq He. pose proof (connect_execute_extends q s s' Hq He) as Hext.
  unfold connect_execute in He. destruct q; try done; cbn [creates target exec] in *.
  - destruct if_not_exists; [done|].
    destruct (lookup_object name s) eqn:Hl; [done|].
    destruct (nodupb _); [|done]. cbn [mbind outcome_bind] in He. injection He as <-.
    by apply adds_set_object.
  - destruct (lookup_object name s) eqn:Hl; [done|].
    cbn [mbind outcome_bind] in He. injection He as <-. by apply adds_set_object.
  - split; [done|]. intros name' o Hl. left.
    destruct (existsb _ _); [done|].
    destruct (lookup_object on s) as [[t|]|]; [|done|done].
    cbn [mbind outcome_bind] in He. by injection He as <-.
  - destruct (get_table into s); cbn [mbind outcome_bind] in He; [|done|done].
    destruct (lookup_object from s) as [[tf|]|]; [|done|done].
    destruct (negb _); [done|].
    destruct (insert_values _ _ _ _ _); cbn [mbind outcome_bind] in He; [|done|done].
    injection He as <-. apply adds_refl.
Qed.

Lemma when_adds b q s s' :
  scaffolding q = true → creates q = true → when b q s = Ok s' →
  adds [target q] s s'.
Proof.
  intros Hq Hc. unfold when. destruct b.
  - intros He. apply connect_execute_adds in He; [|done]. by rewrite Hc in He.
  - intros [= <-]. apply adds_refl.
Qed.

Lemma init_context_adds dbinfo s s' context :
  init_context dbinfo s context = Ok s' → adds (context_names context) s s'.
Proof.
  unfold init_context.
  destruct (when _ _ s) as [s1| |] eqn:H1; cbn [mbind outcome_bind]; [|done|done].
  destruct (when _ _ s1) as [s2| |] eqn:H2; cbn [mbind outcome_bind]; [|done|done].
  destruct (when _ _ s2) as [s3| |] eqn:H3; cbn [mbind outcome_bind]; [|done|done].
  apply when_adds in H1, H2, H3; try done. cbn [target] in *.
  assert (H03 : adds [prepend_context "local" context; prepend_context "filename" context;
                      prepend_context "hash" context] s s3).
  { apply (adds_trans [_] [_; _] _ s1); [done|]. by apply (adds_trans [_] [_] _ s2). }
  destruct (negb (mem _ (db_tables dbinfo))).
  - destruct (connect_execute _ s3) as [s4| |] eqn:H4; cbn [mbind outcome_bind];
      [|done|done].
    destruct (connect_execute _ s4) as [s5| |] eqn:H5; cbn [mbind outcome_bind];
      [|done|done].
    intros H6. apply connect_execute_adds in H4, H5, H6; try done.
    cbn [creates target] in *.
    pose proof (adds_trans _ _ _ _ _ H5 H6) as H56.
    pose proof (adds_trans _ _ _ _ _ H4 H56) as H46.
    apply (adds_trans _ _ _ _ _ H03) in H46. exact H46.
  - intros [= <-]. eapply adds_weaken; [|exact H03]. intros name. unfold context_names.
    rewrite !elem_of_cons. tauto.
Qed.

Lemma init_translator_adds dbinfo s s' c01 :
  init_translator dbinfo s c01 = Ok s' → adds [translator_name c01] s s'.
Proof. unfold init_translator. by apply when_adds. Qed.

Lemma for_each_adds {A} (body : store → A → outcome store) (names : A → list string) l :
  (∀ s s' a, body s a = Ok s' → adds (names a) s s') →
  ∀ s s', for_each body l s = Ok s' → adds (flat_map names l) s s'.
Proof.
  intros Hbody. induction l as [|a l IH]; intros s s'; cbn [for_each flat_map].
  - intros [= <-]. apply adds_refl.
  - destruct (body s a) as [s1| |] eqn:H1; cbn [mbind outcome_bind]; [|done|done].
    intros Hrest. eapply adds_trans; eauto.
Qed.

Lemma flat_map_singleton {A B} (f : A → B) l : flat_map (λ a, [f a]) l = map f l.
Proof. induction l as [|a l IH]; cbn; [done|]. by rewrite IH. Qed.

(** X18. [init_database] only adds to a store.  Every object that was there
    is there afterwards as it was, with its rows, and so is every trigger;
    an object that is new has one of the names of the scaffold: [local],
    [filename], [hash] or [features] of a context of the entry, or the
    translator of two of its contexts. *)
Theorem init_database_only_adds (dbinfo : dbinfo) (s s' : store) :
  init_database dbinfo s = Ok s' →
  (∀ name o, lookup_object name s = Some o → lookup_object name s' = Some o) ∧
  (∀ trg, trg ∈ triggers s → trg ∈ triggers s') ∧
  (∀ name o, lookup_object name s' = Some o →
     lookup_object name s = Some o ∨
     (lookup_object name s = None ∧ name ∈ scaffold_names dbinfo)).
Proof.
  unfold init_database.
  destruct (for_each (init_context dbinfo) _ s) as [s1| |] eqn:H1;
    cbn [mbind outcome_bind]; [|done|done].
  intros H2.
  apply (for_each_adds _ context_names _ (init_context_adds dbinfo)) in H1.
  apply (for_each_adds _ (λ c01, [translator_name c01]) _ (init_translator_adds dbinfo))
    in H2.
  rewrite flat_map_singleton in H2.
  destruct (adds_trans _ _ _ _ _ H1 H2) as [[Hobj Htrg] Hnew].
  split; [exact Hobj|]. split; [exact Htrg|exact Hnew].
Qed.

(** *** A second run on the same entry *)

Lemma for_each_again {A} (body : store → A → outcome store) (pend : A → bool) e l :
  (∀ s a, pend a = false → body s a = Ok s) →
  (∀ s s1 a, pend a = true → body s a = Ok s1 →
     ∀ s2, extends s1 s2 → body s2 a = Raise e) →
  (∀ s s1 a, body s a = Ok s1 → extends s s1) →
  ∀ s s', for_each body l s = Ok s' →
    ∀ s2, extends s' s2 →
      if existsb pend l then for_each body l s2 = Raise e
      else s' = s ∧ for_each body l s2 = Ok s2.
Proof.
  intros Hidle Hagain Hext.
  induction l as [|a l IH]; intros s s'; cbn [for_each existsb].
  - by intros [= <-] s2 _.
  - destruct (body s a) as [s1| |] eqn:H1; cbn [mbind outcome_bind]; [|done|done].
    intros Hrest s2 H2.
    destruct (pend a) eqn:Hp; cbn [orb].
    + rewrite (Hagain _ _ _ Hp H1 s2); [done|].
      eapply extends_trans; [|exact H2].
      by apply (for_each_extends _ _ Hext _ _ Hrest).
    + rewrite (Hidle s a Hp) in H1. injection H1 as <-.
      rewrite (Hidle s2 a Hp). cbn [mbind outcome_bind]. by apply IH.
Qed.

Lemma create_table_exists name cols u s s' :
  connect_execute (CreateTable false name cols u) s = Ok s' →
  is_Some (lookup_object name s').
Proof.
  unfold connect_execute. cbn [exec].
  destruct (lookup_object name s); [done|]. destruct (nodupb _); [|done].
  cbn [mbind outcome_bind]. intros [= <-]. rewrite lookup_set_object_eq. eauto.
Qed.

Lemma create_view_exists name cols src s s' :
  connect_execute (CreateView name cols src) s = Ok s' →
  is_Some (lookup_object name s').
Proof.
  unfold connect_execute. cbn [exec].
  destruct (lookup_object name s); [done|].
  cbn [mbind outcome_bind]. intros [= <-]. rewrite lookup_set_object_eq. eauto.
Qed.

Lemma create_table_again name cols u s :
  is_Some (lookup_object name s) →
  connect_execute (CreateTable false name cols u) s = Raise (OperationalError AlreadyExists).
Proof. intros [o Ho]. unfold connect_execute. cbn [exec]. by rewrite Ho. Qed.

Lemma create_view_again name cols src s :
  is_Some (lookup_object name s) →
  connect_execute (CreateView name cols src) s = Raise (OperationalError AlreadyExists).
Proof. intros [o Ho]. unfold connect_execute. cbn [exec]. by rewrite Ho. Qed.

Lemma extends_is_Some name s s' :
  extends s s' → is_Some (lookup_object name s) → is_Some (lookup_object name s').
Proof. intros [Hobj _] [o Ho]. rewrite (Hobj _ _ Ho). eauto. Qed.

Lemma init_context_idle dbinfo s context :
  pending_context dbinfo context = false → init_context dbinfo s context = Ok s.
Proof.
  unfold pending_context, init_context.
  intros [[[-> ->]%orb_false_iff ->]%orb_false_iff ->]%orb_false_iff. done.
Qed.

Lemma init_context_again dbinfo s s1 context :
  pending_context dbinfo context = true →
  init_context dbinfo s context = Ok s1 →
  ∀ s2, extends s1 s2 →
    init_context dbinfo s2 context = Raise (OperationalError AlreadyExists).
Proof.
  unfold pending_context, init_context. intros Hp He s2 H12.
  destruct (when _ _ s) as [sa| |] eqn:H1; cbn [mbind outcome_bind] in He; [|done|done].
  destruct (when _ _ sa) as [sb| |] eqn:H2; cbn [mbind outcome_bind] in He; [|done|done].
  destruct (when _ _ sb) as [sc| |] eqn:H3; cbn [mbind outcome_bind] in He; [|done|done].
  assert (Hab : extends sa sb) by (by apply when_extends in H2).
  assert (Hbc : extends sb sc) by (by apply when_extends in H3).
  assert (Hc1 : extends sc s1).
  { destruct (negb (mem (prepend_context "features" context) (db_tables dbinfo))).
    - destruct (connect_execute _ sc) as [s4| |] eqn:H4; cbn [mbind outcome_bind] in He;
        [|done|done].
      destruct (connect_execute _ s4) as [s5| |] eqn:H5; cbn [mbind outcome_bind] in He;
        [|done|done].
      apply connect_execute_extends in H4, H5, He; try done.
      eauto using extends_trans.
    - injection He as <-. apply extends_refl. }
  destruct (negb (mem (prepend_context "local" context) (db_tables dbinfo))) eqn:G1.
  { cbn [when] in *. rewrite create_table_again; [done|].
    apply create_table_exists in H1.
    eauto using extends_is_Some, extends_trans. }
  cbn [when mbind outcome_bind] in *.
  destruct (negb (mem (prepend_context "filename" context) (db_views dbinfo))) eqn:G2.
  { cbn [when] in *. rewrite create_view_again; [done|].
    apply create_view_exists in H2.
    eauto using extends_is_Some, extends_trans. }
  cbn [when mbind outcome_bind] in *.
  destruct (negb (mem (prepend_context "hash" context) (db_views dbinfo))) eqn:G3.
  { cbn [when] in *. rewrite create_view_again; [done|].
    apply create_view_exists in H3.
    eauto using extends_is_Some, extends_trans. }
  cbn [when mbind outcome_bind orb] in *. rewrite Hp in *.
  destruct (connect_execute _ sc) as [s4| |] eqn:H4; cbn [mbind outcome_bind] in He;
    [|done|done].
  destruct (connect_execute _ s4) as [s5| |] eqn:H5; cbn [mbind outcome_bind] in He;
    [|done|done].
  rewrite create_table_again; [done|].
  apply create_table_exists in H4.
  apply connect_execute_extends in H5, He; try done.
  eauto using extends_is_Some, extends_trans.
Qed.

Lemma init_translator_idle dbinfo s c01 :
  pending_translator dbinfo c01 = false → init_translator dbinfo s c01 = Ok s.
Proof.
  unfold pending_translator, init_translator, translator_name. cbv zeta. by intros ->.
Qed.

Lemma init_translator_again dbinfo s s1 c01 :
  pending_translator dbinfo c01 = true →
  init_translator dbinfo s c01 = Ok s1 →
  ∀ s2, extends s1 s2 →
    init_translator dbinfo s2 c01 = Raise (OperationalError AlreadyExists).
Proof.
  unfold pending_translator, init_translator, translator_name. cbv zeta.
  intros -> He s2 H12. cbn [when] in *. rewrite create_table_again; [done|].
  apply create_table_exists in He. eauto using extends_is_Some.
Qed.

(** X19. [init_database] trusts the lists of its entry, not the store: what
    the entry does not list it creates, with CREATE TABLE and CREATE VIEW
    without IF NOT EXISTS.  So a run for an entry that lists everything
    leaves the store as it is, and after a run that had something to create
    a second run for the same entry raises "already exists": the entry has
    to be made anew by discovery before [init_database] can run again. *)
Theorem init_database_stale_entry (dbinfo : dbinfo) (s s' : store) :
  init_database dbinfo s = Ok s' →
  if pending dbinfo then
    init_database dbinfo s' = Raise (OperationalError AlreadyExists)
  else s' = s.
Proof.
  unfold init_database, pending.
  destruct (for_each (init_context dbinfo) _ s) as [s1| |] eqn:H1;
    cbn [mbind outcome_bind]; [|done|done].
  intros H2.
  assert (H1' : extends s1 s').
  { apply (for_each_extends _ _ (init_translator_extends dbinfo) _ _ H2). }
  pose proof (for_each_again _ (pending_context dbinfo) (OperationalError AlreadyExists) _
                (init_context_idle dbinfo) (init_context_again dbinfo)
                (init_context_extends dbinfo) _ _ H1 s' H1') as Hc.
  pose proof (for_each_again _ (pending_translator dbinfo) (OperationalError AlreadyExists) _
                (init_translator_idle dbinfo) (init_translator_again dbinfo)
                (init_translator_extends dbinfo) _ _ H2 s' (extends_refl s')) as Ht.
  destruct (existsb (pending_context dbinfo) _); cbn [orb].
  - by rewrite Hc.
  - destruct Hc as [-> Hc]. rewrite Hc. cbn [mbind outcome_bind].
    destruct (existsb (pending_translator dbinfo) _); [done|]. by destruct Ht.
Qed.

(** ** Tabular import, row by row *)

Lemma forallb_mem_self l : forallb (λ x, mem x l) l = true.
Proof. apply forallb_forall. intros x Hx. by apply mem_spec, list_elem_of_In. Qed.

Lemma map_col_name_plain names : map col_name (map plain_column names) = names.
Proof. rewrite map_map. cbn [col_name plain_column]. apply map_id. Qed.

Lemma notnull_ok_plain names u rows r :
  notnull_ok {| tbl_columns := map plain_column names; tbl_unique := u;
                tbl_rows := rows |} r = true.
Proof.
  unfold notnull_ok. cbn [tbl_columns]. apply forallb_forall.
  intros c Hc. apply list_elem_of_In, list_elem_of_fmap in Hc as (name & -> & _). done.
Qed.

Lemma insert_plain_row name fieldnames rows rec s :
  lookup_object name s =
    Some (Table {| tbl_columns := map plain_column fieldnames; tbl_unique := [];
                   tbl_rows := rows |}) →
  triggers_on name s = [] →
  length rec = length fieldnames →
  exec (InsertValues Abort name None [rec]) s =
    Ok (set_object name
          (Table {| tbl_columns := map plain_column fieldnames; tbl_unique := [];
                    tbl_rows := rows ++ [list_to_map (zip fieldnames rec)] |}) s).
Proof.
  intros Hl Htr Hlen. cbn [exec].
  rewrite (insert_values_no_triggers _ _ _ _ _ _ Hl Htr).
  cbn [insert_rows]. unfold insert_row, get_table. rewrite Hl.
  cbn [mbind outcome_bind default].
  set (t := {| tbl_columns := map plain_column fieldnames; tbl_unique := [];
               tbl_rows := rows |}).
  assert (Hcn : column_names t = fieldnames) by apply map_col_name_plain.
  rewrite !Hcn, forallb_mem_self. cbn [negb].
  rewrite <- Hlen, Nat.eqb_refl. cbn [negb].
  unfold place_row. unfold t at 1. rewrite notnull_ok_plain. cbn [negb tbl_rows].
  rewrite existsb_none by done. rewrite Htr. cbn [fire_all mbind outcome_bind].
  assert (Hd : defaults t = ∅) by apply defaults_plain.
  unfold build_row. rewrite Hd, (right_id ∅ (∪)). done.
Qed.

Lemma import_rows_appends name fieldnames records : ∀ rows s s',
  lookup_object name s =
    Some (Table {| tbl_columns := map plain_column fieldnames; tbl_unique := [];
                   tbl_rows := rows |}) →
  triggers_on name s = [] →
  import_rows name fieldnames records s = Ok s' →
  Forall (λ rec, rec = [] ∨ length rec = length fieldnames) records ∧
  s' = set_object name
         (Table {| tbl_columns := map plain_column fieldnames; tbl_unique := [];
                   tbl_rows := rows ++ record_rows fieldnames records |}) s.
Proof.
  induction records as [|rec records IH]; intros rows s s' Hl Htr.
  - cbn [import_rows]. intros [= <-]. split; [constructor|].
    unfold record_rows. cbn [List.filter map]. rewrite app_nil_r.
    by rewrite set_object_same.
  - destruct rec as [|cell rec].
    + cbn [import_rows]. intros He. destruct (IH _ _ _ Hl Htr He) as [Hall ->].
      split; [constructor; [by left|done]|done].
    + cbn [import_rows].
      destruct (Nat.eqb_spec (length (cell :: rec)) (length fieldnames))
        as [Hlen|Hlen]; cbn [negb]; [|done].
      destruct (negb (forallb sq_free (cell :: rec))); [done|].
      rewrite (insert_plain_row _ _ rows _ _ Hl Htr Hlen). cbn [mbind outcome_bind].
      intros He. apply IH with (rows := rows ++ [list_to_map (zip fieldnames (cell :: rec))])
        in He as [Hall ->]; [|apply lookup_set_object_eq|done].
      split; [constructor; [by right|done]|].
      rewrite set_object_twice. unfold record_rows. cbn [List.filter map].
      by rewrite <- app_assoc.
Qed.

(** X20. What an import that goes through has made.  The shared in-memory
    store had no table of the derived name; afterwards it has one whose
    columns are the fields of the header, in their order, without type or
    constraint, and whose rows are the records of the file, in their order:
    each record with as many cells as the header has fields, which the row
    holds field by field; a record without a cell is passed over.  The
    header has the field [hash] and has no field twice, its fields are
    plain names (the import of any other header is not followed), and no
    other object of the store has changed. *)
Theorem import_csv_rows (fs : files) (csvfile : string) (inmemory s' : store) :
  lookup_object (import_name csvfile) inmemory = None →
  triggers_on (import_name csvfile) inmemory = [] →
  import_csv fs csvfile inmemory = Ok s' →
  ∃ content fieldnames records,
    fs !! csvfile = Some content ∧
    csv_reader content = fieldnames :: records ∧
    mem "hash" fieldnames = true ∧ NoDup fieldnames ∧
    forallb plain_name fieldnames = true ∧
    Forall (λ rec, rec = [] ∨ length rec = length fieldnames) records ∧
    lookup_object (import_name csvfile) s' =
      Some (Table {| tbl_columns := map plain_column fieldnames; tbl_unique := [];
                     tbl_rows := record_rows fieldnames records |}) ∧
    ∀ name, name ≠ import_name csvfile →
            lookup_object name s' = lookup_object name inmemory.
Proof.
  intros Hnone Htr. unfold import_csv. rewrite Hnone.
  destruct (fs !! csvfile) as [content|] eqn:Hfile; [|done].
  destruct (csv_reader content) as [|fieldnames records] eqn:Hcsv; [done|].
  destruct (mem "hash" fieldnames) eqn:Hh; cbn [negb]; [|done].
  destruct (table_name (import_name csvfile)); cbn [andb]; [|done].
  destruct (forallb plain_name fieldnames) eqn:Hplain; cbn [negb]; [|done].
  destruct (store_clash (import_name csvfile) inmemory); [done|].
  cbn [exec]. rewrite Hnone, map_col_name_plain.
  destruct (nodupb fieldnames) eqn:Hnd; [|done]. cbn [mbind outcome_bind].
  intros He. apply import_rows_appends with (rows := []) in He as [Hall ->];
    [|apply lookup_set_object_eq|done].
  exists content, fieldnames, records.
  split; [done|]. split; [done|]. split; [done|].
  split; [by apply nodupb_spec|]. split; [done|]. split; [done|].
  rewrite set_object_twice. split; [apply lookup_set_object_eq|].
  intros name Hne. by apply lookup_set_object_ne.
Qed.

Lemma import_rows_good name fieldnames records : ∀ rows s,
  lookup_object name s =
    Some (Table {| tbl_columns := map plain_column fieldnames; tbl_unique := [];
                   tbl_rows := rows |}) →
  triggers_on name s = [] →
  Forall (λ rec, rec = [] ∨
                 (length rec = length fieldnames ∧ forallb sq_free rec = true)) records →
  import_rows name fieldnames records s =
    Ok (set_object name
          (Table {| tbl_columns := map plain_column fieldnames; tbl_unique := [];
                    tbl_rows := rows ++ record_rows fieldnames records |}) s).
Proof.
  induction records as [|rec records IH]; intros rows s Hl Htr Hall.
  - cbn [import_rows]. unfold record_rows. cbn [List.filter map]. rewrite app_nil_r.
    by rewrite set_object_same.
  - apply Forall_cons in Hall as [Hrec Hall].
    destruct rec as [|cell rec].
    + cbn [import_rows]. by apply IH.
    + destruct Hrec as [?|[Hlen Hq]]; [done|]. cbn [import_rows].
      rewrite Hlen, Nat.eqb_refl, Hq. cbn [negb].
      rewrite (insert_plain_row _ _ rows _ _ Hl Htr Hlen). cbn [mbind outcome_bind].
      rewrite (IH (rows ++ [list_to_map (zip fieldnames (cell :: rec))]));
        [|apply lookup_set_object_eq|done|done].
      rewrite set_object_twice. unfold record_rows. cbn [List.filter map].
      by rewrite <- app_assoc.
Qed.

Lemma import_rows_app name fieldnames records1 records2 : ∀ s,
  import_rows name fieldnames (records1 ++ records2) s =
    s1 ← import_rows name fieldnames records1 s;
    import_rows name fieldnames records2 s1.
Proof.
  induction records1 as [|rec records1 IH]; intros s; [done|].
  destruct rec as [|cell rec]; cbn [app import_rows]; [apply IH|].
  destruct (negb (_ =? _)%nat); [done|].
  destruct (negb (forallb sq_free (cell :: rec))); [done|].
  destruct (exec _ s); cbn [mbind outcome_bind]; [apply IH|done|done].
Qed.

Lemma import_rows_store_good name fieldnames good bad rest : ∀ rows s,
  lookup_object name s =
    Some (Table {| tbl_columns := map plain_column fieldnames; tbl_unique := [];
                   tbl_rows := rows |}) →
  triggers_on name s = [] →
  Forall (λ rec, rec = [] ∨
                 (length rec = length fieldnames ∧ forallb sq_free rec = true)) good →
  bad ≠ [] → length bad ≠ length fieldnames →
  import_rows_store name fieldnames (good ++ bad :: rest) s =
    Some (set_object name
            (Table {| tbl_columns := map plain_column fieldnames; tbl_unique := [];
                      tbl_rows := rows ++ record_rows fieldnames good |}) s).
Proof.
  induction good as [|rec good IH]; intros rows s Hl Htr Hall Hbad Hlen.
  - destruct bad as [|cell bad]; [done|]. cbn [app import_rows_store].
    rewrite (proj2 (Nat.eqb_neq _ _) Hlen). cbn [negb].
    unfold record_rows. cbn [List.filter map]. rewrite app_nil_r.
    by rewrite set_object_same.
  - apply Forall_cons in Hall as [Hrec Hall].
    destruct rec as [|cell rec].
    + cbn [app import_rows_store]. by apply IH.
    + destruct Hrec as [?|[Hlenr Hq]]; [done|]. cbn [app import_rows_store].
      rewrite Hlenr, Nat.eqb_refl, Hq. cbn [negb].
      rewrite (insert_plain_row _ _ rows _ _ Hl Htr Hlenr).
      rewrite (IH (rows ++ [list_to_map (zip fieldnames (cell :: rec))]));
        [|apply lookup_set_object_eq|done|done|done|done].
      rewrite set_object_twice. unfold record_rows. cbn [List.filter map].
      by rewrite <- app_assoc.
Qed.

(** X21. What an import refuses, where the in-memory store has no table of
    the derived name yet.  A path without a file: the error of [open].  A
    file without a line: TypeError, since there is no list of fields to look
    [hash] up in.  A header without the field [hash]: DatabaseException,
    with a message that ends in what [format] makes of the open file.  For
    a header of plain names: a field twice is the engine's "duplicate column
    name"; and a record that has cells, but not as many as the header has
    fields, is a TypeError (the dict of the record then holds a [None] or a
    list, and joining its values fails), which leaves the table with the
    rows of the records before it in the store. *)
Theorem import_csv_refuses (fs : files) (csvfile : string) (inmemory : store) :
  lookup_object (import_name csvfile) inmemory = None →
  (fs !! csvfile = None → import_csv fs csvfile inmemory = Raise OSError) ∧
  (∀ content,
     fs !! csvfile = Some content → csv_reader content = [] →
     import_csv fs csvfile inmemory = Raise TypeError) ∧
  (∀ content fieldnames records,
     fs !! csvfile = Some content → csv_reader content = fieldnames :: records →
     (mem "hash" fieldnames = false →
      import_csv fs csvfile inmemory =
        Raise (DatabaseException
                 ("Column 'hash' not found in " +:+ file_repr csvfile))) ∧
     (mem "hash" fieldnames = true →
      table_name (import_name csvfile) = true →
      forallb plain_name fieldnames = true →
      store_clash (import_name csvfile) inmemory = false →
      (nodupb fieldnames = false →
       import_csv fs csvfile inmemory = Raise (OperationalError DuplicateColumn)) ∧
      (∀ good bad rest,
         nodupb fieldnames = true →
         triggers_on (import_name csvfile) inmemory = [] →
         records = good ++ bad :: rest →
         Forall (λ rec, rec = [] ∨
                        (length rec = length fieldnames ∧ forallb sq_free rec = true)) good →
         bad ≠ [] → length bad ≠ length fieldnames →
         import_csv fs csvfile inmemory = Raise TypeError ∧
         import_csv_store fs csvfile inmemory =
           Some (set_object (import_name csvfile)
                   (Table {| tbl_columns := map plain_column fieldnames;
                             tbl_unique := [];
                             tbl_rows := record_rows fieldnames good |}) inmemory)))).
Proof.
  intros Hnone. unfold import_csv, import_csv_store. rewrite Hnone. split; [|split].
  - by intros ->.
  - by intros content -> ->.
  - intros content fieldnames records -> ->. split.
    + by intros ->.
    + intros -> -> -> ->. cbn [andb negb]. split.
      * intros Hnd. cbn [exec]. rewrite Hnone, map_col_name_plain, Hnd. done.
      * intros good bad rest Hnd Htr -> Hgood Hbad Hlen.
        cbn [exec]. rewrite Hnone, map_col_name_plain, Hnd. cbn [mbind outcome_bind].
        split.
        -- rewrite import_rows_app.
           rewrite (import_rows_good _ _ good []); [|apply lookup_set_object_eq|done|done].
           cbn [mbind outcome_bind]. destruct bad as [|cell bad]; [done|].
           cbn [import_rows]. by rewrite (proj2 (Nat.eqb_neq _ _) Hlen).
        -- rewrite (import_rows_store_good _ _ good bad rest []);
             [|apply lookup_set_object_eq|done|done|done|done].
           by rewrite set_object_twice.
Qed.

(** X22. The columns of an imported file become virtual features.  After an
    import that went through (of a header of plain names: no other import
    is followed), discovery over the in-memory store (which [__init__] runs
    with [all_virtual]) records every field of the header, other than
    [hash], whose name nothing else in the store bears: as a
    feature of that name, kept in the column of that name of the imported
    table, without default, and virtual. *)
Theorem imported_fields_discovered (fs : files) (csvfile : string)
    (inmemory s' : store) (content : list Byte.byte)
    (fieldnames : list string) (records : list (list string)) (field : string) :
  fs !! csvfile = Some content →
  csv_reader content = fieldnames :: records →
  field ∈ fieldnames →
  field ≠ "hash" → field ≠ "value" → field ≠ import_name csvfile →
  names_unique inmemory →
  lookup_object (import_name csvfile) inmemory = None →
  triggers_on (import_name csvfile) inmemory = [] →
  internal_name (import_name csvfile) = false →
  lookup_object field inmemory = None →
  no_column field inmemory →
  import_csv fs csvfile inmemory = Ok s' →
  ∀ path self0 self2,
    feature_infos self0 !! field = None →
    extract_infos path true s' self0 = Ok self2 →
    feature_infos self2 !! field =
      Some {| f_table := import_name csvfile; f_column := field; f_default := None;
              f_virtual := true;
              f_context := context_from_name (import_name csvfile);
              f_database := make_alnum_ul (basename path) |}.
Proof.
  intros Hfile Hcsv Hfield Hnh Hnv Hnn Hnd Hnone Htr Hint Hfnone Hcols Himp.
  unfold import_csv in Himp. rewrite Hnone, Hfile, Hcsv in Himp.
  destruct (mem "hash" fieldnames) eqn:Hh; cbn [negb] in Himp; [|done].
  destruct (negb (table_name _ && forallb plain_name fieldnames)); [done|].
  destruct (store_clash _ inmemory); [done|].
  cbn [exec] in Himp. rewrite Hnone, map_col_name_plain in Himp.
  destruct (nodupb fieldnames) eqn:Hndf; [|done]. cbn [mbind outcome_bind] in Himp.
  apply import_rows_appends with (rows := []) in Himp as [_ ->];
    [|apply lookup_set_object_eq|done].
  rewrite set_object_twice.
  intros path self0 self2 Hold He.
  set (name := import_name csvfile) in *.
  set (t := {| tbl_columns := map plain_column fieldnames; tbl_unique := [];
               tbl_rows := [] ++ record_rows fieldnames records |}) in *.
  assert (Hl : lookup_object name (set_object name (Table t) inmemory) = Some (Table t))
    by apply lookup_set_object_eq.
  assert (Hfn : feature_name name (plain_column field) = field).
  { unfold feature_name. cbn [col_name plain_column].
    by rewrite (proj2 (String.eqb_neq _ _) Hnv). }
  apply (extract_infos_unique _ _ _ _ _ _ _ He Hold).
  - rewrite <- Hfn at 1.
    apply (produces_table path true _ name t (plain_column field) Hl Hint); [|done].
    cbn [tbl_columns t]. apply list_elem_of_fmap. by exists field.
  - intros info' Hp.
    apply produces_inv in Hp as (table & o & col & Hlo & _ & Hcol & Hne & Hfe & ->);
      [|by apply names_unique_set_object].
    symmetry in Hfe.
    destruct (decide (table = name)) as [->|Hnt].
    + rewrite Hl in Hlo. injection Hlo as <-. cbn [object_columns tbl_columns t] in Hcol.
      apply list_elem_of_fmap in Hcol as (f' & -> & Hf').
      apply feature_name_inv in Hfe as [[_ Heq]|Hc]; [by rewrite Heq in Hnn|].
      cbn [col_name plain_column] in Hc. by subst f'.
    + rewrite lookup_set_object_ne in Hlo by done. exfalso.
      apply feature_name_inv in Hfe as [[_ Heq]|Hc].
      * rewrite Heq in Hlo. congruence.
      * apply (Hcols table o Hlo). apply list_elem_of_fmap. by exists col.
Qed.

(** ** The translators *)

Lemma elem_of_permutations2 {A} (l : list A) x y :
  (x, y) ∈ permutations2 l ↔
  ∃ i j, i ≠ j ∧ l !! i = Some x ∧ l !! j = Some y.
Proof.
  unfold permutations2. rewrite list_elem_of_In, in_flat_map. split.
  - intros ([i x'] & Hi & Hin). apply list_elem_of_In in Hi, Hin.
    apply list_elem_of_omap in Hin as ([j y'] & Hj & Hsome).
    destruct (Nat.eqb_spec i j) as [|Hne]; [done|]. injection Hsome as -> ->.
    apply elem_of_lookup_imap in Hi as (i' & x' & [= -> ->] & Hi).
    apply elem_of_lookup_imap in Hj as (j' & y' & [= -> ->] & Hj).
    by exists i', j'.
  - intros (i & j & Hne & Hi & Hj). exists (i, x). split.
    + apply list_elem_of_In, elem_of_lookup_imap. by exists i, x.
    + apply list_elem_of_In, list_elem_of_omap. exists (j, y). split.
      * apply elem_of_lookup_imap. by exists j, y.
      * by rewrite (proj2 (Nat.eqb_neq _ _) Hne).
Qed.

Lemma for_each_translators dbinfo pairs c01 : ∀ s s',
  for_each (init_translator dbinfo) pairs s = Ok s' →
  c01 ∈ pairs →
  mem (translator_name c01) (db_tables dbinfo) = false →
  lookup_object (translator_name c01) s' =
    Some (Table {| tbl_columns := [plain_column "hash"; plain_column "value"];
                   tbl_unique := []; tbl_rows := [] |}).
Proof.
  induction pairs as [|p pairs IH]; intros s s'; cbn [for_each].
  - by intros _ ?%elem_of_nil.
  - destruct (init_translator dbinfo s p) as [s1| |] eqn:H1;
      cbn [mbind outcome_bind]; [|done|done].
    intros Hrest [->|Hin]%elem_of_cons Hm; [|by apply (IH s1)].
    apply (for_each_extends _ _ (init_translator_extends dbinfo) _ _ Hrest).
    unfold init_translator, translator_name in *. cbv zeta in H1. rewrite Hm in H1.
    cbn [negb when] in H1. unfold connect_execute in H1. cbn [exec] in H1.
    destruct (lookup_object _ s); [done|].
    cbn [mbind outcome_bind] in H1. injection H1 as <-. apply lookup_set_object_eq.
Qed.

(** X23. The translators of a store.  [init_database] goes through the
    ordered pairs of two contexts of the entry at different places of the
    list, so through both orders of every two contexts and through no pair
    of a context with itself; for each pair whose translator the entry does
    not list it creates the table [translator_c0_c1] with the columns [hash]
    and [value], and after the call the store has that table, empty. *)
Theorem translators_created (dbinfo : dbinfo) (s s' : store) (c0 c1 : string) :
  init_database dbinfo s = Ok s' →
  ((c0, c1) ∈ permutations2 (db_contexts dbinfo) ↔
   ∃ i j, i ≠ j ∧ db_contexts dbinfo !! i = Some c0 ∧ db_contexts dbinfo !! j = Some c1) ∧
  ((c0, c1) ∈ permutations2 (db_contexts dbinfo) →
   mem ("translator_" +:+ c0 +:+ "_" +:+ c1) (db_tables dbinfo) = false →
   lookup_object ("translator_" +:+ c0 +:+ "_" +:+ c1) s' =
     Some (Table {| tbl_columns := [plain_column "hash"; plain_column "value"];
                    tbl_unique := []; tbl_rows := [] |})).
Proof.
  intros He. split; [apply elem_of_permutations2|].
  intros Hin Hm. unfold init_database in He.
  destruct (for_each (init_context dbinfo) _ s) as [s1| |];
    cbn [mbind outcome_bind] in He; [|done|done].
  by apply (for_each_translators dbinfo _ (c0, c1) _ _ He).
Qed.

(** ** Discovery of a store that [init_database] has set up *)

Lemma table_info_outcome name s :
  (∃ cols, table_info name s = Ok cols) ∨
  table_info name s = Raise (OperationalError NoSuchTable).
Proof.
  unfold table_info. destruct (lookup_object name s) as [[t|cols src]|]; eauto.
  destruct (lookup_object src s); eauto.
Qed.

Lemma extract_table_cases at_path dbname all_virtual self table type :
  match table_info table at_path with
  | Ok _ => ∃ self', extract_table at_path dbname all_virtual self (table, type) = Ok self'
  | Raise e => extract_table at_path dbname all_virtual self (table, type) = Raise e
  | Unmodelled => extract_table at_path dbname all_virtual self (table, type) = Unmodelled
  end.
Proof. unfold extract_table. destruct (table_info table at_path); eauto. Qed.

Lemma extract_tables_raise at_path dbname all_virtual tables table type : ∀ self,
  (table, type) ∈ tables →
  table_info table at_path = Raise (OperationalError NoSuchTable) →
  for_each (extract_table at_path dbname all_virtual) tables self =
    Raise (OperationalError NoSuchTable).
Proof.
  induction tables as [|[t ty] tables IH]; intros self Hin Hraise.
  - by apply elem_of_nil in Hin.
  - cbn [for_each].
    pose proof (extract_table_cases at_path dbname all_virtual self t ty) as Hc.
    destruct (table_info_outcome t at_path) as [[cols Hok]|Hno].
    + rewrite Hok in Hc. destruct Hc as [self' ->]. cbn [mbind outcome_bind].
      apply elem_of_cons in Hin as [[= <- <-]|Hin]; [congruence|]. by apply IH.
    + rewrite Hno in Hc. by rewrite Hc.
Qed.

Lemma init_context_filename dbinfo s s' context :
  mem (prepend_context "filename" context) (db_views dbinfo) = false →
  init_context dbinfo s context = Ok s' →
  lookup_object (prepend_context "filename" context) s' =
    Some (View ["hash"; "value"] context).
Proof.
  intros Hm. unfold init_context. rewrite Hm. cbn [negb].
  destruct (when _ _ s) as [s1| |] eqn:H1; cbn [mbind outcome_bind]; [|done|done].
  destruct (when true _ s1) as [s2| |] eqn:H2; cbn [mbind outcome_bind]; [|done|done].
  destruct (when _ _ s2) as [s3| |] eqn:H3; cbn [mbind outcome_bind]; [|done|done].
  intros He.
  assert (Hl2 : lookup_object (prepend_context "filename" context) s2 =
                Some (View ["hash"; "value"] context)).
  { cbn [when] in H2. unfold connect_execute in H2. cbn [exec] in H2.
    destruct (lookup_object _ s1); [done|]. cbn [mbind outcome_bind] in H2.
    injection H2 as <-. apply lookup_set_object_eq. }
  apply when_extends in H3; [|done].
  assert (H3' : extends s3 s').
  { revert He.
    destruct (negb (mem (prepend_context "features" context) (db_tables dbinfo))).
    - destruct (connect_execute _ s3) as [s4| |] eqn:H4; cbn [mbind outcome_bind];
        [|done|done].
      destruct (connect_execute _ s4) as [s5| |] eqn:H5; cbn [mbind outcome_bind];
        [|done|done].
      intros He. apply connect_execute_extends in H4, H5, He; try done.
      eauto using extends_trans.
    - intros [= <-]. apply extends_refl. }
  by apply H3', H3.
Qed.

(** X24. A store in which [init_database] has set up a context cannot be
    discovered again.  The view [filename] of the context is created over
    the name of the context itself, FROM {context}, and not over the table
    [local]; the engine accepts the CREATE VIEW, but when discovery asks
    for the columns of the view it has to resolve that name.  So where a
    store has no object called like the context, [extract_infos] raises the
    engine's "no such table", for every path and every object. *)
Theorem discovery_after_init_raises (dbinfo : dbinfo) (s s' : store)
    (context : string) :
  init_database dbinfo s = Ok s' →
  context ∈ db_contexts dbinfo →
  mem (prepend_context "filename" context) (db_views dbinfo) = false →
  internal_name (prepend_context "filename" context) = false →
  lookup_object context s' = None →
  ∀ path all_virtual self,
    extract_infos path all_virtual s' self = Raise (OperationalError NoSuchTable).
Proof.
  intros He Hin Hm Hint Hnone path all_virtual self.
  assert (Hview : lookup_object (prepend_context "filename" context) s' =
                  Some (View ["hash"; "value"] context)).
  { unfold init_database in He.
    destruct (for_each (init_context dbinfo) _ s) as [s1| |] eqn:H1;
      cbn [mbind outcome_bind] in He; [|done|done].
    apply (for_each_extends _ _ (init_translator_extends dbinfo) _ _ He).
    clear He. revert s s1 H1 Hin.
    induction (db_contexts dbinfo) as [|c l IH]; intros s s1; cbn [for_each].
    - by intros _ ?%elem_of_nil.
    - destruct (init_context dbinfo s c) as [s0| |] eqn:H0;
        cbn [mbind outcome_bind]; [|done|done].
      intros Hrest [->|Hin]%elem_of_cons; [|by apply (IH s0)].
      apply (for_each_extends _ _ (init_context_extends dbinfo) _ _ Hrest).
      by apply (init_context_filename dbinfo s). }
  unfold extract_infos.
  apply (extract_tables_raise _ _ _ _ (prepend_context "filename" context) type_view).
  - apply sql_tables_elem. exists (View ["hash"; "value"] context).
    split; [by apply assoc_elem_of|done].
  - unfold table_info. by rewrite Hview, Hnone.
Qed.

(** ** Registration through [insert] *)

Lemma keeps_rows_refl name s : keeps_rows name s s.
Proof. intros t Ht. by exists t. Qed.

Lemma keeps_rows_trans name s1 s2 s3 :
  keeps_rows name s1 s2 → keeps_rows name s2 s3 → keeps_rows name s1 s3.
Proof.
  intros H12 H23 t Ht. destruct (H12 t Ht) as (t2 & Ht2 & Hsub2).
  destruct (H23 t2 Ht2) as (t3 & Ht3 & Hsub3). exists t3. split; auto.
Qed.

(** A row placed under a policy other than REPLACE comes after the rows
    that were there. *)
Lemma place_row_grows c t r t' :
  c ≠ Replace → place_row c t r = Placed t' →
  tbl_rows t' = tbl_rows t ++ [r].
Proof.
  intros Hc. unfold place_row. destruct (negb (notnull_ok t r)); [by destruct c|].
  destruct (existsb _ _); [by destruct c|]. by intros [= <-].
Qed.

Lemma keeps_rows_placed c tbl t t' r s name :
  c ≠ Replace → lookup_object tbl s = Some (Table t) →
  place_row c t r = Placed t' →
  keeps_rows name s (set_object tbl (Table t') s).
Proof.
  intros Hc Hl Hp t0 Ht0. apply place_row_grows in Hp; [|done].
  destruct (decide (name = tbl)) as [->|Hne].
  - rewrite Hl in Ht0. injection Ht0 as <-. exists t'.
    rewrite lookup_set_object_eq. split; [done|]. intros r0 Hr0.
    rewrite Hp. apply elem_of_app. by left.
  - exists t0. by rewrite lookup_set_object_ne.
Qed.

Lemma fire_grows new s s' trg name :
  fire Ignore new s trg = Ok s' → keeps_rows name s s'.
Proof.
  unfold fire, get_table.
  destruct (lookup_object (trg_into trg) s) as [[t|]|] eqn:Hl; simpl; [|done|done].
  destruct (negb _); [done|].
  destruct (place_row Ignore t _) as [t'| |] eqn:Hp; [| |done]; intros [= <-].
  - by apply (keeps_rows_placed Ignore _ t t' _ _ _ ltac:(done) Hl Hp).
  - apply keeps_rows_refl.
Qed.

Lemma fire_all_grows new trgs name : ∀ s s',
  fire_all Ignore new trgs s = Ok s' → keeps_rows name s s'.
Proof.
  induction trgs as [|trg trgs IH]; intros s s'; simpl.
  - intros [= <-]. apply keeps_rows_refl.
  - destruct (fire Ignore new s trg) as [s1| |] eqn:H1; simpl; [|done|done].
    intros Hrest. eapply keeps_rows_trans; [by eapply fire_grows|by apply IH].
Qed.

(** A plain [INSERT INTO tbl (hash, c) VALUES (h, v)] that succeeds removes
    no row of any table, and the table holds the new row. *)
Lemma insert_row_grows tbl c h v s s' :
  insert_row Abort tbl (Some ["hash"; c]) [h; v] s = Ok s' →
  (∀ name, keeps_rows name s s') ∧
  ∃ t' (r : row),
    lookup_object tbl s' = Some (Table t') ∧ r ∈ tbl_rows t' ∧
    r !! "hash" = Some h ∧ (c ≠ "hash" → r !! c = Some v).
Proof.
  unfold insert_row, get_table.
  destruct (lookup_object tbl s) as [[t|]|] eqn:Hl;
    cbn [mbind outcome_bind default id trigger_policy]; [|done|done].
  destruct (negb (forallb _ _)); [done|].
  destruct (negb (_ =? _)%nat); [done|].
  set (r := build_row t ["hash"; c] [h; v]).
  destruct (place_row Abort t r) as [t1| |] eqn:Hp; [| |done].
  - intros Hall.
    pose proof (keeps_rows_placed Abort tbl t t1 r s) as Hstep.
    split.
    + intros name.
      apply (keeps_rows_trans name s (set_object tbl (Table t1) s) s').
      * by apply Hstep.
      * exact (fire_all_grows _ _ name _ _ Hall).
    + destruct (fire_all_grows _ _ tbl _ _ Hall t1) as (t' & Ht' & Hsub);
        [apply lookup_set_object_eq|].
      exists t', r. split; [done|]. split.
      * apply Hsub. rewrite (place_row_grows Abort _ _ _ ltac:(done) Hp).
        apply elem_of_app. right. by apply list_elem_of_singleton.
      * split; [apply build_row_hash|apply build_row_column].
  - exfalso. unfold place_row in Hp. destruct (negb _); [done|].
    by destruct (existsb _ _).
Qed.

Lemma insert_rows_grows tbl c v hashes : ∀ s s',
  insert_rows Abort tbl (Some ["hash"; c]) (map (λ hash, [hash; v]) hashes) s = Ok s' →
  (∀ name, keeps_rows name s s') ∧
  ∀ h, h ∈ hashes →
    ∃ t' (r : row),
      lookup_object tbl s' = Some (Table t') ∧ r ∈ tbl_rows t' ∧
      r !! "hash" = Some h ∧ (c ≠ "hash" → r !! c = Some v).
Proof.
  induction hashes as [|h0 hashes IH]; intros s s'; cbn [map insert_rows].
  - intros [= <-]. split; [intros name; apply keeps_rows_refl|].
    by intros h ?%elem_of_nil.
  - destruct (insert_row Abort tbl _ [h0; v] s) as [s1| |] eqn:H1;
      cbn [mbind outcome_bind]; [|done|done].
    intros Hrest.
    destruct (insert_row_grows _ _ _ _ _ _ H1) as (Hk1 & t1 & r & Ht1 & Hr & Hh & Hc).
    destruct (IH _ _ Hrest) as (Hk & Hin).
    split; [intros name; by eapply keeps_rows_trans|].
    intros h [->|Hh']%elem_of_cons; [|by apply Hin].
    destruct (Hk tbl t1 Ht1) as (t' & Ht' & Hsub).
    exists t', r. auto.
Qed.

(** X25. A plain [insert] of a feature kept in the table [local] of a
    context whose scaffold is there registers what it inserts: when the call
    returns, every identity given is returned by the query for the value in
    that table and is the hash of a row of the registry table [features],
    the scaffold and the registry invariant still hold, and no row of any
    table of the store has been removed. *)
Theorem insert_registers (self self' : Database) (feature value : string)
    (hashes : list string) (info : finfo) (s : store) (features : string) :
  feature_infos self !! feature = Some info →
  f_column info ≠ "hash" →
  find_store (f_table info) (connection self) = Some s →
  scaffold (f_table info) features s = true →
  registered (f_table info) features s = true →
  forallb dq_free (value :: hashes) = true →
  insert feature value hashes false self = Ok self' →
  ∃ s' tl tf,
    find_store (f_table info) (connection self') = Some s' ∧
    lookup_object (f_table info) s' = Some (Table tl) ∧
    lookup_object features s' = Some (Table tf) ∧
    scaffold (f_table info) features s' = true ∧
    registered (f_table info) features s' = true ∧
    (∀ name, keeps_rows name s s') ∧
    ∀ h, h ∈ hashes →
      h ∈ select_hash (f_column info) value tl ∧ h ∈ hashes_of tf.
Proof.
  intros Hi Hcol Hf Hsc Hreg Hq Hins.
  assert (Hne : hashes ≠ []).
  { intros ->. unfold insert, info_of in Hins. rewrite Hi in Hins. done. }
  rewrite (insert_found _ _ _ _ _ info s) in Hins by done.
  cbn [insert_method andb] in Hins.
  destruct (insert_values Abort _ _ _ s) as [s'| |] eqn:Hv;
    cbn [mbind outcome_bind] in Hins; [|done|done].
  injection Hins as <-. apply insert_values_Ok in Hv.
  assert (Hs : registry_state (f_table info) features s) by by apply registry_state_spec.
  pose proof (insert_rows_registry_state _ _ _ _ _ _ _ Hs Hv) as Hs'.
  pose proof Hs' as (_ & _ & tl & tf & Hl & Hft & _ & _ & Hsub).
  destruct (insert_rows_grows _ _ _ _ _ _ Hv) as (Hk & Hin).
  exists s', tl, tf. split.
  { cbn [connection with_connection]. apply find_put_store; [by rewrite Hf|by rewrite Hl]. }
  split; [done|]. split; [done|].
  apply registry_state_spec in Hs' as [Hsc' Hreg'].
  split; [done|]. split; [done|]. split; [done|].
  intros h Hh. destruct (Hin h Hh) as (t' & r & Ht' & Hr & Hrh & Hrc).
  rewrite Hl in Ht'. injection Ht' as <-.
  split.
  - apply elem_of_select_hash. exists r. auto.
  - apply Hsub. unfold hashes_of. apply list_elem_of_omap. by exists r.
Qed.

End Further.

(** ** The further properties at the sample data *)

Lemma fingerprint_order_witness :
  compute_degree_sequence_hash (E := sample_externals) "a" ["1 -2 0"; "c note"; "2 0"] =
  compute_degree_sequence_hash (E := sample_externals) "a" ["c note"; "1 -2 0"; "2 0"] ∧
  compute_degree_sequence_hash (E := sample_externals) "a" ["1 -2 0"; "2 0"] =
  compute_degree_sequence_hash (E := sample_externals) "a" ["2 -2 1 0"].
Proof.
  split.
  - apply (fingerprint_order (E := sample_externals) "a"). apply perm_swap.
  - apply (fingerprint_order (E := sample_externals) "a" ["1 -2 0"; "2 0"] ["2 -2 1 0"])
      with (nums1 := [1; -2; 2]) (nums2 := [2; -2; 1]).
    + vm_compute. reflexivity.
    + vm_compute. reflexivity.
    + apply (Permutation_rev [1; -2; 2]).
Defined.

Lemma fingerprint_polarity_witness :
  compute_degree_sequence_hash (E := sample_externals) "a" ["1 -2 0"; "2 0"] =
  compute_degree_sequence_hash (E := sample_externals) "a" ["-1 2 0"; "-2 0"] ∧
  compute_degree_sequence_hash (E := sample_externals) "a" ["1 -2 0"; "2 0"] =
  compute_degree_sequence_hash (E := sample_externals) "a" ["-1 -2 0"; "2 0"].
Proof.
  split.
  - apply (fingerprint_polarity (E := sample_externals) "a" _ _ (λ _, true) [1; -2; 2]);
      vm_compute; reflexivity.
  - apply (fingerprint_polarity (E := sample_externals) "a" _ _ (λ x, x =? 1) [1; -2; 2]);
      vm_compute; reflexivity.
Defined.

Lemma fingerprint_skips_lines_witness :
  compute_degree_sequence_hash (E := sample_externals) "a" ["1 -2 0"; "2 0"] =
  compute_degree_sequence_hash (E := sample_externals) "a" sample_lines ∧
  compute_degree_sequence_hash (E := sample_externals) "a" ["c empty"; "p cnf 0 0"; "  "] =
    Ok {| hashvalue := "a";
          attributes := [(REPLACE, "degree_sequence_hash", EmptyString)] |}.
Proof.
  split.
  - apply (fingerprint_skips_lines (E := sample_externals) "a" sample_lines).
  - apply (fingerprint_skips_lines (E := sample_externals) "a"
             ["c empty"; "p cnf 0 0"; "  "]).
    vm_compute. reflexivity.
Defined.

Lemma fingerprint_value_error_witness :
  compute_degree_sequence_hash (E := sample_externals) "a" ["p cnf 2 1"; "1 x2 0"]
    = Raise ValueError ∧
  ∃ r, compute_degree_sequence_hash (E := sample_externals) "a" ["p cnf 2 1"; "1 2 x"]
    = Ok r.
Proof.
  split.
  - apply (fingerprint_value_error (E := sample_externals) "a" ["p cnf 2 1"; "1 x2 0"]).
    exists "1 x2 0", (String.list_ascii_of_string "x2").
    split; [apply elem_of_cons; right; apply elem_of_cons; by left|].
    split; [|vm_compute; reflexivity].
    vm_compute. apply elem_of_cons. right. apply elem_of_cons. by left.
  - apply (fingerprint_value_error (E := sample_externals) "a" ["p cnf 2 1"; "1 2 x"]).
    intros line tok Hline Htok.
    apply elem_of_cons in Hline as [->|Hline];
      [vm_compute in Htok; by apply elem_of_nil in Htok|].
    apply list_elem_of_singleton in Hline as ->. vm_compute in Htok.
    apply elem_of_cons in Htok as [->|Htok]; [vm_compute; eauto|].
    apply list_elem_of_singleton in Htok as ->. vm_compute. eauto.
Defined.

Lemma no_identities_given_witness :
  insert (E := sample_externals) "tag" "value2" [] false sample_db
    = Raise (OperationalError SyntaxError) ∧
  delete_hashes (E := sample_externals) "family" [] sample_db
    = Raise (OperationalError SyntaxError) ∧
  ∃ self' s' t',
    delete_hashes (E := sample_externals) "tag" [] sample_db = Ok self' ∧
    find_store "tag" (connection self') = Some s' ∧
    lookup_object "tag" s' = Some (Table t') ∧
    tbl_rows t' = tbl_rows sample_tag.
Proof.
  split; [|split].
  - destruct (no_identities_given (E := sample_externals) sample_db "tag"
                (sample_info "tag" "value" None) eq_refl) as (Hinsert & _).
    apply Hinsert.
  - destruct (no_identities_given (E := sample_externals) sample_db "family"
                (sample_info "features" "family" (Some "empty")) eq_refl)
      as (_ & Hdefault & _).
    by apply (Hdefault "empty").
  - destruct (no_identities_given (E := sample_externals) sample_db "tag"
                (sample_info "tag" "value" None) eq_refl) as (_ & _ & Hnull & _).
    destruct (Hnull sample_main sample_tag) as (self' & s' & t' & Hcall & Hfind & Hlook & _);
      try reflexivity.
    exists self', s', t'. repeat (split; [assumption|]).
    vm_compute in Hcall. injection Hcall as <-.
    vm_compute in Hfind. injection Hfind as <-.
    vm_compute in Hlook. injection Hlook as <-.
    reflexivity.
Defined.

Lemma plain_insert_registered_witness :
  insert (E := sample_externals) "family" "unsat" ["c"; "a"] false sample_db
    = Raise (IntegrityError UniqueFailed).
Proof.
  apply (plain_insert_registered (E := sample_externals) sample_db "family" "unsat"
           ["c"; "a"] false (sample_info "features" "family" (Some "empty"))
           sample_main sample_registry "a"); try reflexivity.
  - repeat split.
  - apply elem_of_cons. right. apply elem_of_cons. by left.
  - vm_compute. apply elem_of_cons. right. apply elem_of_cons. by left.
Defined.

Lemma forced_insert_resets_witness :
  ∃ self' s' t',
    insert (E := sample_externals) "family" "unsat" ["a"] true sample_wide_db = Ok self' ∧
    find_store "features" (connection self') = Some s' ∧
    lookup_object "features" s' = Some (Table t') ∧
    tbl_rows t' = [{["hash" := "a"; "family" := "unsat"; "author" := "unknown"]}] ∧
    mem "a" (select_hash "family" "unsat" t') = true.
Proof.
  destruct (forced_insert_resets (E := sample_externals) sample_wide_db "family" "unsat"
              ["a"] (sample_info "features" "family" (Some "empty"))
              {| objects := [("features", Table sample_wide)]; triggers := [] |}
              sample_wide)
    as (self' & s' & t' & Hcall & Hfind & Hlook & _ & Hrows); try reflexivity;
    [done|repeat split|done|].
  exists self', s', t'. repeat (split; [assumption|]).
  split; [|apply (Hrows "a"); apply elem_of_cons; by left].
  vm_compute in Hcall. injection Hcall as <-.
  vm_compute in Hfind. injection Hfind as <-.
  vm_compute in Hlook. injection Hlook as <-.
  vm_compute. reflexivity.
Defined.

Lemma create_feature_default_fills_witness :
  ∃ self' s' t',
    create_feature (E := sample_externals) "result" (Some "unknown") sample_db = Ok self' ∧
    find_store "features" (connection self') = Some s' ∧
    lookup_object "features" s' = Some (Table t') ∧
    select_hash "result" "unknown" t' = ["b"; "a"] ∧
    insert (E := sample_externals) "result" "sat" ["a"] true self' = Raise (KeyError "result").
Proof.
  destruct (create_feature_default_fills (E := sample_externals) sample_db "result"
              "unknown" sample_main sample_registry)
    as (self' & s' & t' & Hcall & Hfind & Hlook & _ & _ & Hsel & _ & Hkey);
    try reflexivity.
  exists self', s', t'. repeat (split; [assumption|]).
  split; [by apply Hsel|]. by apply Hkey.
Defined.

Lemma created_table_discovered_witness :
  ∃ self1 s1 self2,
    create_feature (E := sample_externals) "solver" None sample_plain_db = Ok self1 ∧
    connection self1 = [s1] ∧
    extract_infos (E := sample_externals) "bench/test.db" false s1 sample_start = Ok self2 ∧
    feature_infos self2 !! "solver" =
      Some {| f_table := "solver"; f_column := "value"; f_default := None;
              f_virtual := false; f_context := "cnf"; f_database := "test_db" |}.
Proof.
  destruct (created_table_discovered (E := sample_externals) sample_plain_db "solver"
              sample_plain []) as (self1 & s1 & Hcall & Hconn & Hfound); try reflexivity.
  - apply names_uniqueb_spec. reflexivity.
  - apply no_columnb_spec. reflexivity.
  - exists self1, s1. eexists. split; [exact Hcall|]. split; [exact Hconn|].
    vm_compute in Hcall. injection Hcall as <-.
    vm_compute in Hconn. injection Hconn as <-.
    split; [vm_compute; reflexivity|].
    apply (Hfound "bench/test.db" sample_start); [reflexivity|vm_compute; reflexivity].
Defined.

Lemma created_column_discovered_witness :
  ∃ self1 s1 self2,
    create_feature (E := sample_externals) "result" (Some "unknown") sample_plain_db
      = Ok self1 ∧
    find_store "features" (connection self1) = Some s1 ∧
    extract_infos (E := sample_externals) "bench/test.db" false s1 sample_start = Ok self2 ∧
    feature_infos self2 !! "result" =
      Some {| f_table := "features"; f_column := "result"; f_default := Some "unknown";
              f_virtual := false; f_context := "cnf"; f_database := "test_db" |}.
Proof.
  destruct (created_column_discovered (E := sample_externals) sample_plain_db "result"
              "unknown" sample_plain sample_registry)
    as (self1 & s1 & Hcall & Hfind & Hfound); try reflexivity; try done.
  - apply names_uniqueb_spec. reflexivity.
  - apply no_columnb_spec. reflexivity.
  - exists self1, s1. eexists. split; [exact Hcall|]. split; [exact Hfind|].
    vm_compute in Hcall. injection Hcall as <-.
    vm_compute in Hfind. injection Hfind as <-.
    split; [vm_compute; reflexivity|].
    apply (Hfound "bench/test.db" sample_start); [reflexivity|vm_compute; reflexivity].
Defined.

Lemma delete_feature_drops_witness :
  delete_feature "family" sample_db
    = Raise (DatabaseException "Not Implemented") ∧
  ∃ self',
    delete_feature "tag" sample_db = Ok self' ∧
    map fst (objects_but "tag" sample_main) = ["local"; "filename"; "hash"; "features"] ∧
    map objects (connection self') = [objects_but "tag" sample_main] ∧
    feature_infos self' !! "tag" = Some (sample_info "tag" "value" None) ∧
    insert (E := sample_externals) "tag" "value2" ["a"] false self'
      = Raise (OperationalError NoSuchTable).
Proof.
  split.
  - destruct (delete_feature_drops (E := sample_externals) sample_db "family"
                (sample_info "features" "family" (Some "empty")) [] [] sample_main
                eq_refl eq_refl) as (Hcolumn & _); [constructor|reflexivity|].
    by apply Hcolumn.
  - destruct (delete_feature_drops (E := sample_externals) sample_db "tag"
                (sample_info "tag" "value" None) [] [] sample_main
                eq_refl eq_refl) as (_ & _ & Htable); [constructor|reflexivity|].
    destruct (Htable sample_tag) as (self' & Hcall & Hinfos & Hobjs & _ & Hinsert & _);
      try reflexivity.
    exists self'. split; [exact Hcall|]. split; [reflexivity|]. split; [exact Hobjs|].
    split; [by rewrite Hinfos|]. by apply Hinsert.
Defined.

Lemma meta_record_empty_only_witness :
  meta_record (V := string) "tag" sample_created_db = Ok [] ∧
  ∃ self',
    meta_set (E := sample_externals) sample_dumps "tag" "author" "biere" sample_created_db
      = Ok self' ∧
    select_meta "tag" (connection self') = Ok [Some "{author: biere; }"] ∧
    meta_record (V := string) "tag" self' = Raise TypeError ∧
    meta_set (E := sample_externals) sample_dumps "tag" "year" "2021" self'
      = Raise TypeError.
Proof.
  split; [reflexivity|].
  assert (Htr : ∀ s, find_store "__meta" (connection sample_created_db) = Some s →
                     triggers_on "__meta" s = []).
  { intros s Hs. vm_compute in Hs. injection Hs as <-. reflexivity. }
  destruct (meta_record_empty_only (E := sample_externals) sample_dumps
              sample_created_db "tag" Htr) as (_ & Hset & _).
  destruct (meta_set (E := sample_externals) sample_dumps "tag" "author" "biere"
              sample_created_db) as [self'| |] eqn:Hcall; [|by vm_compute in Hcall..].
  destruct (Hset self' "author" "biere" Hcall) as [Hrec Hagain].
  exists self'. split; [reflexivity|].
  split; [vm_compute in Hcall; injection Hcall as <-; vm_compute; reflexivity|].
  split; [exact Hrec|apply Hagain].
Defined.

Lemma create_then_check_witness :
  create (E := sample_externals) 0 3 sample_empty = Ok sample_created ∧
  check 0 3 sample_created = Warned [] ∧
  check 0 4 sample_created = Warned [HashVersionWarning (Some "3") 4] ∧
  check 0 3 sample_empty = CheckRaise (OperationalError NoSuchTable) ∧
  startup_action sample_files "new.db" = OpenStore.
Proof.
  split; [vm_compute; reflexivity|].
  destruct (create_then_check (E := sample_externals) 0 3 0 3 sample_empty)
    as (Hsame & Hnone & Hempty).
  destruct (create_then_check (E := sample_externals) 0 3 0 4 sample_empty)
    as (Hother & _ & _).
  split; [|split; [|split]].
  - destruct Hsame as (s & Hcreate & Hcheck); [reflexivity..|].
    vm_compute in Hcreate. injection Hcreate as <-. exact Hcheck.
  - destruct Hother as (s & Hcreate & Hcheck); [reflexivity..|].
    vm_compute in Hcreate. injection Hcreate as <-. exact Hcheck.
  - by apply Hnone.
  - by apply (Hempty sample_files "new.db").
Defined.

Lemma features_listed_witness :
  "tag" ∈ features true false None sample_db ∧
  features false false None sample_db = [] ∧
  features true true (Some "other_db") sample_db = [].
Proof.
  destruct (features_listed sample_db true false None) as (Hin & _ & _ & _ & _).
  destruct (features_listed sample_db false false None) as (_ & _ & Hnone & _).
  split; [|split; [exact Hnone|vm_compute; reflexivity]].
  apply Hin. exists (sample_info "tag" "value" None). repeat split. done.
Defined.

Lemma extract_infos_database_entry_witness :
  ∃ self info,
    extract_infos (E := sample_externals) "bench/test.db" false sample_plain sample_start
      = Ok self ∧
    assoc "test_db" (database_infos self) = Some info ∧
    db_main info = true ∧
    db_tables info = ["features"; "tag"] ∧ db_views info = [] ∧
    db_contexts info = ["cnf"].
Proof.
  destruct (extract_infos (E := sample_externals) "bench/test.db" false sample_plain
              sample_start) as [self| |] eqn:Hcall; [|by vm_compute in Hcall..].
  destruct (extract_infos_database_entry (E := sample_externals) "bench/test.db" false
              sample_plain sample_start self Hcall)
    as (info & Hinfo & _ & _ & Hmain & Htables & Hviews & _).
  exists self, info. split; [reflexivity|]. split; [exact Hinfo|].
  split; [exact Hmain|]. split; [exact Htables|]. split; [exact Hviews|].
  vm_compute in Hcall. injection Hcall as <-.
  vm_compute in Hinfo. injection Hinfo as <-. reflexivity.
Defined.

Lemma discover_main_witness :
  (∃ self info,
     discover (E := sample_externals) sample_stores sample_start = Ok self ∧
     assoc "test_db" (database_infos self) = Some info ∧ db_main info = true) ∧
  (∃ self info,
     discover (E := sample_externals)
       [("bench/test.db", false, sample_plain); ("other/test.db", false, sample_plain)]
       sample_start = Ok self ∧
     databases self = ["test_db"] ∧
     assoc "test_db" (database_infos self) = Some info ∧ db_main info = false).
Proof.
  split.
  - destruct (discover (E := sample_externals) sample_stores sample_start)
      as [self| |] eqn:Hcall; [|by vm_compute in Hcall..].
    destruct (discover_main (E := sample_externals) "bench/test.db" false _ _
                sample_start self eq_refl Hcall) as [_ Hmain].
    vm_compute in Hcall. injection Hcall as <-.
    eexists _, _. split; [reflexivity|]. split; [reflexivity|].
    eapply (Hmain "test_db"); [reflexivity|]. split; reflexivity.
  - destruct (discover (E := sample_externals)
                [("bench/test.db", false, sample_plain);
                 ("other/test.db", false, sample_plain)] sample_start)
      as [self| |] eqn:Hcall; [|by vm_compute in Hcall..].
    destruct (discover_main (E := sample_externals) "bench/test.db" false _ _
                sample_start self eq_refl Hcall) as [_ Hmain].
    vm_compute in Hcall. injection Hcall as <-.
    eexists _, _. split; [reflexivity|]. split; [reflexivity|]. split; [reflexivity|].
    match goal with |- db_main ?i = false => destruct (db_main i) eqn:Hm end;
      [|reflexivity].
    eapply (Hmain "test_db") in Hm as [_ Hm]; [|reflexivity]. done.
Defined.

Lemma init_database_only_adds_witness :
  ∃ s',
    init_database (E := sample_externals) sample_dbinfo_plain sample_plain = Ok s' ∧
    map fst (objects s') = ["features"; "tag"; "local"; "filename"; "hash"] ∧
    lookup_object "tag" s' = Some (Table sample_tag) ∧
    lookup_object "features" s' = Some (Table sample_registry).
Proof.
  destruct (init_database (E := sample_externals) sample_dbinfo_plain sample_plain)
    as [s'| |] eqn:Hcall; [|by vm_compute in Hcall..].
  destruct (init_database_only_adds (E := sample_externals) _ _ _ Hcall) as (Hkeeps & _).
  exists s'. split; [reflexivity|].
  split; [vm_compute in Hcall; injection Hcall as <-; reflexivity|].
  split; by apply Hkeeps.
Defined.

Lemma init_database_stale_entry_witness :
  init_database (E := sample_externals) sample_dbinfo sample_empty = Ok sample_scaffold ∧
  init_database (E := sample_externals) sample_dbinfo sample_scaffold
    = Raise (OperationalError AlreadyExists).
Proof.
  assert (Hfirst : init_database (E := sample_externals) sample_dbinfo sample_empty
                   = Ok sample_scaffold) by (vm_compute; reflexivity).
  split; [exact Hfirst|].
  apply (init_database_stale_entry (E := sample_externals) _ _ _ Hfirst).
Defined.

Lemma import_csv_rows_witness :
  ∃ s',
    import_csv (E := sample_externals_csv) sample_files "data.csv" sample_empty = Ok s' ∧
    lookup_object "cnf_data_csv" s' =
      Some (Table {| tbl_columns := [plain_column "hash"; plain_column "family"];
                     tbl_unique := [];
                     tbl_rows := [{["hash" := "a"; "family" := "sat"]};
                                  {["hash" := "b"; "family" := "unsat"]}] |}).
Proof.
  destruct (import_csv (E := sample_externals_csv) sample_files "data.csv" sample_empty)
    as [s'| |] eqn:Hcall; [|by vm_compute in Hcall..].
  destruct (import_csv_rows (E := sample_externals_csv) sample_files "data.csv"
              sample_empty s' eq_refl eq_refl Hcall)
    as (content & fieldnames & records & Hfile & Hcsv & _ & _ & _ & _ & Hlook & _).
  exists s'. split; [reflexivity|].
  assert (Hname : import_name (E := sample_externals_csv) "data.csv" = "cnf_data_csv")
    by reflexivity.
  rewrite Hname in Hlook. rewrite Hlook.
  vm_compute in Hfile. injection Hfile as <-.
  vm_compute in Hcsv. injection Hcsv as <- <-. vm_compute. reflexivity.
Defined.

Lemma imported_fields_discovered_witness :
  ∃ s' self,
    import_csv (E := sample_externals_csv) sample_files "data.csv" sample_empty = Ok s' ∧
    extract_infos (E := sample_externals_csv) "file::memory:?cache=shared" true s'
      sample_start = Ok self ∧
    feature_infos self !! "family" =
      Some {| f_table := "cnf_data_csv"; f_column := "family"; f_default := None;
              f_virtual := true; f_context := "cnf";
              f_database := "file__memory__cache_shared" |}.
Proof.
  destruct (import_csv (E := sample_externals_csv) sample_files "data.csv" sample_empty)
    as [s'| |] eqn:Hcall; [|by vm_compute in Hcall..].
  destruct (extract_infos (E := sample_externals_csv) "file::memory:?cache=shared" true s'
              sample_start) as [self| |] eqn:Hfound;
    [|vm_compute in Hcall; injection Hcall as <-; by vm_compute in Hfound..].
  exists s', self. split; [reflexivity|]. split; [exact Hfound|].
  assert (Hentry := imported_fields_discovered (E := sample_externals_csv) sample_files
                      "data.csv" sample_empty s'
                      (String.list_byte_of_string "family,size")
                      ["hash"; "family"] [["a"; "sat"]; []; ["b"; "unsat"]] "family").
  assert (Hdb : make_alnum_ul (Externals := sample_externals_csv)
                  (basename "file::memory:?cache=shared") = "file__memory__cache_shared")
    by (vm_compute; reflexivity).
  rewrite <- Hdb.
  apply Hentry with (self0 := sample_start);
    first [ reflexivity | done
          | apply names_uniqueb_spec; reflexivity
          | apply no_columnb_spec; reflexivity
          | apply elem_of_cons; right; apply elem_of_cons; by left ].
Defined.

Lemma translators_created_witness :
  ∃ s',
    init_database (E := sample_externals) sample_dbinfo2 sample_empty = Ok s' ∧
    lookup_object "translator_cnf_opb" s' =
      Some (Table {| tbl_columns := [plain_column "hash"; plain_column "value"];
                     tbl_unique := []; tbl_rows := [] |}) ∧
    is_Some (lookup_object "translator_opb_cnf" s') ∧
    lookup_object "translator_cnf_cnf" s' = None.
Proof.
  destruct (init_database (E := sample_externals) sample_dbinfo2 sample_empty)
    as [s'| |] eqn:Hcall; [|by vm_compute in Hcall..].
  destruct (translators_created (E := sample_externals) sample_dbinfo2 sample_empty s'
              "cnf" "opb" Hcall) as [Hpairs Hmade].
  exists s'. split; [reflexivity|]. split.
  - apply Hmade; [|reflexivity]. apply Hpairs. by exists 0%nat, 1%nat.
  - vm_compute in Hcall. injection Hcall as <-. split; [vm_compute; eauto|reflexivity].
Defined.

Lemma discovery_after_init_raises_witness :
  init_database (E := sample_externals) sample_dbinfo sample_empty = Ok sample_scaffold ∧
  extract_infos (E := sample_externals) "test.db" false sample_scaffold sample_start
    = Raise (OperationalError NoSuchTable).
Proof.
  assert (Hfirst : init_database (E := sample_externals) sample_dbinfo sample_empty
                   = Ok sample_scaffold) by (vm_compute; reflexivity).
  split; [exact Hfirst|].
  apply (discovery_after_init_raises (E := sample_externals) _ _ _ "cnf" Hfirst);
    try reflexivity.
  apply elem_of_cons. by left.
Defined.

Lemma import_csv_refuses_witness :
  import_csv (E := sample_externals) sample_files "data.csv" sample_empty
    = Raise (DatabaseException
               ("Column 'hash' not found in " +:+
                file_repr (Externals := sample_externals) "data.csv")) ∧
  import_csv (E := sample_externals_csv) sample_files "missing.csv" sample_empty
    = Raise OSError ∧
  import_csv (E := sample_with_reader [["hash"; "family"]; ["a"; "sat"]; ["b"]])
    sample_files "data.csv" sample_empty = Raise TypeError ∧
  import_csv_store (E := sample_with_reader [["hash"; "family"]; ["a"; "sat"]; ["b"]])
    sample_files "data.csv" sample_empty =
    Some {| objects :=
              [("cnf_data_csv",
                Table {| tbl_columns := [plain_column "hash"; plain_column "family"];
                         tbl_unique := [];
                         tbl_rows := [{["hash" := "a"; "family" := "sat"]}] |})];
            triggers := [] |}.
Proof.
  split; [|split].
  - destruct (import_csv_refuses (E := sample_externals) sample_files "data.csv"
                sample_empty eq_refl) as (_ & _ & Hheader).
    destruct (Hheader (String.list_byte_of_string "family,size")
                ["family"; "size"] [["sat"; "12"]] eq_refl eq_refl) as (Hhash & _).
    by apply Hhash.
  - destruct (import_csv_refuses (E := sample_externals_csv) sample_files "missing.csv"
                sample_empty eq_refl) as (Hfile & _).
    by apply Hfile.
  - destruct (import_csv_refuses
                (E := sample_with_reader [["hash"; "family"]; ["a"; "sat"]; ["b"]])
                sample_files "data.csv" sample_empty eq_refl) as (_ & _ & Hheader).
    destruct (Hheader (String.list_byte_of_string "family,size")
                ["hash"; "family"] [["a"; "sat"]; ["b"]] eq_refl eq_refl)
      as (_ & Hplain).
    destruct (Hplain eq_refl eq_refl eq_refl eq_refl) as (_ & Hragged).
    destruct (Hragged [["a"; "sat"]] ["b"] [] eq_refl eq_refl eq_refl)
      as (Hraise & Hleft);
      [constructor; [right; split; reflexivity|constructor]|done|by cbn|].
    split; [exact Hraise|]. rewrite Hleft. vm_compute. reflexivity.
Defined.

Lemma insert_registers_witness :
  ∃ self' s' tl tf,
    insert (E := sample_externals) "local" "/bench/c.cnf" ["c"] false sample_db = Ok self' ∧
    find_store "local" (connection self') = Some s' ∧
    lookup_object "local" s' = Some (Table tl) ∧
    lookup_object "features" s' = Some (Table tf) ∧
    "c" ∈ select_hash "value" "/bench/c.cnf" tl ∧ "c" ∈ hashes_of tf.
Proof.
  destruct (insert (E := sample_externals) "local" "/bench/c.cnf" ["c"] false sample_db)
    as [self'| |] eqn:Hcall; [|by vm_compute in Hcall..].
  destruct (insert_registers (E := sample_externals) sample_db self' "local"
              "/bench/c.cnf" ["c"] (sample_info "local" "value" None) sample_main
              "features")
    as (s' & tl & tf & Hfind & Hl & Hf & _ & _ & _ & Hin); try reflexivity;
    [done|exact Hcall|].
  exists self', s', tl, tf. split; [reflexivity|].
  repeat (split; [assumption|]).
  apply Hin. apply elem_of_cons. by left.
Defined.
